(** * GraphQL Sniper: fuzzer, header parsing, tokenizer and forwarding proxy

    A shallow embedding of the TypeScript/JavaScript sources of the
    repository, and the properties its specification states about them.

    Conventions of the embedding.
    - A JavaScript string is a [string]: a sequence of code units, here the
      code units below 256 (ASCII and Latin-1).  [String.length] is the
      JavaScript [length].
    - A [Record<string, string>] used as a map is a [gmap string string].
    - A [Set<string>] is a [gset string].
    - JavaScript numbers that the code uses as counters, offsets and status
      codes are integers ([Z] or [nat]); [NaN] is [None].
    - Platform functions that are not code of the repository and whose
      result the program only passes on ([JSON.parse], [JSON.stringify]) are
      section variables; a reference instance is given for closed examples.
    - The network is an oracle: for every request number it gives what
      [fetch] did (a response, or a thrown error) and the elapsed time. *)

From Stdlib Require Import ZArith Ascii String List Bool Lia Permutation Sorted.
From stdpp Require Import base option list gmap strings pretty.

#[local] Open Scope string_scope.
#[local] Set Warnings "-register-all,-clear-no-such-hyp".

(** ** JavaScript strings *)

Module JsString.

Definition chars (s : string) : list ascii := list_ascii_of_string s.
Definition str (l : list ascii) : string := string_of_list_ascii l.

Definition code (c : ascii) : nat := nat_of_ascii c.

(** White space and line terminators of ECMAScript that fit in one
    Latin-1 code unit: TAB, LF, VT, FF, CR, SP and NBSP.  This is the
    class removed by [trim] and matched by [\s]. *)
Definition is_space (c : ascii) : bool :=
  let n := code c in
  (((9 <=? n) && (n <=? 13)) || (n =? 32) || (n =? 160))%nat.

Definition is_upper (c : ascii) : bool :=
  let n := code c in ((65 <=? n) && (n <=? 90))%nat.

Definition is_lower (c : ascii) : bool :=
  let n := code c in ((97 <=? n) && (n <=? 122))%nat.

Definition is_digit (c : ascii) : bool :=
  let n := code c in ((48 <=? n) && (n <=? 57))%nat.

Definition is_alnum (c : ascii) : bool :=
  is_upper c || is_lower c || is_digit c.

(** [toLowerCase] on one code unit: A-Z, and the Latin-1 capitals
    U+00C0..U+00DE except the multiplication sign U+00D7. *)
Definition lower_char (c : ascii) : ascii :=
  let n := code c in
  if is_upper c then ascii_of_nat (n + 32)
  else if ((192 <=? n) && (n <=? 222) && negb (n =? 215))%nat then ascii_of_nat (n + 32)
  else c.

(** [toUpperCase] restricted to what a case-insensitive regular
    expression over an ASCII pattern needs. *)
Definition upper_ascii (c : ascii) : ascii :=
  if is_lower c then ascii_of_nat (code c - 32) else c.

Definition toLowerCase (s : string) : string := str (map lower_char (chars s)).

Fixpoint trimStart_chars (l : list ascii) : list ascii :=
  match l with
  | c :: l' => if is_space c then trimStart_chars l' else l
  | [] => []
  end.

Definition trimEnd_chars (l : list ascii) : list ascii :=
  rev (trimStart_chars (rev l)).

Definition trim (s : string) : string :=
  str (trimEnd_chars (trimStart_chars (chars s))).

(** [s.indexOf(c)] for a one-character needle; [None] is -1. *)
Fixpoint indexOf_chars (c : ascii) (l : list ascii) : option nat :=
  match l with
  | [] => None
  | x :: l' => if Ascii.eqb x c then Some 0
               else option_map S (indexOf_chars c l')
  end.

Definition indexOf (s : string) (c : ascii) : option nat :=
  indexOf_chars c (chars s).

(** Relative index of [slice]: negative counts from the end, and the
    result is clamped to [0, len]. *)
Definition rel_index (len : nat) (i : Z) : nat :=
  if (i <? 0)%Z then Z.to_nat (Z.max 0 (Z.of_nat len + i))
  else Nat.min len (Z.to_nat i).

(** [s.slice(start, end)]. *)
Definition slice (s : string) (start stop : Z) : string :=
  let l := chars s in
  let from := rel_index (length l) start in
  let to := rel_index (length l) stop in
  str (firstn (to - from) (skipn from l)).

(** [s.slice(start)]. *)
Definition slice_from (s : string) (start : Z) : string :=
  let l := chars s in
  str (skipn (rel_index (length l) start) l).

(** Index of [substring]: clamped to [0, len]. *)
Definition clamp_index (len : nat) (i : Z) : nat :=
  Nat.min len (Z.to_nat (Z.max 0 i)).

(** [s.substring(start, end)]: both indices are clamped, and swapped
    when [start > end]. *)
Definition substring (s : string) (start stop : Z) : string :=
  let l := chars s in
  let a := clamp_index (length l) start in
  let b := clamp_index (length l) stop in
  let from := Nat.min a b in
  let to := Nat.max a b in
  str (firstn (to - from) (skipn from l)).

(** [s.substring(start)]. *)
Definition substring_from (s : string) (start : Z) : string :=
  let l := chars s in
  str (skipn (clamp_index (length l) start) l).

(** [s.split(/\r?\n/)]: a separator is LF, or CR immediately followed
    by LF.  The result always has at least one element. *)
Fixpoint split_lines_chars (cur : list ascii) (l : list ascii) : list string :=
  match l with
  | [] => [str (rev cur)]
  | c :: l' =>
      if Ascii.eqb c "010" then str (rev cur) :: split_lines_chars [] l'
      else if Ascii.eqb c "013" then
        match l' with
        | c' :: l'' =>
            if Ascii.eqb c' "010" then str (rev cur) :: split_lines_chars [] l''
            else split_lines_chars (c :: cur) l'
        | [] => split_lines_chars (c :: cur) l'
        end
      else split_lines_chars (c :: cur) l'
  end.

Definition split_lines (s : string) : list string :=
  split_lines_chars [] (chars s).

(** Does [l] start with [pat], comparing letters without case (the [i]
    flag of a regular expression over an ASCII pattern)?  Returns the
    rest of [l] after the match. *)
Fixpoint strip_prefix_ci (pat l : list ascii) : option (list ascii) :=
  match pat, l with
  | [], _ => Some l
  | p :: pat', c :: l' =>
      if Ascii.eqb (upper_ascii p) (upper_ascii c) then strip_prefix_ci pat' l'
      else None
  | _ :: _, [] => None
  end.

End JsString.

(** ** Header maps: [parseRawHeaders] and [mergeDefaultJsonContentType] *)

Module Headers.
Import JsString.

(** [type HeaderMap = Record<string, string>] *)
Abbreviation HeaderMap := (gmap string string).

(** [headers[key] = value] on an object created by the literal [{}].
    Every key becomes an own property, except ["__proto__"]: that
    assignment reaches the accessor inherited from [Object.prototype],
    which ignores a string, so no own property is created. *)
Definition assign (key value : string) (headers : HeaderMap) : HeaderMap :=
  if decide (key = "__proto__") then headers else <[key := value]> headers.

Definition http_methods : list string :=
  ["GET"; "POST"; "PUT"; "PATCH"; "DELETE"; "HEAD"; "OPTIONS"].

(** [/^(GET|POST|PUT|PATCH|DELETE|HEAD|OPTIONS)\s+/i.test(s)]: one of the
    method names, in any case, followed by at least one white space. *)
Definition is_request_line (s : string) : bool :=
  existsb
    (fun m =>
       match strip_prefix_ci (chars m) (chars s) with
       | Some (c :: _) => is_space c
       | _ => false
       end)
    http_methods.

(** The body of the loop of [parseRawHeaders] on one line: the entry the
    line assigns, or [None] when the line is skipped by a [continue]. *)
Definition parseHeaderLine (line : string) : option (string * string) :=
  let trimmed := trim line in
  if decide (trimmed = "") then None
  else if is_request_line trimmed then None
  else
    match indexOf trimmed ":" with
    | None => None
    | Some idx =>
        let key := trim (slice trimmed 0 (Z.of_nat idx)) in
        let value := trim (slice_from trimmed (Z.of_nat idx + 1)) in
        if decide (key = "") then None
        else if decide (toLowerCase key = "content-length") then None
        else Some (key, value)
    end.

Definition parseHeaderStep (headers : HeaderMap) (line : string) : HeaderMap :=
  match parseHeaderLine line with
  | Some (key, value) => assign key value headers
  | None => headers
  end.

Definition parseHeaderLines (lines : list string) (headers : HeaderMap) : HeaderMap :=
  foldl parseHeaderStep headers lines.

Definition parseRawHeaders (raw : string) : HeaderMap :=
  parseHeaderLines (split_lines raw) ∅.

(** [Object.keys(headers).find((k) => k.toLowerCase() === 'content-type')]:
    the first own key that matches, [None] for [undefined].  The order of
    the keys does not matter to the caller, which only tests the result. *)
Definition findContentTypeKey (headers : HeaderMap) : option string :=
  List.find (fun k => bool_decide (toLowerCase k = "content-type"))
            (map fst (map_to_list headers)).

(** [{ 'Content-Type': 'application/json', ...headers }]: the spread
    entries come last and win over the literal one. *)
Definition withDefaultJson (headers : HeaderMap) : HeaderMap :=
  headers ∪ {[ "Content-Type" := "application/json" ]}.

(** [!ctKey] holds for [undefined] and for the empty string. *)
Definition mergeDefaultJsonContentType (headers : HeaderMap) : HeaderMap :=
  match findContentTypeKey headers with
  | None => withDefaultJson headers
  | Some ctKey => if decide (ctKey = "") then withDefaultJson headers else headers
  end.

End Headers.

(** ** Session wordlist: [splitWordsTokenize] and [addWord] *)

Module Tokenizer.
Import JsString.

(** [s.split(/[C]+/)] for a character class [C] given as a predicate:
    every maximal run of separator characters is one separator; a
    separator at either end leaves an empty string there. *)
Fixpoint split_runs_chars (sep : ascii -> bool) (in_sep : bool)
         (cur l : list ascii) : list string :=
  match l with
  | [] => [str (rev cur)]
  | c :: l' =>
      if sep c then
        if in_sep then split_runs_chars sep true cur l'
        else str (rev cur) :: split_runs_chars sep true [] l'
      else split_runs_chars sep false (c :: cur) l'
  end.

Definition split_runs (sep : ascii -> bool) (s : string) : list string :=
  split_runs_chars sep false [] (chars s).

(** [[^A-Za-z0-9]] *)
Definition non_alnum (c : ascii) : bool := negb (is_alnum c).

(** [[\s_\-]] *)
Definition word_break (c : ascii) : bool :=
  is_space c || Ascii.eqb c "_" || Ascii.eqb c "-".

(** [piece.replace(/([a-z0-9])([A-Z])/g, '$1 $2')]: the scan goes left
    to right and resumes after the two characters of a match. *)
Fixpoint camel_spaced_chars (l : list ascii) : list ascii :=
  match l with
  | a :: l' =>
      match l' with
      | b :: l'' =>
          if (is_lower a || is_digit a) && is_upper b
          then a :: " "%char :: b :: camel_spaced_chars l''
          else a :: camel_spaced_chars l'
      | [] => [a]
      end
  | [] => []
  end.

Definition camel_spaced (piece : string) : string :=
  str (camel_spaced_chars (chars piece)).

Definition nonempty (s : string) : bool := negb (String.eqb s "").

Definition splitWordsTokenize (token : string) : list string :=
  if String.eqb token "" then []
  else
    flat_map
      (fun piece =>
         map toLowerCase
             (filter (fun sub => nonempty sub = true)
                     (split_runs word_break (camel_spaced piece))))
      (filter (fun piece => nonempty piece = true) (split_runs non_alnum token)).

Definition addWord (set : gset string) (w : string) : gset string :=
  if String.eqb w "" then set
  else foldl (fun acc p => {[ p ]} ∪ acc) ({[ toLowerCase w ]} ∪ set)
             (splitWordsTokenize w).

End Tokenizer.

(** ** JSON values *)

Module Json.
Import JsString.

(** A number [JNum m e] is the decimal [m * 10^e]. *)
Inductive JSON : Type :=
| JNull
| JBool (b : bool)
| JNum (mantissa exponent : Z)
| JStr (s : string)
| JArr (items : list JSON)
| JObj (members : list (string * JSON)).

(** [Boolean(v)] *)
Definition truthy (v : JSON) : bool :=
  match v with
  | JNull => false
  | JBool b => b
  | JNum m _ => negb (m =? 0)%Z
  | JStr s => negb (String.eqb s "")
  | JArr _ | JObj _ => true
  end.

(** The member [k] of an object; of two members with one name the
    later one counts. *)
Definition field (k : string) (members : list (string * JSON)) : option JSON :=
  snd <$> List.find (fun kv => String.eqb (fst kv) k) (rev members).

(** [a || b] where [None] is [undefined]. *)
Definition or_else (a b : option JSON) : option JSON :=
  match a with
  | Some v => if truthy v then a else b
  | None => b
  end.

(** A map of strings as a JSON object. *)
Definition object_of_map (h : gmap string string) : JSON :=
  JObj (map (fun kv => (fst kv, JStr (snd kv))) (map_to_list h)).

(** *** A reference [JSON.parse]

    A recursive-descent reader of the JSON grammar over the code units
    the embedding has.  The fuzzer and the proxy are stated over any
    parser; this one instantiates them in closed examples. *)

Definition dquote : ascii := "034"%char.
Definition backslash : ascii := "092"%char.

Definition is_json_ws (c : ascii) : bool :=
  let n := code c in ((n =? 32) || (n =? 9) || (n =? 10) || (n =? 13))%nat.

Fixpoint skip_ws (l : list ascii) : list ascii :=
  match l with
  | c :: l' => if is_json_ws c then skip_ws l' else l
  | [] => []
  end.

Definition digit_value (c : ascii) : Z := Z.of_nat (code c - 48).

(** Reads a possibly empty run of digits: value so far, number of
    digits read, rest. *)
Fixpoint read_digits (acc : Z) (count : nat) (l : list ascii) : Z * nat * list ascii :=
  match l with
  | c :: l' =>
      if is_digit c then read_digits (10 * acc + digit_value c) (S count) l'
      else (acc, count, l)
  | [] => (acc, count, [])
  end.

Definition hex_value (c : ascii) : option nat :=
  let n := code c in
  if is_digit c then Some (n - 48)
  else if ((97 <=? n) && (n <=? 102))%nat then Some (n - 87)
  else if ((65 <=? n) && (n <=? 70))%nat then Some (n - 55)
  else None.

(** The characters of a string literal after its opening quote. *)
Fixpoint read_string (acc : list ascii) (l : list ascii) : option (string * list ascii) :=
  match l with
  | [] => None
  | c :: l' =>
      if Ascii.eqb c dquote then Some (str (rev acc), l')
      else if Ascii.eqb c backslash then
        match l' with
        | e :: l'' =>
            let simple (x : ascii) := read_string (x :: acc) l'' in
            if Ascii.eqb e dquote then simple dquote
            else if Ascii.eqb e backslash then simple backslash
            else if Ascii.eqb e "/" then simple "/"%char
            else if Ascii.eqb e "b" then simple "008"%char
            else if Ascii.eqb e "f" then simple "012"%char
            else if Ascii.eqb e "n" then simple "010"%char
            else if Ascii.eqb e "r" then simple "013"%char
            else if Ascii.eqb e "t" then simple "009"%char
            else if Ascii.eqb e "u" then
              match l'' with
              | h1 :: h2 :: h3 :: h4 :: l4 =>
                  match hex_value h1, hex_value h2, hex_value h3, hex_value h4 with
                  | Some 0, Some 0, Some a, Some b =>
                      read_string (ascii_of_nat (16 * a + b) :: acc) l4
                  | _, _, _, _ => None
                  end
              | _ => None
              end
            else None
        | [] => None
        end
      else if (code c <? 32)%nat then None
      else read_string (c :: acc) l'
  end.

Definition read_literal (lit : string) (v : JSON) (l : list ascii) : option (JSON * list ascii) :=
  let p := chars lit in
  if bool_decide (firstn (length p) l = p) then Some (v, skipn (length p) l) else None.

(** A number: optional minus, integer part without a leading zero,
    optional fraction, optional exponent. *)
Definition read_number (l : list ascii) : option (JSON * list ascii) :=
  let '(neg, l1) :=
    match l with
    | c :: l' => if Ascii.eqb c "-" then (true, l') else (false, l)
    | [] => (false, l)
    end in
  let '(ip, ni, l2) := read_digits 0 0 l1 in
  let leading_zero :=
    match l1 with
    | c :: _ => Ascii.eqb c "0" && (1 <? ni)%nat
    | [] => false
    end in
  if (ni =? 0)%nat || leading_zero then None
  else
    let frac :=
      match l2 with
      | c :: l' =>
          if Ascii.eqb c "." then
            let '(m, nf, l3) := read_digits ip 0 l' in
            if (nf =? 0)%nat then None else Some (m, Z.of_nat nf, l3)
          else Some (ip, 0%Z, l2)
      | [] => Some (ip, 0%Z, l2)
      end in
    match frac with
    | None => None
    | Some (m, nf, l3) =>
        let signed := if neg then (- m)%Z else m in
        match l3 with
        | c :: l' =>
            if Ascii.eqb c "e" || Ascii.eqb c "E" then
              let '(eneg, l4) :=
                match l' with
                | s :: l'' =>
                    if Ascii.eqb s "-" then (true, l'')
                    else if Ascii.eqb s "+" then (false, l'')
                    else (false, l')
                | [] => (false, l')
                end in
              let '(ev, ne, l5) := read_digits 0 0 l4 in
              if (ne =? 0)%nat then None
              else Some (JNum signed ((if eneg then - ev else ev) - nf), l5)
            else Some (JNum signed (- nf), l3)
        | [] => Some (JNum signed (- nf), l3)
        end
    end.

Fixpoint read_value (fuel : nat) (l : list ascii) : option (JSON * list ascii) :=
  match fuel with
  | O => None
  | S fuel' =>
      match skip_ws l with
      | [] => None
      | c :: l' =>
          if Ascii.eqb c "n" then read_literal "null" JNull (c :: l')
          else if Ascii.eqb c "t" then read_literal "true" (JBool true) (c :: l')
          else if Ascii.eqb c "f" then read_literal "false" (JBool false) (c :: l')
          else if Ascii.eqb c dquote then
            match read_string [] l' with
            | Some (s, rest) => Some (JStr s, rest)
            | None => None
            end
          else if Ascii.eqb c "[" then
            match skip_ws l' with
            | d :: rest =>
                if Ascii.eqb d "]" then Some (JArr [], rest)
                else
                  match read_items fuel' [] l' with
                  | Some (items, rest') => Some (JArr items, rest')
                  | None => None
                  end
            | [] => None
            end
          else if Ascii.eqb c "{" then
            match skip_ws l' with
            | d :: rest =>
                if Ascii.eqb d "}" then Some (JObj [], rest)
                else
                  match read_members fuel' [] l' with
                  | Some (members, rest') => Some (JObj members, rest')
                  | None => None
                  end
            | [] => None
            end
          else read_number (c :: l')
      end
  end

(** The items of an array after [[] or [,], up to and including []]. *)
with read_items (fuel : nat) (acc : list JSON) (l : list ascii)
     : option (list JSON * list ascii) :=
  match fuel with
  | O => None
  | S fuel' =>
      match read_value fuel' l with
      | Some (v, rest) =>
          match skip_ws rest with
          | d :: rest' =>
              if Ascii.eqb d "," then read_items fuel' (v :: acc) rest'
              else if Ascii.eqb d "]" then Some (rev (v :: acc), rest')
              else None
          | [] => None
          end
      | None => None
      end
  end

(** The members of an object after [{] or [,], up to and including [}]. *)
with read_members (fuel : nat) (acc : list (string * JSON)) (l : list ascii)
     : option (list (string * JSON) * list ascii) :=
  match fuel with
  | O => None
  | S fuel' =>
      match skip_ws l with
      | q :: l1 =>
          if Ascii.eqb q dquote then
            match read_string [] l1 with
            | Some (k, l2) =>
                match skip_ws l2 with
                | colon :: l3 =>
                    if Ascii.eqb colon ":" then
                      match read_value fuel' l3 with
                      | Some (v, rest) =>
                          match skip_ws rest with
                          | d :: rest' =>
                              if Ascii.eqb d "," then read_members fuel' ((k, v) :: acc) rest'
                              else if Ascii.eqb d "}" then Some (rev ((k, v) :: acc), rest')
                              else None
                          | [] => None
                          end
                      | None => None
                      end
                    else None
                | [] => None
                end
            | None => None
            end
          else None
      | [] => None
      end
  end.

(** [JSON.parse(text)]: the value, or the message of the [SyntaxError]
    it throws. *)
Definition reference_parse (text : string) : string + JSON :=
  let l := chars text in
  match read_value (2 * length l + 2) l with
  | Some (v, rest) =>
      match skip_ws rest with
      | [] => inr v
      | _ :: _ => inl "Unexpected non-whitespace character after JSON"
      end
  | None => inl "Unexpected token in JSON"
  end.

(** *** A reference [JSON.stringify] *)

Definition hex_digit (n : nat) : ascii :=
  if (n <? 10)%nat then ascii_of_nat (48 + n) else ascii_of_nat (87 + n).

Definition escape_char (c : ascii) : list ascii :=
  let n := code c in
  if Ascii.eqb c dquote then [backslash; dquote]
  else if Ascii.eqb c backslash then [backslash; backslash]
  else if (n =? 8)%nat then [backslash; "b"%char]
  else if (n =? 9)%nat then [backslash; "t"%char]
  else if (n =? 10)%nat then [backslash; "n"%char]
  else if (n =? 12)%nat then [backslash; "f"%char]
  else if (n =? 13)%nat then [backslash; "r"%char]
  else if (n <? 32)%nat then
    [backslash; "u"%char; "0"%char; "0"%char; hex_digit (n / 16); hex_digit (n mod 16)]
  else [c].

Definition quote (s : string) : string :=
  str (dquote :: flat_map escape_char (chars s) ++ [dquote]).

Definition join (sep : string) (parts : list string) : string :=
  match parts with
  | [] => ""
  | p :: ps => foldl (fun acc x => acc ++ sep ++ x) p ps
  end.

(** Numbers are printed in a form that reads back to the same value. *)
Definition number_text (m e : Z) : string :=
  if (0 <=? e)%Z then pretty (m * 10 ^ e)%Z
  else pretty m ++ "e" ++ pretty e.

Fixpoint reference_stringify (v : JSON) : string :=
  match v with
  | JNull => "null"
  | JBool true => "true"
  | JBool false => "false"
  | JNum m e => number_text m e
  | JStr s => quote s
  | JArr items => "[" ++ join "," (map reference_stringify items) ++ "]"
  | JObj members =>
      "{" ++ join "," (map (fun kv => quote (fst kv) ++ ":" ++ reference_stringify (snd kv))
                           members) ++ "}"
  end.

End Json.

(** ** What the fuzzer sees of the outside world *)

Module Net.
Import Headers.

(** A thrown value: [err.name] and [err.message]. *)
Record JsError := { name : string; message : string }.

Definition is_abort (e : JsError) : bool := String.eqb (name e) "AbortError".

(** The JSON envelope of the forwarding proxy as its client reads it.
    A field that is absent ([undefined]) is [None]. *)
Record Summary := {
  error : option string;
  status : option Z;
  statusText : option string;
  headers : option HeaderMap;
  body : option string;
  isError : option bool;
}.

(** A [Response]: its status, its headers as [forEach] enumerates them,
    and what reading the body gives.  [resp_text] is the outcome of
    [text()].  [resp_json] is the outcome of [json()] read as the
    envelope of the proxy: the envelope, or the error thrown on the way
    (the body cannot be read, is not JSON, or is [null], whose members
    cannot be read). *)
Record Response := {
  resp_status : Z;
  resp_headers : list (string * string);
  resp_text : JsError + string;
  resp_json : JsError + Summary;
}.

Inductive FetchResult :=
| FetchThrows (e : JsError)
| FetchResponds (r : Response).

(** One run of the fuzzer against the world:
    - [fetched n]: what the [fetch] of request number [n] does;
    - [elapsed n]: the rounded milliseconds measured around request [n];
    - [aborted_at i]: the value of [controller.signal.aborted] when the
      loop tests it with [i] words of the wordlist already taken;
    - [settle_order i n]: for the batch that starts at index [i] and
      has [n] requests, the order in which its promises settle, as
      positions in the batch. *)
Record World := {
  fetched : nat -> FetchResult;
  elapsed : nat -> Z;
  aborted_at : nat -> bool;
  settle_order : nat -> nat -> list nat;
}.

(** Does anything request [n] awaits throw an [AbortError]? *)
Definition raises_abort (r : FetchResult) : bool :=
  match r with
  | FetchThrows e => is_abort e
  | FetchResponds resp =>
      match resp_text resp with inl e => is_abort e | inr _ => false end
      || match resp_json resp with inl e => is_abort e | inr _ => false end
  end.


(** Nobody presses Stop during the run. *)
Definition no_cancellation (w : World) : Prop :=
  (forall i, aborted_at w i = false) /\ (forall n, raises_abort (fetched w n) = false).

(** Every promise of every batch settles, each once. *)
Definition all_settle (w : World) : Prop :=
  forall i n, Permutation (settle_order w i n) (seq 0 n).

End Net.

(** ** The extended fuzzer *)

Module Fuzzer.
Import JsString Headers Json Net.

Record ReplacementMarker := { text : string; from : Z; to : Z }.

Record FuzzResult := {
  requestNum : nat;
  statusCode : string;
  contentLength : string;
  timeMs : Z;
  requestBody : string;
  responseBody : string;
  responseHeaders : HeaderMap;
  wordlistItem : string;
}.

Definition parseWordlist (wordlistText : string) : list string :=
  filter (fun line => (0 < String.length line)%nat)
         (map trim (split_lines wordlistText)).

Definition replaceTextInQuery (query : string) (marker : ReplacementMarker)
           (replacement : string) : string :=
  substring query 0 (from marker) ++ replacement ++ substring_from query (to marker).

Inductive Tab := TabConfig | TabResults.

(** The component state that [startFuzzing] and [sendSingleRequest]
    read: the values of the render in which Start was pressed. *)
Record Inputs := {
  url : string;
  headersRaw : string;
  rawBody : string;
  query : string;
  variables : string;
  useProxy : bool;
  proxyUrl : string;
  wordlistText : string;
  replacementMarker : option ReplacementMarker;
  threads : Z;
  delayMs : Z;
}.

(** The component state that the run writes. *)
Record View := {
  activeTab : Tab;
  isRunning : bool;
  results : list FuzzResult;
  progressCount : nat;
}.

Definition setIsRunning (b : bool) (v : View) : View :=
  {| activeTab := activeTab v; isRunning := b;
     results := results v; progressCount := progressCount v |}.

Definition setResults (rs : list FuzzResult) (v : View) : View :=
  {| activeTab := activeTab v; isRunning := isRunning v;
     results := rs; progressCount := progressCount v |}.

Definition setProgressCount (n : nat) (v : View) : View :=
  {| activeTab := activeTab v; isRunning := isRunning v;
     results := results v; progressCount := n |}.

Definition setActiveTab (t : Tab) (v : View) : View :=
  {| activeTab := t; isRunning := isRunning v;
     results := results v; progressCount := progressCount v |}.

(** A promise of [sendSingleRequest] once settled. *)
Inductive Settled :=
| Fulfilled (value : FuzzResult)
| Rejected (reason : JsError).

(** [n.toString()] for an integer. *)
Definition number_toString (n : Z) : string := pretty n.

Definition length_toString (s : string) : string := pretty (String.length s).

Section Platform.
(** [JSON.parse]: the value, or the message of the [SyntaxError]. *)
Variable JSON_parse : string -> string + JSON.
(** [JSON.stringify] *)
Variable JSON_stringify : JSON -> string.

(** The query of the request for one word: spliced when a marker is
    set. *)
Definition currentQuery (s : Inputs) (wordlistItem : string) : string :=
  match replacementMarker s with
  | Some marker => replaceTextInQuery (query s) marker wordlistItem
  | None => query s
  end.

(** [variables || '{}'] *)
Definition variablesText (s : Inputs) : string :=
  if String.eqb (variables s) "" then "{}" else variables s.

(** [requestBodyObj], or the [SyntaxError] of [JSON.parse]. *)
Definition requestBodyObj (s : Inputs) (wordlistItem : string) : JsError + JSON :=
  match JSON_parse (variablesText s) with
  | inl msg => inl {| name := "SyntaxError"; message := msg |}
  | inr vars => inr (JObj [("query", JStr (currentQuery s wordlistItem)); ("variables", vars)])
  end.

(** The argument of the one [fetch] of a request. *)
Record FetchCall := {
  call_url : string;
  call_method : string;
  call_headers : HeaderMap;
  call_body : string;
}.

(** The [fetch] that [sendSingleRequest] makes once the request body
    is built. *)
Definition fetchCall (s : Inputs) (requestBodyStr : string) : FetchCall :=
  let headers := mergeDefaultJsonContentType (parseRawHeaders (headersRaw s)) in
  if useProxy s then
    {| call_url := proxyUrl s;
       call_method := "POST";
       call_headers := {[ "Content-Type" := "application/json" ]};
       call_body :=
         JSON_stringify
           (JObj [("url", JStr (url s)); ("method", JStr "POST");
                  ("headers", object_of_map headers);
                  ("body", JStr requestBodyStr)]) |}
  else
    {| call_url := url s; call_method := "POST";
       call_headers := headers; call_body := requestBodyStr |}.

(** What a request puts on the network: nothing when building the
    body throws. *)
Definition requestOnWire (s : Inputs) (wordlistItem : string) : option FetchCall :=
  match requestBodyObj s wordlistItem with
  | inl _ => None
  | inr obj => Some (fetchCall s (JSON_stringify obj))
  end.

(** [response.headers.forEach((value, key) => { map[key] = value })] *)
Definition collectHeaders (hs : list (string * string)) : HeaderMap :=
  foldl (fun m kv => assign (fst kv) (snd kv) m) ∅ hs.

(** The [try] block of [sendSingleRequest]: the result it returns, or
    the value thrown inside it. *)
Definition trySend (s : Inputs) (w : World) (requestNum : nat) (wordlistItem : string)
  : JsError + FuzzResult :=
  match requestBodyObj s wordlistItem with
  | inl err => inl err
  | inr obj =>
      let requestBodyStr := JSON_stringify obj in
      let row statusCode contentLength responseBodyStr responseHeadersMap :=
        {| requestNum := requestNum;
           statusCode := statusCode;
           contentLength := contentLength;
           timeMs := elapsed w requestNum;
           requestBody := requestBodyStr;
           responseBody := responseBodyStr;
           responseHeaders := responseHeadersMap;
           wordlistItem := wordlistItem |} in
      match fetched w requestNum with
      | FetchThrows err => inl err
      | FetchResponds resp =>
          if useProxy s then
            match resp_json resp with
            | inl err => inl err
            | inr summary =>
                match error summary with
                | Some (String c e) =>
                    inr (row ("Proxy Error: " ++ String c e) "0" "" ∅)
                | _ =>
                    let statusCode :=
                      match status summary with
                      | Some n => number_toString n
                      | None => "Unknown"
                      end in
                    let responseBodyStr := default "" (body summary) in
                    let responseHeadersMap := default ∅ (headers summary) in
                    inr (row statusCode (length_toString responseBodyStr)
                             responseBodyStr responseHeadersMap)
                end
            end
          else
            match resp_text resp with
            | inl err => inl err
            | inr responseBodyStr =>
                inr (row (number_toString (resp_status resp))
                         (length_toString responseBodyStr)
                         responseBodyStr
                         (collectHeaders (resp_headers resp)))
            end
      end
  end.

(** [err.message || 'Unknown'] *)
Definition messageOrUnknown (err : JsError) : string :=
  if String.eqb (message err) "" then "Unknown" else message err.

(** The row that the [catch] block returns. *)
Definition errorRow (w : World) (requestNum : nat) (wordlistItem : string)
           (err : JsError) : FuzzResult :=
  {| requestNum := requestNum;
     statusCode := "Error: " ++ messageOrUnknown err;
     contentLength := "0";
     timeMs := elapsed w requestNum;
     requestBody := "";
     responseBody := "";
     responseHeaders := ∅;
     wordlistItem := wordlistItem |}.

Definition sendSingleRequest (s : Inputs) (w : World) (requestNum : nat)
           (wordlistItem : string) : Settled :=
  match trySend s w requestNum wordlistItem with
  | inr result => Fulfilled result
  | inl err =>
      if is_abort err then Rejected err
      else Fulfilled (errorRow w requestNum wordlistItem err)
  end.

(** What a run does that can be observed, in order. *)
Inductive Event :=
| Dispatch (batch : list (nat * string))   (* calls of [sendSingleRequest] *)
| Display (rows : list FuzzResult)         (* [setResults] *)
| Sleep (ms : Z).                          (* the configured delay *)

Record Run := { final : View; trace : list Event }.

Definition stop (v : View) : Run := {| final := v; trace := [] |}.

Definition emit (evs : list Event) (r : Run) : Run :=
  {| final := final r; trace := evs ++ trace r |}.

Definition sleepIf (cond : bool) (ms : Z) : list Event :=
  if cond then [Sleep ms] else [].

(** The [for (const word of wordlist)] loop of the sequential mode.
    [count] is [requestCountRef.current]; [total] is
    [wordlist.length]. *)
Fixpoint runSequential (s : Inputs) (w : World) (total : nat)
         (words : list string) (count : nat) (v : View) : Run :=
  match words with
  | [] => stop v
  | word :: rest =>
      if aborted_at w count then stop v
      else
        let n := S count in
        match sendSingleRequest s w n word with
        | Rejected _ =>
            (* the exception leaves the loop *)
            emit [Dispatch [(n, word)]] (stop v)
        | Fulfilled result =>
            let v' := setProgressCount (S (progressCount v))
                        (setResults (results v ++ [result]) v) in
            emit ([Dispatch [(n, word)]; Display (results v')]
                    ++ sleepIf ((0 <? delayMs s)%Z && (n <? total)%nat) (delayMs s))
                 (runSequential s w total rest n v')
        end
  end.

(** [Promise.allSettled(promises)]: a slot per promise, filled when
    the promise settles; the array is delivered once every slot is
    filled, in the order of the promises.  [order] is the order in
    which the promises settle; [None] when one never does. *)
Definition settleSlot (promises : list Settled) (slots : list (option Settled))
           (k : nat) : list (option Settled) :=
  match promises !! k with
  | Some p => <[k := Some p]> slots
  | None => slots
  end.

Definition allSettled (promises : list Settled) (order : list nat)
  : option (list Settled) :=
  mapM id (foldl (settleSlot promises) (replicate (length promises) None) order).

(** The body of [batchResults.forEach]. *)
Definition recordSettled (st : gmap nat FuzzResult * nat) (promiseResult : Settled)
  : gmap nat FuzzResult * nat :=
  match promiseResult with
  | Fulfilled result => (<[requestNum result := result]> (fst st), S (snd st))
  | Rejected _ => st
  end.

(** [for (let j = 1; j <= processedCount; j++)] collecting the rows
    that [resultMap] has. *)
Definition orderedResults (resultMap : gmap nat FuzzResult) (processedCount : nat)
  : list FuzzResult :=
  omap (fun j => resultMap !! j) (seq 1 processedCount).

(** The requests of the batch that starts at index [i]. *)
Definition batchRequests (i : nat) (batch : list string) : list (nat * string) :=
  imap (fun batchIndex word => (i + batchIndex + 1, word)) batch.

(** The [for (let i = 0; i < wordlist.length; i += threads)] loop of
    the concurrent mode.  [None]: the loop does not come to an end
    (a promise never settles, or [i] does not advance). *)
Fixpoint runConcurrent (fuel : nat) (s : Inputs) (w : World) (wordlist : list string)
         (nthreads : nat) (i : nat) (resultMap : gmap nat FuzzResult)
         (processedCount : nat) (v : View) : option Run :=
  match fuel with
  | O => None
  | S fuel' =>
      if (length wordlist <=? i)%nat then Some (stop v)
      else if aborted_at w i then Some (stop v)
      else
        let batch := take nthreads (drop i wordlist) in
        let requests := batchRequests i batch in
        let batchPromises :=
          map (fun r => sendSingleRequest s w (fst r) (snd r)) requests in
        match allSettled batchPromises (settle_order w i (length batch)) with
        | None => None
        | Some batchResults =>
            let st := foldl recordSettled (resultMap, processedCount) batchResults in
            let rows := orderedResults (fst st) (snd st) in
            let v' := setProgressCount (snd st) (setResults rows v) in
            option_map
              (emit ([Dispatch requests; Display rows]
                       ++ sleepIf ((0 <? delayMs s)%Z
                                   && (i + nthreads <? length wordlist)%nat)
                                  (delayMs s)))
              (runConcurrent fuel' s w wordlist nthreads (i + nthreads)
                             (fst st) (snd st) v')
        end
  end.

(** [startFuzzing]: the two guards, the reset of the view, one of the
    two loops inside [try], and the [finally] block. *)
Definition startFuzzing (s : Inputs) (w : World) (v : View) : option Run :=
  let wordlist := parseWordlist (wordlistText s) in
  if (length wordlist =? 0)%nat then Some (stop v)
  else
    match replacementMarker s with
    | None => Some (stop v)
    | Some _ =>
        let v0 := setActiveTab TabResults
                    (setProgressCount 0 (setResults [] (setIsRunning true v))) in
        let loop :=
          if (threads s =? 1)%Z
          then Some (runSequential s w (length wordlist) wordlist 0 v0)
          else runConcurrent (S (length wordlist)) s w wordlist
                             (Z.to_nat (threads s)) 0 ∅ 0 v0 in
        option_map
          (fun r => {| final := setIsRunning false (final r); trace := trace r |})
          loop
    end.

End Platform.

(** *** The thread and delay inputs *)

(** [parseInt(text)] without a radix: leading white space, a sign, a
    [0x] prefix for base 16, then the longest run of digits; [None] is
    [NaN].  The result is the exact integer: the rounding of a double
    beyond 2^53 and the overflow to [Infinity] are not modelled. *)
Definition digit_of (radix : nat) (c : ascii) : option nat :=
  match hex_value c with
  | Some d => if (d <? radix)%nat then Some d else None
  | None => None
  end.

Fixpoint parse_digits (radix : nat) (acc : option Z) (l : list ascii) : option Z :=
  match l with
  | c :: l' =>
      match digit_of radix c with
      | Some d => parse_digits radix (Some (Z.of_nat radix * default 0%Z acc + Z.of_nat d)%Z) l'
      | None => acc
      end
  | [] => acc
  end.

Definition parseInt (text : string) : option Z :=
  let l := trimStart_chars (chars text) in
  let '(negative, l1) :=
    match l with
    | c :: l' =>
        if Ascii.eqb c "-" then (true, l')
        else if Ascii.eqb c "+" then (false, l')
        else (false, l)
    | [] => (false, l)
    end in
  let '(radix, l2) :=
    match l1 with
    | z :: x :: l' =>
        if Ascii.eqb z "0" && (Ascii.eqb x "x" || Ascii.eqb x "X")
        then (16, l') else (10, l1)
    | _ => (10, l1)
    end in
  option_map (fun n => if negative then (- n)%Z else n) (parse_digits radix None l2).

(** [n || d] for a number: [NaN] and zero are falsy. *)
Definition number_or (n : option Z) (d : Z) : Z :=
  match n with
  | Some v => if (v =? 0)%Z then d else v
  | None => d
  end.

(** The state of the two inputs, [useState(1)] and [useState(0)]. *)
Record Performance := { perf_threads : Z; perf_delayMs : Z }.

Definition initialPerformance : Performance :=
  {| perf_threads := 1; perf_delayMs := 0 |}.

Inductive PerformanceEvent :=
| ThreadsChanged (value : string)   (* [onChange] of the threads input *)
| DelayChanged (value : string).    (* [onChange] of the delay input *)

Definition onChange (p : Performance) (e : PerformanceEvent) : Performance :=
  match e with
  | ThreadsChanged value =>
      {| perf_threads := Z.max 1 (Z.min 50 (number_or (parseInt value) 1));
         perf_delayMs := perf_delayMs p |}
  | DelayChanged value =>
      {| perf_threads := perf_threads p;
         perf_delayMs := Z.max 0 (number_or (parseInt value) 0) |}
  end.

Definition afterEvents (es : list PerformanceEvent) : Performance :=
  foldl onChange initialPerformance es.

End Fuzzer.

(** ** The forwarding proxy *)

Module Proxy.
Import JsString Headers Json Net.

(** A value of [res.headers]: a string, an array of strings, or
    [undefined]. *)
Inductive HeaderValue :=
| HvOne (v : string)
| HvMany (vs : list string)
| HvUndefined.

(** What the target answered. *)
Record UpstreamResponse := {
  up_statusCode : option Z;
  up_statusMessage : option string;
  up_headers : list (string * HeaderValue);
  up_text : string;
}.

(** What happens to the forwarded call: [new URL] or the transport
    throws, the target answers, or nothing comes back. *)
Inductive Upstream :=
| UpstreamFails (e : JsError)
| UpstreamAnswers (r : UpstreamResponse)
| UpstreamSilent.

Record ForwardArgs := {
  targetUrl : JSON;
  method : JSON;
  fwd_headers : JSON;
  fwd_body : option string;
}.

(** The request the proxy receives; [in_body] is what [readBody]
    gives. *)
Record Incoming := {
  in_method : string;
  in_url : string;
  in_body : JsError + string;
}.

(** The response the proxy writes: [res.statusCode], the
    [Content-Type] it sets, and the value whose serialization is the
    body ([None]: [res.end()] without a body). *)
Record Reply := {
  reply_status : Z;
  reply_contentType : option string;
  reply_payload : option JSON;
}.

(** The request passes the method and path guards of the handler. *)
Definition is_forward (req : Incoming) : Prop :=
  in_method req = "POST" /\ in_url req = "/forward".

Definition jsonReply (code : Z) (payload : JSON) : Reply :=
  {| reply_status := code;
     reply_contentType := Some "application/json";
     reply_payload := Some payload |}.

Definition throw {A} (nm msg : string) : JsError + A :=
  inl {| name := nm; message := msg |}.

Definition bind {A B} (m : JsError + A) (f : A -> JsError + B) : JsError + B :=
  match m with
  | inl e => inl e
  | inr a => f a
  end.

#[local] Notation "'letE' x := m 'in' k" := (bind m (fun x => k))
  (at level 10, x name, m at level 100, k at level 200).

(** [payload.k]: reading a property of [null] throws. *)
Definition prop (v : JSON) (k : string) : JsError + option JSON :=
  match v with
  | JNull => throw "TypeError" ("Cannot read properties of null (reading '" ++ k ++ "')")
  | JObj members => inr (field k members)
  | _ => inr None
  end.

(** [headers[k]] for the value of [payload.headers || {}], which is
    never [null]. *)
Definition header_prop (headers : JSON) (k : string) : option JSON :=
  match headers with
  | JObj members => field k members
  | _ => None
  end.

Definition is_falsy (v : option JSON) : bool :=
  match v with
  | Some x => negb (truthy x)
  | None => true
  end.

(** [headers[k] = v] in a module, which is strict code: on an object
    the member is set, on an array the value keeps its items, on a
    string, number or boolean the assignment throws. *)
Definition header_set (headers : JSON) (k : string) (v : JSON) : JsError + JSON :=
  match headers with
  | JObj members =>
      inr (JObj (filter (fun kv => fst kv <> k) members ++ [(k, v)]))
  | JArr _ => inr headers
  | _ => throw "TypeError" ("Cannot create property '" ++ k ++ "'")
  end.

(** [Buffer.byteLength(s)]: the length in UTF-8. *)
Definition byteLength (s : string) : Z :=
  Z.of_nat (list_sum (map (fun c => if (code c <? 128)%nat then 1 else 2) (chars s))).

(** [String(e?.message || e)] *)
Definition errorText (e : JsError) : string :=
  if String.eqb (message e) "" then name e else message e.

(** [headersOut]: joined arrays, strings as they are, [undefined]
    left out. *)
Definition flattenHeaders (hs : list (string * HeaderValue)) : HeaderMap :=
  foldl
    (fun out kv =>
       match snd kv with
       | HvMany vs => assign (fst kv) (join ", " vs) out
       | HvOne v => assign (fst kv) v out
       | HvUndefined => out
       end)
    ∅ hs.

Definition status_of (r : UpstreamResponse) : Z := Fuzzer.number_or (up_statusCode r) 0.

Section Server.
Variable JSON_parse : string -> string + JSON.
Variable JSON_stringify : JSON -> string.
(** The network behind the proxy. *)
Variable upstream : ForwardArgs -> Upstream.

(** [payload], [targetUrl], [method] and [headers] of the handler. *)
Definition readPayload (req : Incoming) : JsError + (JSON * JSON * JSON * JSON) :=
  letE raw := in_body req in
  letE payload := match JSON_parse (if String.eqb raw "" then "{}" else raw) with
             | inl msg => throw "SyntaxError" msg
             | inr v => inr v
             end in
  letE u := prop payload "url" in
  letE t := prop payload "targetUrl" in
  let target := or_else u t in
  if is_falsy target then throw "Error" "Missing url"
  else
    letE m := prop payload "method" in
    letE h := prop payload "headers" in
    inr (payload,
         default JNull target,
         default (JStr "POST") (or_else m (Some (JStr "POST"))),
         default (JObj []) (or_else h (Some (JObj [])))).

(** *** [server/proxy.mjs] *)

(** The value that [forward] resolves with. *)
Definition envelope (r : UpstreamResponse) : JSON :=
  JObj [("status", JNum (status_of r) 0);
        ("statusText", JStr (default "" (up_statusMessage r)));
        ("headers", object_of_map (flattenHeaders (up_headers r)));
        ("body", JStr (up_text r))].

(** [outBody] and the headers after the two defaults for a body that
    is not a string. *)
Definition prepareBody (payload headers : JSON) : JsError + (JSON * option string) :=
  letE body := prop payload "body" in
  match body with
  | Some (JStr b) => inr (headers, Some b)
  | Some v =>
      let outBody := JSON_stringify v in
      letE h1 := (if is_falsy (header_prop headers "content-length")
                && is_falsy (header_prop headers "Content-Length")
             then header_set headers "Content-Length" (JNum (byteLength outBody) 0)
             else inr headers) in
      letE h2 := (if is_falsy (header_prop h1 "content-type")
                && is_falsy (header_prop h1 "Content-Type")
             then header_set h1 "Content-Type" (JStr "application/json")
             else inr h1) in
      inr (h2, Some outBody)
  | None => inr (headers, None)
  end.

(** The [try] block of the handler: the arguments given to
    [forward]. *)
Definition forwardArgs (req : Incoming) : JsError + ForwardArgs :=
  letE p := readPayload req in
  let '(payload, target, m, headers) := p in
  letE hb := prepareBody payload headers in
  inr {| targetUrl := target; method := m;
         fwd_headers := fst hb; fwd_body := snd hb |}.

(** The handler after [sendCors]; [None] when no response is ever
    written. *)
Definition handler (req : Incoming) : option Reply :=
  if String.eqb (in_method req) "OPTIONS" then
    Some {| reply_status := 204; reply_contentType := None; reply_payload := None |}
  else if negb (String.eqb (in_method req) "POST") then
    Some (jsonReply 405 (JObj [("error", JStr "Method Not Allowed")]))
  else if negb (String.eqb (in_url req) "/forward") then
    Some (jsonReply 404 (JObj [("error", JStr "Not Found")]))
  else
    match forwardArgs req with
    | inl e => Some (jsonReply 500 (JObj [("error", JStr (errorText e))]))
    | inr args =>
        match upstream args with
        | UpstreamFails e => Some (jsonReply 500 (JObj [("error", JStr (errorText e))]))
        | UpstreamAnswers r => Some (jsonReply 200 (envelope r))
        | UpstreamSilent => None
        end
    end.


(** *** The proxy with request tracing and a timeout

    The repository holds a second version of the proxy: it logs when
    [DEBUG] is set, gives up on a silent target after [timeout]
    milliseconds, and marks every envelope with [isError]. *)

Definition defaultTimeout : Z := 30000.

(** [{ ...headers || {} }]: the own enumerable properties of the
    value. *)
Definition spread (v : JSON) : JSON :=
  match v with
  | JObj members => JObj members
  | JArr items => JObj (imap (fun i x => (pretty i, x)) items)
  | JStr s => JObj (imap (fun i c => (pretty i, JStr (str [c]))) (chars s))
  | _ => JObj []
  end.

Definition traced_isError (st : Z) : bool := (st <? 200)%Z || (300 <=? st)%Z.

Definition traced_envelope (r : UpstreamResponse) : JSON :=
  JObj [("status", JNum (status_of r) 0);
        ("statusText", JStr (default "" (up_statusMessage r)));
        ("headers", object_of_map (flattenHeaders (up_headers r)));
        ("body", JStr (up_text r));
        ("isError", JBool (traced_isError (status_of r)))].

Definition traced_errorReply (e : JsError) : Reply :=
  jsonReply 500
    (JObj [("error", JStr (errorText e));
           ("isError", JBool true);
           ("status", JNum 0 0);
           ("statusText", JStr "Proxy Error");
           ("headers", JObj []);
           ("body", JStr "")]).

Definition traced_forwardArgs (req : Incoming) : JsError + ForwardArgs :=
  letE p := readPayload req in
  let '(payload, target, m, headers) := p in
  letE body := prop payload "body" in
  let outBody :=
    match body with
    | Some (JStr b) => Some b
    | Some v => Some (JSON_stringify v)
    | None => None
    end in
  inr {| targetUrl := target; method := m;
         fwd_headers := spread headers; fwd_body := outBody |}.

Definition timeoutError : JsError :=
  {| name := "Error";
     message := "Request timeout after " ++ pretty defaultTimeout ++ "ms" |}.

Definition traced_handler (req : Incoming) : option Reply :=
  if String.eqb (in_method req) "OPTIONS" then
    Some {| reply_status := 204; reply_contentType := None; reply_payload := None |}
  else if negb (String.eqb (in_method req) "POST") then
    Some (jsonReply 405 (JObj [("error", JStr "Method Not Allowed")]))
  else if negb (String.eqb (in_url req) "/forward") then
    Some (jsonReply 404 (JObj [("error", JStr "Not Found")]))
  else
    match traced_forwardArgs req with
    | inl e => Some (traced_errorReply e)
    | inr args =>
        match upstream args with
        | UpstreamFails e => Some (traced_errorReply e)
        | UpstreamAnswers r => Some (jsonReply 200 (traced_envelope r))
        | UpstreamSilent => Some (traced_errorReply timeoutError)
        end
    end.

End Server.

End Proxy.

(** ** The request workbench: how [onSend] builds its body *)

Module Workbench.
Import Json.

Section Platform.
Variable JSON_parse : string -> string + JSON.

(** [safeJsonParse]: [undefined] when [JSON.parse] throws. *)
Definition safeJsonParse (text : string) : option JSON :=
  match JSON_parse text with
  | inr v => Some v
  | inl _ => None
  end.

(** The [body] that [onSend] sends. *)
Definition sendBody (query variables : string) : JSON :=
  JObj [("query", JStr query);
        ("variables", default (JObj []) (safeJsonParse variables))].
End Platform.

End Workbench.

(** ** Specification-side definitions *)

Module Spec.
Import Headers.

(** The value of the last line of [lines] that assigns the header
    [k]. *)
Fixpoint lastOccurrence (k : string) (lines : list string) : option string :=
  match lines with
  | [] => None
  | line :: rest =>
      match lastOccurrence k rest with
      | Some v => Some v
      | None =>
          match parseHeaderLine line with
          | Some (k', v) => if decide (k' = k) then Some v else None
          | None => None
          end
      end
  end.

Import Json Net Fuzzer.

(** The batches a trace dispatches, and the row lists it displays. *)
Definition dispatches (t : list Event) : list (list (nat * string)) :=
  omap (fun e => match e with Dispatch b => Some b | _ => None end) t.

Definition displays (t : list Event) : list (list FuzzResult) :=
  omap (fun e => match e with Display rows => Some rows | _ => None end) t.

(** What a finished run leaves on the screen: [isRunning], and number,
    word and status of every row. *)
Definition summary_of (r : Run) : bool * list (nat * string * string) :=
  (isRunning (final r),
   map (fun x => (requestNum x, wordlistItem x, statusCode x)) (results (final r))).

(** The requests of a whole wordlist: word [j] (from 0) has number
    [j + 1]. *)
Definition allRequests (wordlist : list string) : list (nat * string) :=
  batchRequests 0 wordlist.

Section Platform.
Variable JSON_parse : string -> string + JSON.
Variable JSON_stringify : JSON -> string.

(** The row of a request whose promise is fulfilled. *)
Definition resultOf (s : Inputs) (w : World) (q : nat * string) : FuzzResult :=
  match sendSingleRequest JSON_parse JSON_stringify s w (fst q) (snd q) with
  | Fulfilled r => r
  | Rejected e => errorRow w (fst q) (snd q) e
  end.

(** The rows of the first [k] requests of the wordlist, in order. *)
Definition rowsUpTo (s : Inputs) (w : World) (wordlist : list string) (k : nat)
  : list FuzzResult :=
  map (resultOf s w) (take k (allRequests wordlist)).

(** The map holds exactly the rows of the first [c] requests. *)
Definition holds_first (s : Inputs) (w : World) (ws : list string)
           (c : nat) (m : gmap nat FuzzResult) : Prop :=
  forall j, m !! S j = if decide (j < c) then resultOf s w <$> allRequests ws !! j
                       else None.


(** The state of the concurrent loop at the head of the batch that
    starts at index [i]: the signal is not aborted, the batch will
    settle, and [resultMap], [processedCount] and the rows on display
    are what earlier batches left. *)
Definition at_batch (w : World) (ws : list string) (nthreads i : nat)
           (m : gmap nat FuzzResult) (pc : nat) (v : View) : Prop :=
  1 <= nthreads
  /\ i < length ws
  /\ aborted_at w i = false
  /\ Permutation (settle_order w i (length (take nthreads (drop i ws))))
                 (seq 0 (length (take nthreads (drop i ws))))
  /\ pc <= i
  /\ (forall j r, m !! j = Some r -> j <= i /\ requestNum r = j)
  /\ results v = orderedResults m pc.
End Platform.

End Spec.

(** ** Sample inputs *)

Module Samples.
Import Json Net Fuzzer Proxy.

Definition LF : string := String "010" "".

Definition sample_headers : string :=
  "POST /graphql HTTP/1.1" ++ LF ++ "X-Token: one" ++ LF ++
  "Content-Length: 12" ++ LF ++ ": orphan" ++ LF ++ "X-Token: two".

Definition users_marker : ReplacementMarker :=
  {| text := "users"; from := 2; to := 7 |}.

Definition mkInputs (vars : string) (proxy : bool) (nthreads : Z) (words : string) : Inputs :=
  {| url := "https://target.tld/graphql";
     headersRaw := "Authorization: Bearer t";
     rawBody := "";
     query := "{ users { id } }";
     variables := vars;
     useProxy := proxy;
     proxyUrl := "http://localhost:8787/forward";
     wordlistText := words;
     replacementMarker := Some users_marker;
     threads := nthreads;
     delayMs := 0 |}.

Definition five_words : string :=
  "adminUsers" ++ LF ++ "systemConfig" ++ LF ++ "posts" ++ LF ++ "flags" ++ LF ++ "debugInfo".

Definition no_summary : Summary :=
  {| error := None; status := None; statusText := None;
     headers := None; body := None; isError := None |}.

Definition ok_summary : Summary :=
  {| error := None; status := Some 200%Z; statusText := Some "OK";
     headers := Some {[ "content-type" := "application/json" ]};
     body := Some "{}"; isError := Some false |}.

Definition refused_summary : Summary :=
  {| error := Some "Connection refused"; status := None; statusText := None;
     headers := None; body := None; isError := None |}.

(** A response whose body is [text] and reads as [summary]. *)
Definition response (code : Z) (t : string) (summary : Summary) : Response :=
  {| resp_status := code;
     resp_headers := [("content-type", "application/json")];
     resp_text := inr t;
     resp_json := inr summary |}.

Definition mkWorld (net : nat -> FetchResult) (stopped : nat -> bool) : World :=
  {| fetched := net;
     elapsed := fun _ => 5%Z;
     aborted_at := stopped;
     settle_order := fun _ n => rev (seq 0 n) |}.

Definition calm_world : World :=
  mkWorld (fun _ => FetchResponds (response 200 "{}" ok_summary)) (fun _ => false).

Definition refusing_world : World :=
  mkWorld (fun _ => FetchResponds (response 500 "" refused_summary)) (fun _ => false).

Definition network_error : JsError :=
  {| name := "TypeError"; message := "Failed to fetch" |}.

Definition abort_error : JsError :=
  {| name := "AbortError"; message := "The operation was aborted." |}.

(** Request 2 fails on the network. *)
Definition flaky_world : World :=
  mkWorld (fun n => if (n =? 2)%nat then FetchThrows network_error
                    else FetchResponds (response 200 "{}" ok_summary))
          (fun _ => false).

(** Stop is pressed while request 3 is in flight. *)
Definition stopped_world : World :=
  mkWorld (fun n => if (3 <=? n)%nat then FetchThrows abort_error
                    else FetchResponds (response 200 "{}" ok_summary))
          (fun i => (3 <=? i)%nat).

Definition idle_view : View :=
  {| activeTab := TabConfig; isRunning := false; results := []; progressCount := 0 |}.

(** A request to the proxy: forward a query to the target. *)
Definition forward_request : Incoming :=
  {| in_method := "POST";
     in_url := "/forward";
     in_body :=
       inr (reference_stringify
              (JObj [("url", JStr "http://target.tld/graphql");
                     ("method", JStr "POST");
                     ("headers", JObj [("Authorization", JStr "Bearer t")]);
                     ("body", JStr "{}")])) |}.

Definition not_found : UpstreamResponse :=
  {| up_statusCode := Some 404%Z;
     up_statusMessage := Some "Not Found";
     up_headers := [("content-type", HvOne "text/plain");
                    ("set-cookie", HvMany ["a=1"; "b=2"])];
     up_text := "no such route" |}.

Definition connection_refused : JsError :=
  {| name := "Error"; message := "connect ECONNREFUSED 127.0.0.1:4000" |}.

Definition target_answers_404 (_ : ForwardArgs) : Upstream := UpstreamAnswers not_found.
Definition target_refuses (_ : ForwardArgs) : Upstream := UpstreamFails connection_refused.

End Samples.

(** ** The marker and the expanded rows of the extended fuzzer *)

Module Marker.
Import JsString Fuzzer.

(** What the handlers read of the [EditorView]: the text of the
    document and the main selection, whose [from] is never after its
    [to]. *)
Record EditorView := { doc : string; sel_from : Z; sel_to : Z }.

(** [view.state.doc.sliceString(from, to)]: the text between two
    offsets of the document. *)
Definition sliceString (d : string) (a b : Z) : string := slice d a b.

(** [selectedText], [selectionRange] and [replacementMarker]. *)
Record MarkerState := {
  selectedText : string;
  selectionRange : option (Z * Z);
  marked : option ReplacementMarker;
}.

Definition handleQuerySelection (view : EditorView) (st : MarkerState) : MarkerState :=
  let t := sliceString (doc view) (sel_from view) (sel_to view) in
  if String.eqb t "" then
    {| selectedText := ""; selectionRange := None; marked := marked st |}
  else
    {| selectedText := t;
       selectionRange := Some (sel_from view, sel_to view);
       marked := marked st |}.

Definition markForReplacement (st : MarkerState) : MarkerState :=
  match selectionRange st with
  | Some (a, b) =>
      if String.eqb (selectedText st) "" then st
      else {| selectedText := selectedText st;
              selectionRange := selectionRange st;
              marked := Some {| text := selectedText st; from := a; to := b |} |}
  | None => st
  end.

Definition clearMarker (st : MarkerState) : MarkerState :=
  {| selectedText := ""; selectionRange := None; marked := None |}.

(** [toggleRowExpansion] on [expandedRows]. *)
Definition toggleRowExpansion (requestNum : nat) (prev : gset nat) : gset nat :=
  if decide (requestNum ∈ prev) then prev ∖ {[ requestNum ]}
  else {[ requestNum ]} ∪ prev.

End Marker.

(** ** The session wordlist of the workbench *)

Module Harvest.
Import JsString Json Tokenizer.

(** Is the name of this member used again by a later member?  Then
    the parsed object has the later value under that name. *)
Definition shadowed (k : string) (rest : list (string * JSON)) : bool :=
  existsb (fun kv => String.eqb (fst kv) k) rest.

(** [extractWordsFromJson]: strings and the names of members, all the
    way down; numbers, booleans and [null] give nothing. *)
Fixpoint extractWordsFromJson (value : JSON) (set : gset string) : gset string :=
  match value with
  | JNull | JBool _ | JNum _ _ => set
  | JStr s => addWord set s
  | JArr items =>
      (fix items_go (vs : list JSON) (acc : gset string) : gset string :=
         match vs with
         | [] => acc
         | v :: rest => items_go rest (extractWordsFromJson v acc)
         end) items set
  | JObj members =>
      (fix members_go (ms : list (string * JSON)) (acc : gset string) : gset string :=
         match ms with
         | [] => acc
         | kv :: rest =>
             if shadowed (fst kv) rest then members_go rest acc
             else members_go rest (extractWordsFromJson (snd kv) (addWord acc (fst kv)))
         end) members set
  end.

(** The texts of a value: its strings and the names of its members, at
    any depth.  Of two members with one name the later one counts. *)
Inductive occurs (t : string) : JSON -> Prop :=
| occurs_string : occurs t (JStr t)
| occurs_item items v : v ∈ items -> occurs t v -> occurs t (JArr items)
| occurs_name members v : field t members = Some v -> occurs t (JObj members)
| occurs_member members k v :
    field k members = Some v -> occurs t v -> occurs t (JObj members).

(** The body of [reader.onload] in [onImportWordlist]. *)
Definition onImportWordlist (wordSet : gset string) (text : string) : gset string :=
  foldl addWord wordSet
        (filter (fun w => nonempty w = true) (map trim (split_lines text))).

Definition onClearWordlist (wordSet : gset string) : gset string := ∅.

Section Graphql.
(** The names that [visit] meets in the document that [parse] reads
    from the query: operations, fields, arguments, fragments, fragment
    spreads and named types; [None] when [parse] throws. *)
Variable visitNames : string -> option (list string).

Definition extractWordsFromGraphQL (query : string) (set : gset string) : gset string :=
  match visitNames query with
  | Some names => foldl addWord set names
  | None => set
  end.
End Graphql.

End Harvest.

(** ** Predicates used to state further properties *)

Module Shape.
Import JsString Json Net Fuzzer.

(** A list starts well when it is empty or its first character is not
    white space. *)
Definition starts_well (l : list ascii) : Prop :=
  match l with
  | [] => True
  | c :: _ => is_space c = false
  end.

Definition colon : ascii := ":"%char.
Definition line_feed : ascii := "010"%char.

(** A string is trimmed when it has no white space at either end. *)
Definition trimmed (s : string) : Prop :=
  starts_well (chars s) /\ starts_well (rev (chars s)).

(** A set of words without the empty word in which every word is its
    own lower case. *)
Definition clean (set : gset string) : Prop :=
  forall x, x ∈ set -> x <> "" /\ toLowerCase x = x.

End Shape.

Module Observed.
Import Net Fuzzer.

(** The pauses of a trace, in milliseconds. *)
Definition sleeps (t : list Event) : list Z :=
  omap (fun e => match e with Sleep ms => Some ms | _ => None end) t.

(** Each list of rows extends the one before it. *)
Fixpoint growing (shown : list FuzzResult) (ds : list (list FuzzResult)) : Prop :=
  match ds with
  | [] => True
  | rows :: rest => shown `prefix_of` rows /\ growing rows rest
  end.

Section Platform.
Variable JSON_parse : string -> string + Json.JSON.
Variable JSON_stringify : Json.JSON -> string.

(** The row is what the request with its number returned for the word
    at that place of the wordlist. *)
Definition answers (s : Inputs) (w : World) (ws : list string) (row : FuzzResult) : Prop :=
  exists j word,
    requestNum row = S j
    /\ ws !! j = Some word
    /\ sendSingleRequest JSON_parse JSON_stringify s w (S j) word = Fulfilled row.

(** Rows in ascending order of their numbers, each the answer to its
    own request. *)
Definition well_numbered (s : Inputs) (w : World) (ws : list string)
           (rows : list FuzzResult) : Prop :=
  StronglySorted lt (map requestNum rows) /\ Forall (answers s w ws) rows.

(** What [resultMap] holds when [i] words have been taken. *)
Definition harvested (s : Inputs) (w : World) (ws : list string) (i : nat)
           (m : gmap nat FuzzResult) : Prop :=
  forall j row, m !! j = Some row -> j <= i /\ requestNum row = j /\ answers s w ws row.
End Platform.

End Observed.

Module Scenarios.
Import Json Net Fuzzer Proxy Samples.

(** Five words, two threads, a quarter of a second between batches. *)
Definition paced_inputs : Inputs :=
  {| url := "https://target.tld/graphql";
     headersRaw := "Authorization: Bearer t";
     rawBody := "";
     query := "{ users { id } }";
     variables := "";
     useProxy := false;
     proxyUrl := "http://localhost:8787/forward";
     wordlistText := five_words;
     replacementMarker := Some users_marker;
     threads := 2;
     delayMs := 250 |}.

End Scenarios.

Module Replies.
Import Json Net Proxy.

(** The replies a client of the proxy can tell apart: no content, or a
    JSON object that has a member [error] exactly when the status is
    not 200. *)
Definition well_replied (reply : Reply) : Prop :=
  reply = {| reply_status := 204; reply_contentType := None; reply_payload := None |}
  \/ exists code ms,
      reply = jsonReply code (JObj ms)
      /\ code ∈ [200; 404; 405; 500]%Z
      /\ (is_Some (field "error" ms) <-> code <> 200%Z).

(** The value is not a string. *)
Definition not_string (v : JSON) : Prop :=
  match v with JStr _ => False | _ => True end.

(** What one header of the target becomes in the envelope. *)
Definition flattened (hv : HeaderValue) : option string :=
  match hv with
  | HvOne v => Some v
  | HvMany vs => Some (join ", " vs)
  | HvUndefined => None
  end.

End Replies.

Module Sender.
Import JsString Headers Json Net Tokenizer Harvest Fuzzer.

(** The state of the page that [onSend] writes.  Of the headers on
    display the embedding keeps the entries; in the proxy branch their
    order is that of the map of the envelope. *)
Record Page := {
  sending : bool;
  respStatus : string;
  respHeaders : list (string * string);
  respBody : string;
  wordSet : gset string;
}.

(** [`${summary.status}`]: a number in decimal, [undefined] by its
    name. *)
Definition status_template (st : option Z) : string :=
  match st with
  | Some n => number_toString n
  | None => "undefined"
  end.

(** The status line for an envelope of the proxy. *)
Definition envelopeStatus (summary : Summary) : string :=
  let line := status_template (status summary) ++ " "
              ++ default "" (statusText summary) in
  match isError summary with
  | Some true => trim ("Error: " ++ line)
  | _ => trim line
  end.

Section Platform.
Variable JSON_parse : string -> string + JSON.
(** [JSON.stringify(v)] and [JSON.stringify(v, null, 2)] *)
Variable JSON_stringify : JSON -> string.
Variable JSON_stringify_indented : JSON -> string.
(** The names that [visit] meets in the parsed query, as in
    [Harvest.extractWordsFromGraphQL]. *)
Variable visitNames : string -> option (list string).

(** The argument of the [fetch] of [onSend]: with the proxy the body
    of the request travels as an object inside the document. *)
Definition sendCall (s : Inputs) : FetchCall :=
  let headers := mergeDefaultJsonContentType (parseRawHeaders (headersRaw s)) in
  let body := Workbench.sendBody JSON_parse (query s) (variables s) in
  if useProxy s then
    {| call_url := proxyUrl s;
       call_method := "POST";
       call_headers := {[ "Content-Type" := "application/json" ]};
       call_body :=
         JSON_stringify
           (JObj [("url", JStr (url s)); ("method", JStr "POST");
                  ("headers", object_of_map headers);
                  ("body", body)]) |}
  else
    {| call_url := url s; call_method := "POST";
       call_headers := headers; call_body := JSON_stringify body |}.

(** [bodyOut] and [asJson] for the text of a response. *)
Definition shownBody (text : string) : string * option JSON :=
  match Workbench.safeJsonParse JSON_parse text with
  | Some asJson => (JSON_stringify_indented asJson, Some asJson)
  | None => (text, None)
  end.

(** The words of the request and of the response, added to a copy of
    the word set. *)
Definition harvest (s : Inputs) (asJson : option JSON) (words : gset string)
  : gset string :=
  let next := extractWordsFromGraphQL visitNames (query s) words in
  let next := extractWordsFromJson
                (default (JObj []) (Workbench.safeJsonParse JSON_parse (variables s)))
                next in
  match asJson with
  | Some v => extractWordsFromJson v next
  | None => next
  end.

(** The [catch] block. *)
Definition failed (err : JsError) (st : Page) : Page :=
  {| sending := sending st;
     respStatus := "Request failed";
     respHeaders := respHeaders st;
     respBody := Proxy.errorText err;
     wordSet := wordSet st |}.

(** [onSend]: the resets, the [try] block on what the [fetch] does
    ([statusText] is [res.statusText] of a direct response), and the
    [finally] block. *)
Definition onSend (s : Inputs) (net : FetchResult) (res_statusText : string)
           (st : Page) : Page :=
  let st0 := {| sending := true; respStatus := ""; respHeaders := [];
                respBody := ""; wordSet := wordSet st |} in
  let st1 :=
    match net with
    | FetchThrows err => failed err st0
    | FetchResponds resp =>
        if useProxy s then
          match resp_json resp with
          | inl err => failed err st0
          | inr summary =>
              match error summary with
              | Some (String c e) =>
                  {| sending := true;
                     respStatus := "Proxy Error: " ++ String c e;
                     respHeaders := [];
                     respBody := "";
                     wordSet := wordSet st0 |}
              | _ =>
                  let shown := shownBody (default "" (body summary)) in
                  {| sending := true;
                     respStatus := envelopeStatus summary;
                     respHeaders := map_to_list (default ∅ (headers summary));
                     respBody := fst shown;
                     wordSet := harvest s (snd shown) (wordSet st0) |}
              end
          end
        else
          let st2 := {| sending := true;
                        respStatus := number_toString (resp_status resp) ++ " "
                                      ++ res_statusText;
                        respHeaders := resp_headers resp;
                        respBody := "";
                        wordSet := wordSet st0 |} in
          match resp_text resp with
          | inl err => failed err st2
          | inr text =>
              let shown := shownBody text in
              {| sending := true;
                 respStatus := respStatus st2;
                 respHeaders := respHeaders st2;
                 respBody := fst shown;
                 wordSet := harvest s (snd shown) (wordSet st0) |}
          end
    end in
  {| sending := false;
     respStatus := respStatus st1;
     respHeaders := respHeaders st1;
     respBody := respBody st1;
     wordSet := wordSet st1 |}.

End Platform.

End Sender.

(** * Properties *)

(** ** Header parsing *)

Section HeaderProperties.
Import JsString Headers Spec Samples.

Lemma parseHeaderLine_key line k v :
  parseHeaderLine line = Some (k, v) ->
  k <> "" /\ toLowerCase k <> "content-length".
Proof.
  unfold parseHeaderLine.
  repeat (case_decide || case_match); try discriminate.
  intros [= <- <-]. done.
Qed.

Lemma assign_lookup key value (headers : HeaderMap) k :
  assign key value headers !! k =
    if decide (key = k /\ key <> "__proto__") then Some value else headers !! k.
Proof.
  unfold assign. destruct (decide (key = "__proto__")) as [Hp|Hp].
  - case_decide; naive_solver.
  - destruct (decide (key = k)) as [->|Hne].
    + rewrite lookup_insert_eq. case_decide; naive_solver.
    + rewrite lookup_insert_ne by done. case_decide; naive_solver.
Qed.

Lemma parseHeaderLines_lookup lines (acc : HeaderMap) k :
  k <> "__proto__" ->
  parseHeaderLines lines acc !! k =
    match lastOccurrence k lines with
    | Some v => Some v
    | None => acc !! k
    end.
Proof.
  intros Hk. revert acc. induction lines as [|line rest IH]; intros acc; simpl.
  - done.
  - unfold parseHeaderLines in *. rewrite IH.
    destruct (lastOccurrence k rest) as [v|]; [done|].
    unfold parseHeaderStep. destruct (parseHeaderLine line) as [[k' v']|]; [|done].
    rewrite assign_lookup. repeat case_decide; naive_solver.
Qed.

Lemma parseHeaderLines_proto lines (acc : HeaderMap) :
  parseHeaderLines lines acc !! "__proto__" = acc !! "__proto__".
Proof.
  revert acc. induction lines as [|line rest IH]; intros acc; simpl; [done|].
  unfold parseHeaderLines in *. rewrite IH.
  unfold parseHeaderStep. destruct (parseHeaderLine line) as [[k' v']|]; [|done].
  rewrite assign_lookup. case_decide; naive_solver.
Qed.

Lemma lastOccurrence_Some k lines v :
  lastOccurrence k lines = Some v ->
  exists line, line ∈ lines /\ parseHeaderLine line = Some (k, v).
Proof.
  induction lines as [|line rest IH]; simpl; [done|].
  destruct (lastOccurrence k rest) as [v'|] eqn:E.
  - intros [= ->]. destruct IH as (l & ? & ?); [done|]. exists l. split; [set_solver|done].
  - destruct (parseHeaderLine line) as [[k' v']|] eqn:P; [|done].
    case_decide; [|done]. intros [= ->]. subst. exists line. split; [set_solver|done].
Qed.

Lemma parseRawHeaders_lookup raw k :
  parseRawHeaders raw !! k =
    if decide (k = "__proto__") then None else lastOccurrence k (split_lines raw).
Proof.
  unfold parseRawHeaders. case_decide as Hk.
  - subst. by rewrite parseHeaderLines_proto.
  - rewrite parseHeaderLines_lookup by done.
    by destruct (lastOccurrence k (split_lines raw)).
Qed.

(** C6. The map that [parseRawHeaders] returns has no key whose lower
    case is [content-length] and no empty key, and the value of a key is
    the value of the last line that assigns it. *)
Theorem C6_parseRawHeaders_keys raw :
  (forall k, toLowerCase k = "content-length" -> parseRawHeaders raw !! k = None)
  /\ parseRawHeaders raw !! "" = None
  /\ (forall k, k <> "__proto__" ->
                parseRawHeaders raw !! k = lastOccurrence k (split_lines raw)).
Proof.
  assert (Hnone : forall k, (k = "" \/ toLowerCase k = "content-length") ->
                            parseRawHeaders raw !! k = None).
  { intros k Hk. rewrite parseRawHeaders_lookup. case_decide; [done|].
    destruct (lastOccurrence k (split_lines raw)) as [v|] eqn:E; [|done].
    apply lastOccurrence_Some in E as (line & _ & HP).
    apply parseHeaderLine_key in HP. naive_solver. }
  split_and!.
  - intros k Hk. apply Hnone. by right.
  - apply Hnone. by left.
  - intros k Hk. rewrite parseRawHeaders_lookup. by case_decide.
Qed.

Lemma C6_parseRawHeaders_keys_witness :
  parseRawHeaders sample_headers !! "Content-Length" = None
  /\ parseRawHeaders sample_headers !! "X-Token" = Some "two".
Proof.
  destruct (C6_parseRawHeaders_keys sample_headers) as (H1 & _ & H3).
  split.
  - apply H1. reflexivity.
  - rewrite H3; [reflexivity | discriminate].
Defined.

Example parseRawHeaders_sample :
  map_to_list (parseRawHeaders sample_headers) = [("X-Token", "two")].
Proof. vm_compute. reflexivity. Qed.

Example parseHeaderLine_samples :
  map parseHeaderLine
      ["  Host :  a.b  "; "get /x HTTP/1.1"; "Getter: 1"; "no colon"; " : v";
       "CONTENT-length: 3"; "a:b:c"; "OPTIONS: x"]
  = [Some ("Host", "a.b"); None; Some ("Getter", "1"); None; None;
     None; Some ("a", "b:c"); Some ("OPTIONS", "x")].
Proof. reflexivity. Qed.

Lemma findContentTypeKey_None (headers : HeaderMap) :
  findContentTypeKey headers = None <->
  (forall k, is_Some (headers !! k) -> toLowerCase k <> "content-type").
Proof.
  unfold findContentTypeKey. split.
  - intros Hnone k [v Hk] Hlow.
    apply elem_of_map_to_list in Hk.
    assert (Hin : In k (map fst (map_to_list headers))).
    { apply in_map_iff. exists (k, v). split; [done|]. by apply list_elem_of_In. }
    pose proof (find_none _ _ Hnone k Hin) as Hf.
    apply bool_decide_eq_false in Hf. done.
  - intros Hall. destruct (List.find _ _) as [k|] eqn:E; [|done].
    apply find_some in E as [Hin Hdec]. apply bool_decide_eq_true in Hdec.
    apply in_map_iff in Hin as ([k' v] & <- & Hin).
    apply list_elem_of_In, elem_of_map_to_list in Hin.
    exfalso. apply (Hall k'); [by exists v | done].
Qed.

Lemma findContentTypeKey_Some (headers : HeaderMap) ctKey :
  findContentTypeKey headers = Some ctKey ->
  is_Some (headers !! ctKey) /\ toLowerCase ctKey = "content-type" /\ ctKey <> "".
Proof.
  unfold findContentTypeKey. intros E.
  apply find_some in E as [Hin Hdec]. apply bool_decide_eq_true in Hdec.
  apply in_map_iff in Hin as ([k' v] & <- & Hin).
  apply list_elem_of_In, elem_of_map_to_list in Hin. simpl in *.
  split_and!; [by exists v | done |]. intros ->. discriminate.
Qed.

(** C7. On a map without a key whose lower case is [content-type],
    [mergeDefaultJsonContentType] adds the one entry [Content-Type:
    application/json] and leaves every entry of the map as it is; on a
    map that has such a key it returns the map itself. *)
Theorem C7_mergeDefaultJsonContentType_frame (headers : HeaderMap) :
  ((forall k, is_Some (headers !! k) -> toLowerCase k <> "content-type") ->
   headers !! "Content-Type" = None
   /\ mergeDefaultJsonContentType headers
      = <["Content-Type" := "application/json"]> headers
   /\ size (mergeDefaultJsonContentType headers) = S (size headers)
   /\ (forall k, k <> "Content-Type" ->
                 mergeDefaultJsonContentType headers !! k = headers !! k))
  /\ ((exists k, is_Some (headers !! k) /\ toLowerCase k = "content-type") ->
      mergeDefaultJsonContentType headers = headers).
Proof.
  split.
  - intros Hno.
    assert (Hfresh : headers !! "Content-Type" = None).
    { destruct (headers !! "Content-Type") as [v|] eqn:E; [|done].
      exfalso. apply (Hno "Content-Type"); [by rewrite E | reflexivity]. }
    assert (Hm : mergeDefaultJsonContentType headers
                 = <["Content-Type" := "application/json"]> headers).
    { unfold mergeDefaultJsonContentType.
      apply findContentTypeKey_None in Hno. rewrite Hno.
      unfold withDefaultJson. apply map_eq. intros k.
      rewrite lookup_union.
      destruct (decide (k = "Content-Type")) as [->|Hk].
      - by rewrite Hfresh, lookup_singleton_eq, lookup_insert_eq.
      - rewrite lookup_singleton_ne, lookup_insert_ne by done.
        by destruct (headers !! k). }
    split_and!; [done | done | |].
    + rewrite Hm. by apply map_size_insert_None.
    + intros k Hk. rewrite Hm. by rewrite lookup_insert_ne.
  - intros (k & Hk & Hlow). unfold mergeDefaultJsonContentType.
    destruct (findContentTypeKey headers) as [ctKey|] eqn:E.
    + apply findContentTypeKey_Some in E as (_ & _ & Hne). by case_decide.
    + exfalso. eapply findContentTypeKey_None in E; eauto.
Qed.

Lemma C7_mergeDefaultJsonContentType_frame_witness :
  mergeDefaultJsonContentType {[ "Authorization" := "Bearer t" ]}
  = <["Content-Type" := "application/json"]> {[ "Authorization" := "Bearer t" ]}
  /\ mergeDefaultJsonContentType {[ "CONTENT-TYPE" := "text/plain" ]}
     = {[ "CONTENT-TYPE" := "text/plain" ]}.
Proof.
  split.
  - apply (C7_mergeDefaultJsonContentType_frame {[ "Authorization" := "Bearer t" ]}).
    intros k [v Hk]. apply lookup_singleton_Some in Hk as [<- _]. discriminate.
  - apply (C7_mergeDefaultJsonContentType_frame {[ "CONTENT-TYPE" := "text/plain" ]}).
    exists "CONTENT-TYPE". split; [by rewrite lookup_singleton_eq | reflexivity].
Defined.

End HeaderProperties.

(** ** Session wordlist *)

Section TokenizerProperties.
Import JsString Tokenizer.

Example splitWordsTokenize_camel :
  splitWordsTokenize "getUserData" = ["get"; "user"; "data"].
Proof. reflexivity. Qed.

Example splitWordsTokenize_snake :
  splitWordsTokenize "user_profile" = ["user"; "profile"].
Proof. reflexivity. Qed.

Example splitWordsTokenize_mixed :
  splitWordsTokenize "__aBC-d9Xy  HTTPServer_" = ["a"; "bc"; "d9"; "xy"; "httpserver"].
Proof. reflexivity. Qed.

Lemma addWord_fold (x : string) (parts : list string) (acc : gset string) :
  x ∈ foldl (fun acc p => {[p]} ∪ acc) acc parts <-> x ∈ parts \/ x ∈ acc.
Proof.
  revert acc. induction parts as [|p parts IH]; intros acc; simpl.
  - set_solver.
  - rewrite IH. set_solver.
Qed.

Lemma addWord_elem (set : gset string) (w x : string) :
  w <> "" ->
  x ∈ addWord set w <-> x = toLowerCase w \/ x ∈ splitWordsTokenize w \/ x ∈ set.
Proof.
  intros Hw. unfold addWord.
  destruct (String.eqb_spec w ""); [done|].
  rewrite addWord_fold. set_solver.
Qed.

(** C8. Adding [getUserData] to the session wordlist puts [get],
    [user], [data] and [getuserdata] in the set; adding [user_profile]
    puts [user], [profile] and [user_profile] in it. *)
Theorem C8_addWord_tokens (set : gset string) :
  ("get" ∈ addWord set "getUserData"
   /\ "user" ∈ addWord set "getUserData"
   /\ "data" ∈ addWord set "getUserData"
   /\ "getuserdata" ∈ addWord set "getUserData")
  /\ ("user" ∈ addWord set "user_profile"
      /\ "profile" ∈ addWord set "user_profile"
      /\ "user_profile" ∈ addWord set "user_profile").
Proof.
  unfold addWord. simpl String.eqb. cbv iota.
  rewrite splitWordsTokenize_camel, splitWordsTokenize_snake. simpl foldl.
  change (toLowerCase "getUserData") with "getuserdata".
  change (toLowerCase "user_profile") with "user_profile".
  set_solver.
Qed.

(** On an empty wordlist these are all the words. *)
Example addWord_getUserData_exact :
  addWord ∅ "getUserData" = {[ "get"; "user"; "data"; "getuserdata" ]}.
Proof.
  unfold addWord. simpl String.eqb. cbv iota.
  rewrite splitWordsTokenize_camel. simpl foldl.
  change (toLowerCase "getUserData") with "getuserdata".
  set_solver.
Qed.

End TokenizerProperties.

(** ** The fuzzer: one request *)

Section RequestProperties.
Import JsString Headers Json Net Fuzzer Spec.

Variable JSON_parse : string -> string + JSON.
Variable JSON_stringify : JSON -> string.

#[local] Abbreviation sendSingleRequest := (sendSingleRequest JSON_parse JSON_stringify).
#[local] Abbreviation trySend := (trySend JSON_parse JSON_stringify).
#[local] Abbreviation requestBodyObj := (requestBodyObj JSON_parse).
#[local] Abbreviation requestOnWire := (requestOnWire JSON_parse JSON_stringify).

Lemma trySend_requestNum s w n word r :
  trySend s w n word = inr r -> requestNum r = n /\ wordlistItem r = word.
Proof.
  unfold trySend. intros H.
  repeat (case_match; try discriminate); simplify_eq; done.
Qed.

Lemma sendSingleRequest_fulfilled s w n word r :
  sendSingleRequest s w n word = Fulfilled r ->
  requestNum r = n /\ wordlistItem r = word.
Proof.
  unfold sendSingleRequest.
  destruct (trySend s w n word) as [e|r'] eqn:E.
  - destruct (is_abort e); [done|]. by intros [= <-].
  - intros [= <-]. eauto using trySend_requestNum.
Qed.

(** Only the network throws an [AbortError] inside the [try] block. *)
Lemma trySend_abort s w n word e :
  trySend s w n word = inl e -> is_abort e = true ->
  raises_abort (fetched w n) = true.
Proof.
  unfold trySend, requestBodyObj. intros H Ha.
  destruct (JSON_parse (variablesText s)) as [msg|vars].
  { by simplify_eq. }
  unfold raises_abort. destruct (fetched w n) as [e'|resp]; [by simplify_eq|].
  destruct (useProxy s).
  - destruct (resp_json resp) as [e'|summary] eqn:J.
    + simplify_eq. rewrite Ha. by rewrite orb_true_r.
    + repeat (case_match; try discriminate).
  - destruct (resp_text resp) as [e'|t] eqn:T; [|done].
    simplify_eq. by rewrite Ha.
Qed.

Lemma sendSingleRequest_rejected s w n word e :
  sendSingleRequest s w n word = Rejected e ->
  is_abort e = true /\ raises_abort (fetched w n) = true.
Proof.
  unfold sendSingleRequest.
  destruct (trySend s w n word) as [e'|r'] eqn:E; [|done].
  destruct (is_abort e') eqn:A; [|done].
  intros [= <-]. eauto using trySend_abort.
Qed.

Lemma sendSingleRequest_no_abort s w q :
  raises_abort (fetched w (fst q)) = false ->
  sendSingleRequest s w (fst q) (snd q) = Fulfilled (resultOf JSON_parse JSON_stringify s w q).
Proof.
  intros Hno. unfold resultOf.
  destruct (sendSingleRequest s w (fst q) (snd q)) as [r|e] eqn:E; [done|].
  apply sendSingleRequest_rejected in E as [_ E]. congruence.
Qed.

Lemma resultOf_requestNum s w q :
  requestNum (resultOf JSON_parse JSON_stringify s w q) = fst q.
Proof.
  unfold resultOf.
  destruct (sendSingleRequest s w (fst q) (snd q)) as [r|e] eqn:E; [|done].
  by apply sendSingleRequest_fulfilled in E as [? _].
Qed.


(** C9. When the proxy's answer has a non-empty [error], the row of the
    request has the status [Proxy Error: ] followed by that text, and
    the content length [0]. *)
Theorem C9_proxy_error_row s w n word obj resp summary e :
  useProxy s = true ->
  requestBodyObj s word = inr obj ->
  fetched w n = FetchResponds resp ->
  resp_json resp = inr summary ->
  error summary = Some e ->
  e <> "" ->
  exists r,
    sendSingleRequest s w n word = Fulfilled r
    /\ requestNum r = n
    /\ statusCode r = "Proxy Error: " ++ e
    /\ contentLength r = "0".
Proof.
  intros Hp Hobj Hf Hj He Hne.
  unfold sendSingleRequest, trySend. rewrite Hobj, Hf, Hp, Hj, He.
  destruct e as [|c e]; [done|].
  eexists. split; [reflexivity|]. done.
Qed.

(** When building the body throws, nothing is put on the network and
    the row is the one of the [catch] block. *)
Lemma sendSingleRequest_bad_variables s w n word msg :
  JSON_parse (variablesText s) = inl msg ->
  requestOnWire s word = None
  /\ sendSingleRequest s w n word
     = Fulfilled (errorRow w n word {| name := "SyntaxError"; message := msg |}).
Proof.
  intros Hparse. unfold Fuzzer.requestOnWire, sendSingleRequest, trySend, requestBodyObj.
  by rewrite Hparse.
Qed.

(** [onSend] of the workbench does recover: it sends an empty object. *)
Lemma sendBody_bad_variables q vars msg :
  JSON_parse vars = inl msg ->
  Workbench.sendBody JSON_parse q vars = JObj [("query", JStr q); ("variables", JObj [])].
Proof.
  intros Hparse. unfold Workbench.sendBody, Workbench.safeJsonParse. by rewrite Hparse.
Qed.

(** The fuzzer recovers only the empty text. *)
Lemma variablesText_empty s : variables s = "" -> variablesText s = "{}".
Proof. unfold variablesText. by intros ->. Qed.

End RequestProperties.

Section RequestExamples.
Import JsString Headers Json Net Fuzzer Spec Samples.

Lemma C9_proxy_error_row_witness :
  exists r,
    sendSingleRequest reference_parse reference_stringify
      (mkInputs "{}" true 1 five_words) refusing_world 1 "adminUsers" = Fulfilled r
    /\ requestNum r = 1
    /\ statusCode r = "Proxy Error: Connection refused"
    /\ contentLength r = "0".
Proof.
  eapply (C9_proxy_error_row reference_parse reference_stringify
            (mkInputs "{}" true 1 five_words) refusing_world 1 "adminUsers"
            _ _ refused_summary "Connection refused");
    [reflexivity | reflexivity | reflexivity | reflexivity | reflexivity | discriminate].
Defined.

(** C3, on the fuzzer.  With a variables text that does not parse, no
    request is put on the network and the row of the word is the error
    row of the [catch] block, with an empty request body: the text is not
    replaced by an empty object. *)
Theorem C3_malformed_variables_not_recovered :
  requestOnWire reference_parse reference_stringify
    (mkInputs "{oops" false 1 five_words) "adminUsers" = None
  /\ sendSingleRequest reference_parse reference_stringify
       (mkInputs "{oops" false 1 five_words) calm_world 1 "adminUsers"
     = Fulfilled {| requestNum := 1;
                    statusCode := "Error: Unexpected token in JSON";
                    contentLength := "0";
                    timeMs := 5;
                    requestBody := "";
                    responseBody := "";
                    responseHeaders := ∅;
                    wordlistItem := "adminUsers" |}.
Proof. split; reflexivity. Qed.

(** The same text in the workbench is sent with empty variables. *)
Example workbench_recovers_malformed_variables :
  Workbench.sendBody reference_parse "{ users { id } }" "{oops"
  = JObj [("query", JStr "{ users { id } }"); ("variables", JObj [])].
Proof. reflexivity. Qed.

End RequestExamples.

(** ** The fuzzer: batches *)

Section BatchProperties.
Import JsString Headers Json Net Fuzzer Spec.

Variable JSON_parse : string -> string + JSON.
Variable JSON_stringify : JSON -> string.

#[local] Abbreviation send := (sendSingleRequest JSON_parse JSON_stringify).
#[local] Abbreviation rowOf := (resultOf JSON_parse JSON_stringify).
#[local] Abbreviation holds_first := (holds_first JSON_parse JSON_stringify).

(** *** [Promise.allSettled] *)

Lemma settleSlot_length promises slots k :
  length (settleSlot promises slots k) = length slots.
Proof. unfold settleSlot. destruct (promises !! k); by rewrite ?length_insert. Qed.

Lemma settle_fold_length promises order slots :
  length (foldl (settleSlot promises) slots order) = length slots.
Proof.
  revert slots. induction order as [|k order IH]; intros slots; simpl; [done|].
  by rewrite IH, settleSlot_length.
Qed.

Lemma settle_fold_lookup promises order slots j :
  length slots = length promises ->
  foldl (settleSlot promises) slots order !! j =
    if decide (j ∈ order) then Some <$> promises !! j else slots !! j.
Proof.
  revert slots. induction order as [|k order IH]; intros slots Hlen; cbn [foldl].
  - rewrite decide_False; [done | set_solver].
  - rewrite IH by (by rewrite settleSlot_length).
    unfold settleSlot.
    destruct (decide (j ∈ order)) as [Hin|Hnin].
    + rewrite decide_True by set_solver. done.
    + destruct (decide (j = k)) as [->|Hne].
      * rewrite decide_True by set_solver.
        destruct (promises !! k) as [p|] eqn:E.
        -- rewrite list_lookup_insert_eq; [done|].
           apply lookup_lt_Some in E. lia.
        -- simpl. apply lookup_ge_None. apply lookup_ge_None in E. lia.
      * rewrite decide_False by set_solver.
        destruct (promises !! k); [|done].
        by rewrite list_lookup_insert_ne.
Qed.

(** When every promise settles, in whatever order, [allSettled]
    delivers the outcomes in the order of the promises. *)
Lemma allSettled_any_order promises order :
  Permutation order (seq 0 (length promises)) ->
  allSettled promises order = Some promises.
Proof.
  intros Hperm. unfold allSettled.
  assert (Hslots : foldl (settleSlot promises) (replicate (length promises) None) order
                   = Some <$> promises).
  { apply list_eq. intros j.
    rewrite settle_fold_lookup by (by rewrite length_replicate).
    rewrite list_lookup_fmap.
    destruct (decide (j ∈ order)) as [Hin|Hnin]; [done|].
    assert (length promises <= j) as Hge.
    { destruct (decide (j < length promises)) as [Hlt|]; [|lia].
      exfalso. apply Hnin. rewrite Hperm. apply elem_of_seq. lia. }
    rewrite (proj1 (lookup_replicate_None _ _ _) Hge).
    by rewrite (proj2 (lookup_ge_None _ _) Hge). }
  rewrite Hslots. by apply mapM_fmap_Some.
Qed.

(** *** The requests of a batch *)

Lemma allRequests_lookup (ws : list string) j :
  allRequests ws !! j = (fun word => (S j, word)) <$> ws !! j.
Proof.
  unfold allRequests, batchRequests. rewrite list_lookup_imap.
  destruct (ws !! j); simpl; [|done]. do 2 f_equal. lia.
Qed.

Lemma allRequests_length (ws : list string) : length (allRequests ws) = length ws.
Proof. unfold allRequests, batchRequests. by rewrite length_imap. Qed.

Lemma batchRequests_slice (ws : list string) i n :
  batchRequests i (take n (drop i ws)) = take n (drop i (allRequests ws)).
Proof.
  apply list_eq. intros j. unfold batchRequests at 1.
  rewrite list_lookup_imap.
  destruct (decide (j < n)) as [Hlt|Hge].
  - rewrite !lookup_take_lt, !lookup_drop, allRequests_lookup by done.
    destruct (ws !! (i + j)); simpl; [|done]. do 2 f_equal. lia.
  - by rewrite !lookup_take_ge by lia.
Qed.

Lemma allRequests_fst (ws : list string) c :
  map fst (take c (allRequests ws)) = seq 1 (min c (length ws)).
Proof.
  apply list_eq. intros j. rewrite list_lookup_fmap.
  destruct (decide (j < min c (length ws))) as [Hlt|Hge].
  - rewrite lookup_seq_lt, lookup_take_lt, allRequests_lookup by lia.
    destruct (lookup_lt_is_Some_2 ws j) as [word Hw]; [lia|]. by rewrite Hw.
  - rewrite lookup_seq_ge by lia.
    destruct (decide (j < c)).
    + rewrite lookup_take_lt, allRequests_lookup by done.
      rewrite (proj2 (lookup_ge_None ws j)) by lia. done.
    + by rewrite lookup_take_ge by lia.
Qed.


(** *** [resultMap] and the rows shown *)

Lemma orderedResults_exact (m : gmap nat FuzzResult) (rows : list FuzzResult) :
  (forall j, j < length rows -> m !! S j = rows !! j) ->
  orderedResults m (length rows) = rows.
Proof.
  unfold orderedResults. induction rows as [|row rows IH] using rev_ind; intros Hm.
  - done.
  - rewrite length_app. simpl. rewrite Nat.add_1_r, seq_S, omap_app. simpl.
    rewrite IH.
    + rewrite Hm by (rewrite length_app; simpl; lia).
      by rewrite lookup_app_r, Nat.sub_diag by lia.
    + intros j Hj. rewrite Hm by (rewrite length_app; simpl; lia).
      by rewrite lookup_app_l.
Qed.

Lemma holds_first_rows s w ws c m :
  c <= length ws ->
  holds_first s w ws c m ->
  orderedResults m c = rowsUpTo JSON_parse JSON_stringify s w ws c.
Proof.
  intros Hc Hm.
  assert (Hlen : length (rowsUpTo JSON_parse JSON_stringify s w ws c) = c).
  { unfold rowsUpTo. rewrite length_map, length_take, allRequests_length. lia. }
  rewrite <- Hlen at 1. apply orderedResults_exact.
  intros j Hj. rewrite Hlen in Hj. rewrite Hm, decide_True by done.
  unfold rowsUpTo. change (map (rowOf s w)) with (fmap (M:=list) (rowOf s w)).
  by rewrite list_lookup_fmap, lookup_take_lt.
Qed.

Lemma record_fulfilled_batch s w ws (qs : list (nat * string)) c m :
  (forall k, k < length qs -> allRequests ws !! (c + k) = qs !! k) ->
  holds_first s w ws c m ->
  exists m',
    foldl recordSettled (m, c) (map (fun q => Fulfilled (rowOf s w q)) qs)
    = (m', c + length qs)
    /\ holds_first s w ws (c + length qs) m'.
Proof.
  revert c m. induction qs as [|q qs IH]; intros c m Hqs Hm; simpl.
  - exists m. rewrite Nat.add_0_r. done.
  - pose proof (Hqs 0 ltac:(simpl; lia)) as Hq. rewrite Nat.add_0_r in Hq. simpl in Hq.
    assert (Hfst : fst q = S c).
    { rewrite allRequests_lookup in Hq. destruct (ws !! c); simplify_eq/=. done. }
    rewrite resultOf_requestNum, Hfst.
    destruct (IH (S c) (<[S c := rowOf s w q]> m)) as (m' & Hfold & Hm').
    + intros k Hk. specialize (Hqs (S k) ltac:(simpl; lia)). simpl in Hqs.
      rewrite <- Hqs. f_equal. lia.
    + intros j. destruct (decide (j = c)) as [->|Hne].
      * rewrite lookup_insert_eq, decide_True by lia. by rewrite Hq.
      * rewrite lookup_insert_ne by lia. rewrite Hm.
        repeat case_decide; try done; lia.
    + exists m'. replace (c + S (length qs)) with (S c + length qs) by lia. done.
Qed.


(** *** The concurrent loop when nobody cancels *)

Lemma dispatches_iteration requests rows cond ms (t : list Event) :
  dispatches ([Dispatch requests; Display rows] ++ sleepIf cond ms ++ t)
  = requests :: dispatches t.
Proof. unfold dispatches, sleepIf. by destruct cond. Qed.

Lemma dispatches_iteration_cons requests rows cond ms (t : list Event) :
  dispatches ((Dispatch requests :: Display rows :: sleepIf cond ms) ++ t)
  = requests :: dispatches t.
Proof. unfold dispatches, sleepIf. by destruct cond. Qed.

Lemma displays_iteration requests rows cond ms (t : list Event) :
  displays ([Dispatch requests; Display rows] ++ sleepIf cond ms ++ t)
  = rows :: displays t.
Proof. unfold displays, sleepIf. by destruct cond. Qed.

Lemma calm_batch s w (qs : list (nat * string)) :
  (forall n, raises_abort (fetched w n) = false) ->
  map (fun r => send s w (fst r) (snd r)) qs = map (fun q => Fulfilled (rowOf s w q)) qs.
Proof.
  intros Hno. apply map_ext. intros q.
  by apply sendSingleRequest_no_abort.
Qed.

Lemma runConcurrent_calm s w ws nthreads :
  1 <= nthreads ->
  no_cancellation w ->
  all_settle w ->
  forall fuel i m v,
    length ws - i < fuel ->
    holds_first s w ws (min i (length ws)) m ->
    exists r,
      runConcurrent JSON_parse JSON_stringify fuel s w ws nthreads i m
                    (min i (length ws)) v = Some r
      /\ (forall k b, dispatches (trace r) !! k = Some b ->
                      b = take nthreads (drop (i + k * nthreads) (allRequests ws))
                      /\ b <> [])
      /\ concat (dispatches (trace r)) = drop i (allRequests ws)
      /\ length (displays (trace r)) = length (dispatches (trace r))
      /\ (forall k rows, displays (trace r) !! k = Some rows ->
                         rows = rowsUpTo JSON_parse JSON_stringify s w ws
                                         (min (i + S k * nthreads) (length ws)))
      /\ (length ws <= i -> final r = v)
      /\ (i < length ws ->
          results (final r) = rowsUpTo JSON_parse JSON_stringify s w ws (length ws)
          /\ progressCount (final r) = length ws
          /\ isRunning (final r) = isRunning v
          /\ activeTab (final r) = activeTab v).
Proof.
  intros HN [Hnostop Hnoabort] Hsettle.
  induction fuel as [|fuel IH]; intros i m v Hfuel Hm; [lia|].
  cbn [runConcurrent].
  destruct (Nat.leb_spec (length ws) i) as [Hdone|Hlt].
  { exists (stop v). split; [done|]. simpl.
    split_and!; try done.
    - rewrite drop_ge; [done|]. by rewrite allRequests_length.
    - lia. }
  rewrite Hnostop.
  set (batch := take nthreads (drop i ws)).
  set (requests := batchRequests i batch).
  assert (Hreq : requests = take nthreads (drop i (allRequests ws))).
  { apply batchRequests_slice. }
  assert (Hblen : length batch = min nthreads (length ws - i)).
  { unfold batch. by rewrite length_take, length_drop. }
  assert (Hrlen : length requests = length batch).
  { unfold requests, batchRequests. by rewrite length_imap. }
  rewrite (calm_batch s w requests Hnoabort).
  rewrite allSettled_any_order; cycle 1.
  { rewrite length_map, Hrlen. apply Hsettle. }
  rewrite Nat.min_l in Hm |- * by lia.
  destruct (record_fulfilled_batch s w ws requests i m) as (m' & Hfold & Hm'); [|done|].
  { intros k Hk. rewrite Hreq. rewrite Hreq, length_take in Hk.
    by rewrite lookup_take_lt, lookup_drop by lia. }
  rewrite Hfold. cbn [fst snd].
  assert (Hnext : i + length requests = min (i + nthreads) (length ws)) by lia.
  assert (Hrows : orderedResults m' (i + length requests)
                  = rowsUpTo JSON_parse JSON_stringify s w ws (i + length requests)).
  { apply holds_first_rows; [lia | done]. }
  rewrite Hrows. rewrite Hnext in Hm' |- *.
  set (rows := rowsUpTo JSON_parse JSON_stringify s w ws (min (i + nthreads) (length ws))).
  set (v' := setProgressCount (min (i + nthreads) (length ws)) (setResults rows v)).
  destruct (IH (i + nthreads) m' v') as (r' & Hrun & D1 & D2 & D3 & D4 & D5 & D6);
    [lia | done |].
  rewrite Hrun. cbn [option_map]. eexists. split; [reflexivity|].
  unfold emit. cbn [trace final]. rewrite <- app_assoc.
  rewrite dispatches_iteration, displays_iteration.
  split_and!.
  - intros [|k] b Hb; simpl in Hb.
    + simplify_eq. rewrite Nat.add_0_r. split; [done|].
      intros Hnil. rewrite Hnil in Hrlen. simpl in Hrlen. lia.
    + apply D1 in Hb as [-> Hne]. split; [|done].
      do 2 f_equal. simpl. lia.
  - simpl. rewrite D2, Hreq, <- drop_drop. apply take_drop.
  - simpl. by rewrite D3.
  - intros [|k] rows0 Hr; simpl in Hr.
    + injection Hr as <-. subst rows. do 2 f_equal. lia.
    + apply D4 in Hr as ->. do 2 f_equal. simpl. lia.
  - lia.
  - intros _. destruct (decide (length ws <= i + nthreads)) as [Hlast|Hmore].
    + rewrite D5 by done. unfold v', rows. simpl.
      rewrite Nat.min_r by done. done.
    + destruct D6 as (? & ? & ? & ?); [lia|]. done.
Qed.


Lemma concat_take_chunks {A} (l : list A) (ds : list (list A)) n :
  (forall k b, ds !! k = Some b -> b = take n (drop (k * n) l)) ->
  forall j, j <= length ds -> concat (take j ds) = take (j * n) l.
Proof.
  intros Hds. induction j as [|j IH]; intros Hj.
  - by rewrite take_0.
  - destruct (lookup_lt_is_Some_2 ds j) as [b Hb]; [lia|].
    rewrite (take_S_r _ _ _ Hb), concat_app, IH by lia. simpl.
    rewrite app_nil_r, (Hds _ _ Hb), take_take_drop.
    f_equal. lia.
Qed.

Lemma rowsUpTo_requestNum s w ws c :
  map requestNum (rowsUpTo JSON_parse JSON_stringify s w ws c) = seq 1 (min c (length ws)).
Proof.
  unfold rowsUpTo. rewrite map_map.
  rewrite (map_ext _ fst) by (intros q; apply resultOf_requestNum).
  apply allRequests_fst.
Qed.

Lemma rowsUpTo_length s w ws c :
  length (rowsUpTo JSON_parse JSON_stringify s w ws c) = min c (length ws).
Proof.
  unfold rowsUpTo. by rewrite length_map, length_take, allRequests_length.
Qed.

(** C1. In the concurrent mode with N > 1 threads and a wordlist of
    L words, when nobody cancels and every request settles: the run
    dispatches the L requests 1..L, in consecutive batches of at most N;
    after every batch it shows exactly the rows of the requests dispatched
    so far, by ascending request number, whatever the order in which the
    requests of a batch settled. *)
Theorem C1_bounded_concurrency s w v :
  let ws := parseWordlist (wordlistText s) in
  let nthreads := Z.to_nat (threads s) in
  ws <> [] ->
  is_Some (replacementMarker s) ->
  (1 < threads s)%Z ->
  no_cancellation w ->
  all_settle w ->
  exists r,
    startFuzzing JSON_parse JSON_stringify s w v = Some r
    /\ concat (dispatches (trace r)) = allRequests ws
    /\ length (concat (dispatches (trace r))) = length ws
    /\ (forall k b, dispatches (trace r) !! k = Some b ->
                    b = take nthreads (drop (k * nthreads) (allRequests ws))
                    /\ 1 <= length b <= nthreads)
    /\ length (displays (trace r)) = length (dispatches (trace r))
    /\ (forall k rows, displays (trace r) !! k = Some rows ->
                       rows = map (rowOf s w) (concat (take (S k) (dispatches (trace r))))
                       /\ map requestNum rows = seq 1 (length rows))
    /\ (forall q, q ∈ allRequests ws -> send s w (fst q) (snd q) = Fulfilled (rowOf s w q))
    /\ results (final r) = map (rowOf s w) (allRequests ws)
    /\ isRunning (final r) = false.
Proof.
  intros ws nthreads Hws [marker Hmarker] Hthreads Hcalm Hsettle.
  assert (HN : 1 <= nthreads) by (unfold nthreads; lia).
  assert (HL : 0 < length ws) by (destruct ws; [done | simpl; lia]).
  unfold startFuzzing. fold ws.
  destruct (Nat.eqb_spec (length ws) 0) as [|_]; [lia|].
  rewrite Hmarker.
  destruct (Z.eqb_spec (threads s) 1) as [|_]; [lia|].
  fold nthreads.
  set (v0 := setActiveTab _ _).
  destruct (runConcurrent_calm s w ws nthreads HN Hcalm Hsettle
              (S (length ws)) 0 ∅ v0) as (r & Hrun & D1 & D2 & D3 & D4 & _ & D6).
  { lia. }
  { intros j. rewrite decide_False by (simpl; lia). apply lookup_empty. }
  rewrite Nat.min_0_l in Hrun. rewrite Hrun. cbn [option_map].
  eexists. split; [reflexivity|]. cbn [trace final].
  rewrite drop_0 in D2.
  destruct D6 as (Hres & _ & _ & _); [done|].
  split_and!.
  - done.
  - by rewrite D2, allRequests_length.
  - intros k b Hb. destruct (D1 k b Hb) as [-> Hne]. split; [done|].
    split; [|rewrite length_take; lia].
    destruct (take nthreads _) eqn:E; [done | simpl; lia].
  - done.
  - intros k rows Hrows.
    pose proof (lookup_lt_Some _ _ _ Hrows) as Hk. rewrite D3 in Hk.
    rewrite (concat_take_chunks (allRequests ws) _ nthreads) by (naive_solver || lia).
    apply D4 in Hrows as ->. simpl.
    split.
    + unfold rowsUpTo. f_equal.
      rewrite <- (take_take (allRequests ws)), (take_ge (allRequests ws) (length ws)).
      * done.
      * by rewrite allRequests_length.
    + by rewrite rowsUpTo_requestNum, rowsUpTo_length.
  - intros q _. apply sendSingleRequest_no_abort, Hcalm.
  - simpl. rewrite Hres. unfold rowsUpTo. rewrite take_ge; [done|].
    by rewrite allRequests_length.
  - done.
Qed.


(** *** Batches in general: some requests may be aborted *)

Lemma record_batch s w i (qs : list (nat * string)) (m : gmap nat FuzzResult) pc :
  (forall k q, qs !! k = Some q -> fst q = i + k + 1) ->
  let st := foldl recordSettled (m, pc) (map (fun q => send s w (fst q) (snd q)) qs) in
  pc <= snd st <= pc + length qs
  /\ (forall j, j <= i \/ i + length qs < j -> fst st !! j = m !! j)
  /\ (forall k q, qs !! k = Some q ->
                  fst st !! fst q =
                    match send s w (fst q) (snd q) with
                    | Fulfilled r => Some r
                    | Rejected _ => m !! fst q
                    end).
Proof.
  induction qs as [|q qs IH] using rev_ind; intros Hnum st.
  - subst st. simpl. split; [lia|]. split; [done|]. intros k q Hq. done.
  - destruct IH as (Hc & Hout & Hin).
    { intros k q' Hk. apply Hnum. by rewrite lookup_app_l by eauto using lookup_lt_Some. }
    assert (Hq : fst q = i + length qs + 1).
    { apply Hnum. by rewrite lookup_app_r, Nat.sub_diag by lia. }
    subst st. rewrite map_app, foldl_app. simpl.
    set (st0 := foldl recordSettled (m, pc) (map (fun q => send s w (fst q) (snd q)) qs)) in *.
    rewrite length_app. simpl.
    destruct (send s w (fst q) (snd q)) as [r|e] eqn:E; simpl.
    + pose proof (sendSingleRequest_fulfilled _ _ _ _ _ _ _ E) as [Hr _].
      rewrite Hr. split; [lia|]. split.
      * intros j Hj. rewrite lookup_insert_ne by lia. apply Hout. lia.
      * intros k q' Hk. destruct (decide (k = length qs)) as [->|Hne].
        -- rewrite lookup_app_r, Nat.sub_diag in Hk by lia. simplify_eq/=.
           by rewrite lookup_insert_eq, E.
        -- assert (k < length qs).
           { apply lookup_lt_Some in Hk. rewrite length_app in Hk. simpl in Hk. lia. }
           rewrite lookup_app_l in Hk by done.
           pose proof (Hnum k q' ltac:(by rewrite lookup_app_l)) as Hq'.
           rewrite lookup_insert_ne by lia. by apply (Hin k).
    + split; [lia|]. split.
      * intros j Hj. apply Hout. lia.
      * intros k q' Hk. destruct (decide (k = length qs)) as [->|Hne].
        -- rewrite lookup_app_r, Nat.sub_diag in Hk by lia. simplify_eq/=.
           rewrite E. apply Hout. lia.
        -- assert (k < length qs).
           { apply lookup_lt_Some in Hk. rewrite length_app in Hk. simpl in Hk. lia. }
           rewrite lookup_app_l in Hk by done. by apply (Hin k).
Qed.

Lemma orderedResults_prefix (m m' : gmap nat FuzzResult) pc pc' :
  pc <= pc' ->
  (forall j, j <= pc -> m' !! j = m !! j) ->
  orderedResults m pc `prefix_of` orderedResults m' pc'.
Proof.
  intros Hle Hsame. unfold orderedResults.
  replace pc' with (pc + (pc' - pc)) by lia.
  rewrite seq_app, omap_app.
  rewrite (list_omap_ext (fun j => m' !! j) (fun j => m !! j) (seq 1 pc) (seq 1 pc)).
  - by apply prefix_app_r.
  - apply Forall_Forall2_diag, Forall_forall. intros j Hj.
    apply elem_of_seq in Hj. apply Hsame. lia.
Qed.

Lemma orderedResults_elem (m : gmap nat FuzzResult) pc r :
  r ∈ orderedResults m pc -> exists j, 1 <= j <= pc /\ m !! j = Some r.
Proof.
  unfold orderedResults. intros Hr.
  apply list_elem_of_omap in Hr as (j & Hj & Hm).
  apply elem_of_seq in Hj. exists j. split; [lia | done].
Qed.




Lemma batchRequests_elem i (batch : list string) q :
  q ∈ batchRequests i batch ->
  exists k, batchRequests i batch !! k = Some q /\ fst q = i + k + 1 /\ k < length batch.
Proof.
  intros Hq. apply list_elem_of_lookup in Hq as [k Hk]. exists k.
  split; [done|]. unfold batchRequests in Hk.
  rewrite list_lookup_imap in Hk.
  destruct (batch !! k) as [word|] eqn:E; simplify_eq/=.
  split; [done|]. eauto using lookup_lt_Some.
Qed.

Lemma batchRequests_numbers i (batch : list string) k q :
  batchRequests i batch !! k = Some q -> fst q = i + k + 1.
Proof.
  unfold batchRequests. rewrite list_lookup_imap.
  destruct (batch !! k); by intros [= <-].
Qed.

(** One pass of the concurrent loop from a state [at_batch]. *)
Lemma concurrent_step s w ws nthreads i m pc v :
  at_batch w ws nthreads i m pc v ->
  let requests := batchRequests i (take nthreads (drop i ws)) in
  let st := foldl recordSettled (m, pc)
                  (map (fun q => send s w (fst q) (snd q)) requests) in
  let rows := orderedResults (fst st) (snd st) in
  let v' := setProgressCount (snd st) (setResults rows v) in
  let evs := ([Dispatch requests; Display rows]
               ++ sleepIf ((0 <? delayMs s)%Z && (i + nthreads <? length ws)%nat)
                          (delayMs s))%list in
  (forall fuel,
      runConcurrent JSON_parse JSON_stringify (S fuel) s w ws nthreads i m pc v
      = option_map (emit evs)
          (runConcurrent JSON_parse JSON_stringify fuel s w ws nthreads
                         (i + nthreads) (fst st) (snd st) v'))
  /\ results v `prefix_of` rows
  /\ snd st <= i + nthreads
  /\ (forall j r, fst st !! j = Some r -> j <= i + nthreads /\ requestNum r = j)
  /\ (forall q, q ∈ requests ->
                i < fst q <= i + nthreads
                /\ match send s w (fst q) (snd q) with
                   | Fulfilled r => fst st !! fst q = Some r
                   | Rejected _ =>
                       fst st !! fst q = None
                       /\ fst q ∉ map requestNum rows
                   end).
Proof.
  intros (HN & Hi & Hgo & Hperm & Hpc & Hm & Hres) requests st rows v' evs.
  assert (Hlen : length requests = length (take nthreads (drop i ws))).
  { unfold requests, batchRequests. by rewrite length_imap. }
  assert (Hle : length requests <= nthreads).
  { rewrite Hlen, length_take. lia. }
  destruct (record_batch s w i requests m pc) as (Hc & Hout & Hin).
  { intros k q. apply batchRequests_numbers. }
  fold st in Hc, Hout, Hin.
  assert (Hkeys : forall j r, fst st !! j = Some r -> j <= i + nthreads /\ requestNum r = j).
  { intros j r Hj.
    destruct (decide (j <= i \/ i + length requests < j)) as [Hfar|Hnear].
    - rewrite Hout in Hj by done. apply Hm in Hj. lia.
    - destruct (lookup_lt_is_Some_2 requests (j - i - 1)) as [q Hq]; [lia|].
      pose proof (batchRequests_numbers _ _ _ _ Hq) as Hfst.
      assert (fst q = j) as <- by lia.
      rewrite (Hin _ _ Hq) in Hj.
      destruct (send s w (fst q) (snd q)) as [r'|e] eqn:E.
      + simplify_eq. apply sendSingleRequest_fulfilled in E as [-> _]. lia.
      + apply Hm in Hj. lia. }
  split_and!.
  - intros fuel. cbn [runConcurrent].
    destruct (Nat.leb_spec (length ws) i) as [|_]; [lia|].
    rewrite Hgo. fold requests.
    rewrite allSettled_any_order; [done|].
    by rewrite length_map, Hlen.
  - rewrite Hres. apply orderedResults_prefix; [lia|].
    intros j Hj. apply Hout. lia.
  - lia.
  - done.
  - intros q Hq. apply batchRequests_elem in Hq as (k & Hk & Hfst & Hklt).
    rewrite <- Hlen in Hklt. split; [lia|].
    rewrite (Hin _ _ Hk).
    destruct (send s w (fst q) (snd q)) as [r|e] eqn:E; [done|].
    assert (Hnone : m !! fst q = None).
    { destruct (m !! fst q) as [r|] eqn:Hr; [|done]. apply Hm in Hr. lia. }
    split; [done|].
    intros Hshown. apply list_elem_of_fmap in Hshown as (r & Hnum & Hr).
    apply orderedResults_elem in Hr as (j & _ & Hj).
    pose proof (Hkeys _ _ Hj) as [_ Hrj].
    assert (j = fst q) as -> by congruence.
    rewrite (Hin _ _ Hk), E, Hnone in Hj. done.
Qed.




Lemma at_batch_next s w ws nthreads i m pc v :
  at_batch w ws nthreads i m pc v ->
  let requests := batchRequests i (take nthreads (drop i ws)) in
  let st := foldl recordSettled (m, pc)
                  (map (fun q => send s w (fst q) (snd q)) requests) in
  let rows := orderedResults (fst st) (snd st) in
  i + nthreads < length ws ->
  aborted_at w (i + nthreads) = false ->
  Permutation (settle_order w (i + nthreads)
                 (length (take nthreads (drop (i + nthreads) ws))))
              (seq 0 (length (take nthreads (drop (i + nthreads) ws)))) ->
  at_batch w ws nthreads (i + nthreads) (fst st) (snd st)
           (setProgressCount (snd st) (setResults rows v)).
Proof.
  intros Hat requests st rows Hmore Hgo Hperm.
  destruct (concurrent_step s w ws nthreads i m pc v Hat) as (_ & _ & Hpc & Hkeys & _).
  destruct Hat as (HN & _).
  unfold at_batch. split_and!; done.
Qed.

(** *** The [finally] block *)




(** *** What is dispatched, in any run *)









End BatchProperties.

(** ** Runs on the sample inputs *)

Section RunExamples.
Import JsString Headers Json Net Fuzzer Spec Samples.

#[local] Abbreviation run := (startFuzzing reference_parse reference_stringify).

Example replaceTextInQuery_users :
  replaceTextInQuery "{ users { id } }" users_marker "adminUsers" = "{ adminUsers { id } }".
Proof. reflexivity. Qed.

(** Direct mode, two words, both answered with 200: two rows, numbered
    1 and 2, each with its word. *)
Example two_words_direct :
  summary_of <$> run (mkInputs "{}" false 1 ("adminUsers" ++ LF ++ "systemConfig"))
                     calm_world idle_view
  = Some (false, [(1, "adminUsers", "200"); (2, "systemConfig", "200")]).
Proof. vm_compute. reflexivity. Qed.

Example sequential_network_error :
  summary_of <$> run (mkInputs "{}" true 1 five_words) flaky_world idle_view
  = Some (false, [(1, "adminUsers", "200");
                  (2, "systemConfig", "Error: Failed to fetch");
                  (3, "posts", "200"); (4, "flags", "200"); (5, "debugInfo", "200")]).
Proof. vm_compute. reflexivity. Qed.

Example sequential_stop :
  summary_of <$> run (mkInputs "{}" true 1 five_words) stopped_world idle_view
  = Some (false, [(1, "adminUsers", "200"); (2, "systemConfig", "200")]).
Proof. vm_compute. reflexivity. Qed.

Example concurrent_stop :
  summary_of <$> run (mkInputs "{}" true 2 five_words) stopped_world idle_view
  = Some (false, [(1, "adminUsers", "200"); (2, "systemConfig", "200")]).
Proof. vm_compute. reflexivity. Qed.

Example concurrent_batches :
  (fun r => (dispatches (trace r), map (map requestNum) (displays (trace r))))
    <$> run (mkInputs "{}" true 2 five_words) calm_world idle_view
  = Some ([[(1, "adminUsers"); (2, "systemConfig")]; [(3, "posts"); (4, "flags")];
           [(5, "debugInfo")]],
          [[1; 2]; [1; 2; 3; 4]; [1; 2; 3; 4; 5]]).
Proof. vm_compute. reflexivity. Qed.

Lemma calm_world_no_cancellation : no_cancellation calm_world.
Proof. split; intros; reflexivity. Qed.

Lemma sample_worlds_settle net stopped : all_settle (mkWorld net stopped).
Proof. intros i n. simpl. symmetry. apply Permutation_rev. Qed.

Lemma C1_bounded_concurrency_witness :
  exists r,
    run (mkInputs "{}" true 2 five_words) calm_world idle_view = Some r
    /\ length (concat (dispatches (trace r))) = 5
    /\ isRunning (final r) = false.
Proof.
  destruct (C1_bounded_concurrency reference_parse reference_stringify
              (mkInputs "{}" true 2 five_words) calm_world idle_view)
    as (r & Hrun & _ & Hlen & _ & _ & _ & _ & _ & Hidle).
  - intros H. vm_compute in H. discriminate H.
  - eexists. reflexivity.
  - simpl. lia.
  - exact calm_world_no_cancellation.
  - apply sample_worlds_settle.
  - exists r. split; [exact Hrun|]. split; [exact Hlen | exact Hidle].
Defined.




End RunExamples.

(** ** The forwarding proxy *)

Section ProxyProperties.
Import JsString Headers Json Net Proxy Samples.

Variable JSON_parse : string -> string + JSON.
Variable JSON_stringify : JSON -> string.
Variable upstream : ForwardArgs -> Upstream.

#[local] Abbreviation handler := (handler JSON_parse JSON_stringify upstream).
#[local] Abbreviation traced_handler := (traced_handler JSON_parse JSON_stringify upstream).

Lemma is_forward_guards req :
  is_forward req ->
  String.eqb (in_method req) "OPTIONS" = false
  /\ String.eqb (in_method req) "POST" = true
  /\ String.eqb (in_url req) "/forward" = true.
Proof. intros [-> ->]. done. Qed.

(** In [server/proxy.mjs] every value thrown inside the [try] block
    becomes a 500 whose body has the one member [error]. *)
Lemma handler_exception req e :
  is_forward req ->
  forwardArgs JSON_parse JSON_stringify req = inl e
  \/ (exists args, forwardArgs JSON_parse JSON_stringify req = inr args
                   /\ upstream args = UpstreamFails e) ->
  handler req = Some (jsonReply 500 (JObj [("error", JStr (errorText e))])).
Proof.
  intros Hf Hthrown. apply is_forward_guards in Hf as (H1 & H2 & H3).
  unfold Proxy.handler. rewrite H1, H2, H3. simpl.
  destruct Hthrown as [->|(args & -> & ->)]; done.
Qed.

(** In [server/proxy.mjs] the envelope of an answer has four members;
    [isError] is not one of them. *)
Lemma handler_answer req args r :
  is_forward req ->
  forwardArgs JSON_parse JSON_stringify req = inr args ->
  upstream args = UpstreamAnswers r ->
  handler req = Some (jsonReply 200 (envelope r))
  /\ map fst (match envelope r with JObj ms => ms | _ => [] end)
     = ["status"; "statusText"; "headers"; "body"].
Proof.
  intros Hf Hargs Hup. apply is_forward_guards in Hf as (H1 & H2 & H3).
  unfold Proxy.handler. rewrite H1, H2, H3, Hargs, Hup. done.
Qed.

(** The proxy with tracing does what the specification says: the
    envelope carries [isError], true exactly off the 2xx range, and a
    thrown value becomes a 500 with [error], [isError: true] and
    [status: 0]. *)
Lemma traced_handler_answer req args r :
  is_forward req ->
  traced_forwardArgs JSON_parse JSON_stringify req = inr args ->
  upstream args = UpstreamAnswers r ->
  traced_handler req = Some (jsonReply 200 (traced_envelope r))
  /\ field "isError" (match traced_envelope r with JObj ms => ms | _ => [] end)
     = Some (JBool (negb ((200 <=? status_of r)%Z && (status_of r <? 300)%Z))).
Proof.
  intros Hf Hargs Hup. apply is_forward_guards in Hf as (H1 & H2 & H3).
  unfold Proxy.traced_handler. rewrite H1, H2, H3, Hargs, Hup.
  split; [done|]. unfold traced_envelope, traced_isError, field. simpl.
  do 2 f_equal. destruct (Z.leb_spec 200 (status_of r)), (Z.ltb_spec (status_of r) 300),
    (Z.ltb_spec (status_of r) 200), (Z.leb_spec 300 (status_of r)); simpl; lia || done.
Qed.

Lemma traced_handler_exception req e :
  is_forward req ->
  traced_forwardArgs JSON_parse JSON_stringify req = inl e
  \/ (exists args, traced_forwardArgs JSON_parse JSON_stringify req = inr args
                   /\ upstream args = UpstreamFails e) ->
  exists ms,
    traced_handler req = Some (jsonReply 500 (JObj ms))
    /\ field "error" ms = Some (JStr (errorText e))
    /\ field "isError" ms = Some (JBool true)
    /\ field "status" ms = Some (JNum 0 0).
Proof.
  intros Hf Hthrown. apply is_forward_guards in Hf as (H1 & H2 & H3).
  unfold Proxy.traced_handler. rewrite H1, H2, H3. simpl.
  destruct Hthrown as [->|(args & -> & ->)]; eexists; (split; [reflexivity|done]).
Qed.

End ProxyProperties.

Section ProxyExamples.
Import JsString Headers Json Net Proxy Samples.

(** C5, on [server/proxy.mjs].  A target that answers 404: the proxy
    replies 200 with an envelope of four members, without [isError].  A
    target that refuses the connection: the proxy replies 500 with a
    body whose only member is [error], without [isError] or [status]. *)
Theorem C5_plain_proxy_envelopes :
  handler reference_parse reference_stringify target_answers_404 forward_request
  = Some (jsonReply 200
            (JObj [("status", JNum 404 0);
                   ("statusText", JStr "Not Found");
                   ("headers", object_of_map {[ "content-type" := "text/plain";
                                                "set-cookie" := "a=1, b=2" ]});
                   ("body", JStr "no such route")]))
  /\ handler reference_parse reference_stringify target_refuses forward_request
     = Some (jsonReply 500
               (JObj [("error", JStr "connect ECONNREFUSED 127.0.0.1:4000")])).
Proof. split; vm_compute; reflexivity. Qed.

(** The same two exchanges through the proxy with tracing. *)
Example traced_proxy_envelopes :
  traced_handler reference_parse reference_stringify target_answers_404 forward_request
  = Some (jsonReply 200
            (JObj [("status", JNum 404 0);
                   ("statusText", JStr "Not Found");
                   ("headers", object_of_map {[ "content-type" := "text/plain";
                                                "set-cookie" := "a=1, b=2" ]});
                   ("body", JStr "no such route");
                   ("isError", JBool true)]))
  /\ traced_handler reference_parse reference_stringify target_refuses forward_request
     = Some (jsonReply 500
               (JObj [("error", JStr "connect ECONNREFUSED 127.0.0.1:4000");
                      ("isError", JBool true);
                      ("status", JNum 0 0);
                      ("statusText", JStr "Proxy Error");
                      ("headers", JObj []);
                      ("body", JStr "")])).
Proof. split; vm_compute; reflexivity. Qed.

End ProxyExamples.

(** ** Threads and delay *)

Section PerformanceProperties.
Import JsString Headers Json Net Fuzzer Spec Samples.

Variable JSON_parse : string -> string + JSON.
Variable JSON_stringify : JSON -> string.

Example parseInt_samples :
  map parseInt ["  42px"; "0x1F"; "-7.9"; ""; "abc"; "1e5"; "-0"]
  = [Some 42; Some 31; Some (-7); None; None; Some 1; Some 0]%Z.
Proof. reflexivity. Qed.

Lemma onChange_bounds p e :
  (1 <= perf_threads p <= 50)%Z /\ (0 <= perf_delayMs p)%Z ->
  (1 <= perf_threads (onChange p e) <= 50)%Z /\ (0 <= perf_delayMs (onChange p e))%Z.
Proof. intros [Ht Hd]. destruct e; simpl; lia. Qed.

Lemma afterEvents_bounds es :
  (1 <= perf_threads (afterEvents es) <= 50)%Z /\ (0 <= perf_delayMs (afterEvents es))%Z.
Proof.
  unfold afterEvents. induction es as [|e es IH] using rev_ind.
  - simpl. lia.
  - rewrite foldl_app. simpl. by apply onChange_bounds.
Qed.

Lemma runSequential_batches s w total words c v :
  Forall (fun b : list (nat * string) => length b = 1)
         (dispatches (trace (runSequential JSON_parse JSON_stringify s w total words c v))).
Proof.
  revert c v. induction words as [|word rest IH]; intros c v; cbn [runSequential].
  - constructor.
  - destruct (aborted_at w c); [constructor|].
    destruct (sendSingleRequest _ _ s w (S c) word) as [r|e].
    + unfold emit. cbn [trace]. rewrite <- app_assoc, dispatches_iteration.
      constructor; [done | apply IH].
    + simpl. by repeat constructor.
Qed.

Lemma runConcurrent_batches s w ws nthreads fuel :
  forall i m pc v r,
    runConcurrent JSON_parse JSON_stringify fuel s w ws nthreads i m pc v = Some r ->
    Forall (fun b : list (nat * string) => length b <= nthreads) (dispatches (trace r)).
Proof.
  induction fuel as [|fuel IH]; intros i m pc v r; cbn [runConcurrent]; [done|].
  destruct (length ws <=? i)%nat.
  { intros [= <-]. constructor. }
  destruct (aborted_at w i).
  { intros [= <-]. constructor. }
  destruct (allSettled _ _) as [batchResults|]; [|done].
  destruct (runConcurrent _ _ fuel _ _ _ _ _ _ _ _) as [r'|] eqn:Hrun; [|done].
  intros [= <-]. apply IH in Hrun.
  unfold emit. cbn [trace]. rewrite dispatches_iteration_cons.
  constructor; [|done].
  unfold batchRequests. rewrite length_imap, length_take. lia.
Qed.

(** C10. After any sequence of changes of the two inputs, the thread
    count is an integer from 1 to 50 and the delay is an integer that is
    not negative; a text that [parseInt] cannot read sets the thread count
    to 1; a run started with that thread count never dispatches more than
    50 requests at once. *)
Theorem C10_performance_bounds (es : list PerformanceEvent) :
  (1 <= perf_threads (afterEvents es) <= 50)%Z
  /\ (0 <= perf_delayMs (afterEvents es))%Z
  /\ (forall value,
         parseInt value = None ->
         perf_threads (afterEvents (es ++ [ThreadsChanged value])) = 1%Z)
  /\ (forall s w v r,
         threads s = perf_threads (afterEvents es) ->
         startFuzzing JSON_parse JSON_stringify s w v = Some r ->
         Forall (fun b : list (nat * string) => length b <= 50) (dispatches (trace r))).
Proof.
  destruct (afterEvents_bounds es) as [Ht Hd].
  split; [done|]. split; [done|]. split.
  { intros value Hnan. unfold afterEvents. rewrite foldl_app. simpl. by rewrite Hnan. }
  intros s w v r Hs. rewrite <- Hs in Ht. unfold startFuzzing.
  destruct (length (parseWordlist (wordlistText s)) =? 0)%nat.
  { intros [= <-]. constructor. }
  destruct (replacementMarker s).
  2:{ intros [= <-]. constructor. }
  destruct (threads s =? 1)%Z; cbn [option_map].
  - intros [= <-]. cbn [trace].
    eapply Forall_impl; [apply runSequential_batches|]. simpl. intros b ->. lia.
  - destruct (runConcurrent _ _ _ _ _ _ _ _ _ _ _) as [r'|] eqn:Hrun; [|done].
    intros [= <-]. cbn [trace].
    eapply Forall_impl; [eapply runConcurrent_batches, Hrun|]. simpl. lia.
Qed.

End PerformanceProperties.

Section PerformanceExamples.
Import JsString Headers Json Net Fuzzer Spec Samples.

Lemma C10_performance_bounds_witness :
  afterEvents [ThreadsChanged "100"; DelayChanged "-5"]
  = {| perf_threads := 50; perf_delayMs := 0 |}
  /\ exists r,
      startFuzzing reference_parse reference_stringify
        (mkInputs "{}" true 50 five_words) calm_world idle_view = Some r
      /\ Forall (fun b : list (nat * string) => length b <= 50) (dispatches (trace r)).
Proof.
  split; [reflexivity|].
  destruct (startFuzzing reference_parse reference_stringify
              (mkInputs "{}" true 50 five_words) calm_world idle_view)
    as [r|] eqn:E; [|vm_compute in E; discriminate E].
  exists r. split; [reflexivity|].
  exact (proj2 (proj2 (proj2 (C10_performance_bounds reference_parse reference_stringify
                                [ThreadsChanged "100"; DelayChanged "-5"])))
               (mkInputs "{}" true 50 five_words) calm_world idle_view r eq_refl E).
Defined.

End PerformanceExamples.

(** * Further properties of the code *)

(** ** Strings *)

Section StringFacts.
Import JsString Shape.

Lemma chars_str l : chars (str l) = l.
Proof. apply list_ascii_of_string_of_list_ascii. Qed.

Lemma str_chars s : str (chars s) = s.
Proof. apply string_of_list_ascii_of_string. Qed.

Lemma str_app l1 l2 : str (l1 ++ l2) = str l1 ++ str l2.
Proof. induction l1 as [|c l1 IH]; simpl; [done | by rewrite IH]. Qed.

Lemma chars_app s1 s2 : chars (s1 ++ s2) = (chars s1 ++ chars s2)%list.
Proof. induction s1 as [|c s1 IH]; simpl; [done | by rewrite IH]. Qed.

Lemma str_length l : String.length (str l) = length l.
Proof. induction l as [|c l IH]; simpl; [done | by rewrite IH]. Qed.

Lemma chars_length s : length (chars s) = String.length s.
Proof. by rewrite <- (str_chars s) at 2; rewrite str_length. Qed.

Lemma str_nil_inv l : str l = "" -> l = [].
Proof. by destruct l. Qed.

Lemma trimStart_starts_well l : starts_well (trimStart_chars l).
Proof.
  induction l as [|c l IH]; simpl; [done|].
  destruct (is_space c) eqn:E; [done | simpl; done].
Qed.

Lemma trimStart_id l : starts_well l -> trimStart_chars l = l.
Proof. destruct l as [|c l]; simpl; [done|]. by intros ->. Qed.

Lemma trimStart_suffix l : exists sp, l = (sp ++ trimStart_chars l)%list.
Proof.
  induction l as [|c l [sp IH]]; simpl.
  - by exists [].
  - destruct (is_space c).
    + exists (c :: sp). simpl. by f_equal.
    + by exists [].
Qed.

Lemma trimEnd_prefix l : exists sp, l = (trimEnd_chars l ++ sp)%list.
Proof.
  unfold trimEnd_chars. destruct (trimStart_suffix (rev l)) as [sp Hsp].
  exists (rev sp). rewrite <- rev_app_distr, <- Hsp. by rewrite rev_involutive.
Qed.

Lemma trimEnd_id l : starts_well (rev l) -> trimEnd_chars l = l.
Proof. intros H. unfold trimEnd_chars. by rewrite trimStart_id, rev_involutive. Qed.

Lemma trimEnd_ends_well l : starts_well (rev (trimEnd_chars l)).
Proof. unfold trimEnd_chars. rewrite rev_involutive. apply trimStart_starts_well. Qed.

Lemma starts_well_prefix (l1 l2 : list ascii) :
  starts_well (l1 ++ l2) -> starts_well l1.
Proof. by destruct l1. Qed.

(** The characters of [trim s]: no white space at either end, and all
    of them characters of [s]. *)
Lemma trim_chars_spec s :
  let t := chars (trim s) in
  starts_well t /\ starts_well (rev t) /\ (forall c, c ∈ t -> c ∈ chars s).
Proof.
  unfold trim. rewrite chars_str. simpl.
  set (u := trimStart_chars (chars s)).
  destruct (trimEnd_prefix u) as [sp Hsp].
  split_and!.
  - apply (starts_well_prefix _ sp). rewrite <- Hsp. apply trimStart_starts_well.
  - apply trimEnd_ends_well.
  - intros c Hc. destruct (trimStart_suffix (chars s)) as [sp' Hsp'].
    rewrite Hsp'. fold u. rewrite Hsp. set_solver.
Qed.

Lemma trim_idempotent s : trim (trim s) = trim s.
Proof.
  destruct (trim_chars_spec s) as (H1 & H2 & _). simpl in *.
  unfold trim at 1. rewrite trimStart_id by done. rewrite trimEnd_id by done.
  apply str_chars.
Qed.

End StringFacts.

(** ** Wordlist and header text *)

Section TextProperties.
Import JsString Headers Fuzzer Shape Spec Samples.

Lemma trim_trimmed s : trimmed (trim s).
Proof. destruct (trim_chars_spec s) as (H1 & H2 & _). by split. Qed.

Lemma split_lines_chars_no_LF n :
  forall cur l,
    length l <= n ->
    Forall (fun c => c <> "010"%char) cur ->
    Forall (fun line => Forall (fun c => c <> "010"%char) (chars line))
           (split_lines_chars cur l).
Proof.
  induction n as [|n IH]; intros cur l Hlen Hcur.
  - destruct l; [|simpl in Hlen; lia]. simpl. constructor; [|constructor].
    rewrite chars_str. by apply Forall_rev.
  - destruct l as [|c l']; simpl.
    { constructor; [|constructor]. rewrite chars_str. by apply Forall_rev. }
    simpl in Hlen.
    assert (Hcurline : Forall (fun c => c <> "010"%char) (chars (str (rev cur)))).
    { rewrite chars_str. by apply Forall_rev. }
    destruct (Ascii.eqb_spec c "010") as [->|Hc].
    { constructor; [done|]. apply IH; [lia | constructor]. }
    assert (Hpush : Forall (fun c => c <> "010"%char) (c :: cur)) by (by constructor).
    destruct (Ascii.eqb_spec c "013") as [->|Hcr]; [|apply IH; [lia | done]].
    destruct l' as [|c' l'']; [apply IH; [simpl; lia | done]|].
    destruct (Ascii.eqb_spec c' "010") as [->|Hc'].
    + constructor; [done|]. apply IH; [simpl in Hlen; lia | constructor].
    + apply IH; [lia | done].
Qed.

Lemma split_lines_no_LF text line :
  line ∈ split_lines text -> Forall (fun c => c <> "010"%char) (chars line).
Proof.
  intros Hin. unfold split_lines in Hin.
  pose proof (split_lines_chars_no_LF (length (chars text)) [] (chars text)
                ltac:(lia) ltac:(constructor)) as Hall.
  rewrite Forall_forall in Hall. by apply Hall.
Qed.

(** X1. Every item of the parsed wordlist is the trimmed text of one
    line: it is not empty, has no white space at either end, is left as it
    is by [trim], and holds no line feed. *)
Theorem X1_parseWordlist_items text w :
  w ∈ parseWordlist text ->
  w <> ""
  /\ trimmed w
  /\ trim w = w
  /\ Forall (fun c => c <> "010"%char) (chars w)
  /\ exists line, line ∈ split_lines text /\ w = trim line.
Proof.
  unfold parseWordlist. intros Hw.
  apply list_elem_of_filter in Hw as [Hlen Hw].
  apply list_elem_of_fmap in Hw as (line & -> & Hline).
  split_and!.
  - intros E. rewrite E in Hlen. simpl in Hlen. lia.
  - apply trim_trimmed.
  - apply trim_idempotent.
  - rewrite Forall_forall. intros c Hc.
    destruct (trim_chars_spec line) as (_ & _ & Hsub).
    pose proof (split_lines_no_LF _ _ Hline) as Hno.
    rewrite Forall_forall in Hno. apply Hno, Hsub, Hc.
  - by exists line.
Qed.

Lemma X1_parseWordlist_items_witness :
  "systemConfig" <> "" /\ trim "systemConfig" = "systemConfig".
Proof.
  destruct (X1_parseWordlist_items five_words "systemConfig") as (H1 & _ & H3 & _).
  - vm_compute. repeat constructor.
  - split; [exact H1 | exact H3].
Defined.

Lemma indexOf_chars_before c l idx :
  indexOf_chars c l = Some idx -> c ∉ take idx l.
Proof.
  revert idx. induction l as [|x l IH]; intros idx; simpl; [done|].
  destruct (Ascii.eqb_spec x c) as [->|Hne].
  - intros [= <-]. simpl. apply not_elem_of_nil.
  - destruct (indexOf_chars c l) as [i|]; [|done]. simpl. intros [= <-]. simpl.
    intros Hin. apply elem_of_cons in Hin as [->|Hin]; [done|]. by apply (IH i).
Qed.

Lemma slice_prefix_chars s n :
  chars (slice s 0 (Z.of_nat n)) = take n (chars s).
Proof.
  unfold slice. rewrite chars_str. unfold rel_index.
  change (0 <? 0)%Z with false. cbn iota.
  destruct (Z.ltb_spec (Z.of_nat n) 0) as [|_]; [lia|].
  rewrite Nat2Z.id. change (Z.to_nat 0) with 0.
  rewrite Nat.min_0_r, Nat.sub_0_r. change (skipn 0 (chars s)) with (chars s).
  destruct (Nat.min_spec (length (chars s)) n) as [[Hlt ->]|[Hge ->]]; [|done].
  by rewrite !firstn_all2 by lia.
Qed.

Lemma parseHeaderLine_shape line k v :
  parseHeaderLine line = Some (k, v) ->
  trimmed k /\ trimmed v /\ colon ∉ chars k.
Proof.
  unfold parseHeaderLine.
  case_decide; [done|]. destruct (is_request_line _); [done|].
  destruct (indexOf (trim line) ":") as [idx|] eqn:Hidx; [|done].
  repeat case_decide; try done. intros [= <- <-].
  split_and!; try apply trim_trimmed.
  intros Hin. destruct (trim_chars_spec (slice (trim line) 0 (Z.of_nat idx))) as (_ & _ & Hsub).
  apply Hsub in Hin. rewrite slice_prefix_chars in Hin.
  by apply indexOf_chars_before in Hidx.
Qed.

(** X2. Every entry of the parsed headers comes from a line of the
    text; its name and its value have no white space at either end, and
    the name holds no colon. *)
Theorem X2_parseRawHeaders_entries raw k v :
  parseRawHeaders raw !! k = Some v ->
  trimmed k /\ trimmed v /\ (colon ∉ chars k)
  /\ exists line, line ∈ split_lines raw /\ parseHeaderLine line = Some (k, v).
Proof.
  rewrite parseRawHeaders_lookup. case_decide; [done|]. intros Hlast.
  apply lastOccurrence_Some in Hlast as (line & Hin & Hline).
  destruct (parseHeaderLine_shape _ _ _ Hline) as (? & ? & ?).
  split_and!; try done. by exists line.
Qed.

Lemma X2_parseRawHeaders_entries_witness :
  trimmed "X-Token" /\ trimmed "two".
Proof.
  destruct (X2_parseRawHeaders_entries sample_headers "X-Token" "two") as (H1 & H2 & _).
  - vm_compute. reflexivity.
  - split; [exact H1 | exact H2].
Defined.

(** X3. [mergeDefaultJsonContentType] always returns a map that has a
    content type, under some spelling, and it changes nothing when it is
    applied again. *)
Theorem X3_mergeDefaultJsonContentType_settles (headers : HeaderMap) :
  (exists k, is_Some (mergeDefaultJsonContentType headers !! k)
             /\ toLowerCase k = "content-type")
  /\ mergeDefaultJsonContentType (mergeDefaultJsonContentType headers)
     = mergeDefaultJsonContentType headers.
Proof.
  assert (Hhas : exists k, is_Some (mergeDefaultJsonContentType headers !! k)
                           /\ toLowerCase k = "content-type").
  { unfold mergeDefaultJsonContentType.
    destruct (findContentTypeKey headers) as [ctKey|] eqn:E.
    - apply findContentTypeKey_Some in E as (Hk & Hlow & Hne).
      rewrite decide_False by done. by exists ctKey.
    - exists "Content-Type". split; [|reflexivity].
      unfold withDefaultJson. rewrite lookup_union.
      rewrite lookup_singleton_eq. by destruct (headers !! "Content-Type"). }
  split; [done|].
  destruct Hhas as (k & Hk & Hlow).
  unfold mergeDefaultJsonContentType at 1.
  destruct (findContentTypeKey (mergeDefaultJsonContentType headers)) as [ctKey|] eqn:E.
  - apply findContentTypeKey_Some in E as (_ & _ & Hne). by rewrite decide_False.
  - exfalso. eapply findContentTypeKey_None in E; eauto.
Qed.

End TextProperties.

(** ** The marker *)

Section MarkerProperties.
Import JsString Fuzzer Marker Shape Samples.

Lemma substring_prefix_chars q (n : Z) :
  chars (substring q 0 n) = take (clamp_index (length (chars q)) n) (chars q).
Proof.
  unfold substring. rewrite chars_str.
  assert (H0 : clamp_index (length (chars q)) 0 = 0).
  { unfold clamp_index. simpl. apply Nat.min_0_r. }
  rewrite H0, Nat.min_0_l, Nat.max_0_l, Nat.sub_0_r. done.
Qed.

Lemma substring_from_chars q (n : Z) :
  chars (substring_from q n) = drop (clamp_index (length (chars q)) n) (chars q).
Proof. unfold substring_from. by rewrite chars_str. Qed.

(** The characters of a splice, for any offsets. *)
Lemma replaceTextInQuery_chars q m w :
  chars (replaceTextInQuery q m w)
  = (take (clamp_index (length (chars q)) (from m)) (chars q)
       ++ chars w
       ++ drop (clamp_index (length (chars q)) (to m)) (chars q))%list.
Proof.
  unfold replaceTextInQuery.
  by rewrite !chars_app, substring_prefix_chars, substring_from_chars.
Qed.

Lemma clamp_index_in_range len (n : Z) :
  (0 <= n <= Z.of_nat len)%Z -> clamp_index len n = Z.to_nat n.
Proof. intros H. unfold clamp_index. lia. Qed.

Lemma string_eq_chars s1 s2 : chars s1 = chars s2 -> s1 = s2.
Proof. intros H. by rewrite <- (str_chars s1), <- (str_chars s2), H. Qed.

(** X4. A splice at offsets inside the text changes only the marked
    span: the length is that of the text less the span plus the word, the
    text before the span and the text after it are kept. *)
Theorem X4_replaceTextInQuery_frame q m w :
  (0 <= from m <= to m)%Z ->
  (to m <= Z.of_nat (String.length q))%Z ->
  Z.of_nat (String.length (replaceTextInQuery q m w))
  = (Z.of_nat (String.length q) - (to m - from m) + Z.of_nat (String.length w))%Z
  /\ substring (replaceTextInQuery q m w) 0 (from m) = substring q 0 (from m)
  /\ substring_from (replaceTextInQuery q m w) (from m + Z.of_nat (String.length w))
     = substring_from q (to m).
Proof.
  intros Hft Hto. rewrite <- !chars_length in *.
  set (l := chars q) in *.
  assert (Ha : clamp_index (length l) (from m) = Z.to_nat (from m)).
  { apply clamp_index_in_range. lia. }
  assert (Hb : clamp_index (length l) (to m) = Z.to_nat (to m)).
  { apply clamp_index_in_range. lia. }
  assert (Hchars : chars (replaceTextInQuery q m w)
                   = (take (Z.to_nat (from m)) l ++ chars w ++ drop (Z.to_nat (to m)) l)%list).
  { rewrite replaceTextInQuery_chars. fold l. by rewrite Ha, Hb. }
  assert (Hlen : length (chars (replaceTextInQuery q m w))
                 = Z.to_nat (from m) + length (chars w) + (length l - Z.to_nat (to m))).
  { rewrite Hchars, !length_app, length_take, length_drop. lia. }
  split_and!.
  - lia.
  - apply string_eq_chars. rewrite !substring_prefix_chars. fold l.
    rewrite clamp_index_in_range by lia.
    rewrite Ha, Hchars.
    rewrite take_app_le by (rewrite length_take; lia).
    by rewrite take_take, Nat.min_id.
  - apply string_eq_chars. rewrite !substring_from_chars. fold l.
    rewrite clamp_index_in_range by lia.
    rewrite Hb, Hchars.
    rewrite app_assoc, drop_app_length'; [done|].
    rewrite length_app, length_take. lia.
Qed.

Lemma X4_replaceTextInQuery_frame_witness :
  Z.of_nat (String.length (replaceTextInQuery "{ users { id } }" users_marker "adminUsers"))
  = (16 - (7 - 2) + 10)%Z.
Proof.
  apply (X4_replaceTextInQuery_frame "{ users { id } }" users_marker "adminUsers");
    simpl; lia.
Defined.

(** X5. A marker left behind by an edit never makes the splice fail.
    When its end is at or past the end of the text, everything from its
    start on is replaced; when its start is too, the word is appended. *)
Theorem X5_replaceTextInQuery_stale q m w :
  (Z.of_nat (String.length q) <= to m)%Z ->
  replaceTextInQuery q m w = substring q 0 (from m) ++ w
  /\ ((Z.of_nat (String.length q) <= from m)%Z -> replaceTextInQuery q m w = q ++ w).
Proof.
  intros Hto. rewrite <- chars_length in *.
  assert (Hsuffix : substring_from q (to m) = "").
  { apply string_eq_chars. rewrite substring_from_chars.
    apply drop_ge. unfold clamp_index. lia. }
  assert (H1 : replaceTextInQuery q m w = substring q 0 (from m) ++ w).
  { unfold replaceTextInQuery. rewrite Hsuffix.
    apply string_eq_chars. by rewrite !chars_app, app_nil_r. }
  split; [done|]. intros Hfrom. rewrite H1. f_equal.
  apply string_eq_chars. rewrite substring_prefix_chars.
  apply take_ge. unfold clamp_index. lia.
Qed.

Lemma X5_replaceTextInQuery_stale_witness :
  replaceTextInQuery "{ a }" {| text := "users"; from := 10; to := 15 |} "x" = "{ a }x".
Proof.
  apply (X5_replaceTextInQuery_stale "{ a }" {| text := "users"; from := 10; to := 15 |} "x");
    simpl; lia.
Defined.

Lemma sliceString_chars d (a b : Z) :
  (0 <= a <= b)%Z -> (b <= Z.of_nat (String.length d))%Z ->
  chars (sliceString d a b) = take (Z.to_nat b - Z.to_nat a) (drop (Z.to_nat a) (chars d)).
Proof.
  intros Hab Hb. rewrite <- chars_length in Hb.
  unfold sliceString, slice. rewrite chars_str. unfold rel_index.
  destruct (Z.ltb_spec a 0); [lia|]. destruct (Z.ltb_spec b 0); [lia|].
  by rewrite !Nat.min_r by lia.
Qed.

(** X6. Marking a selection that is not empty records its text and its
    two offsets; splicing the recorded text back at the marker gives the
    document again. *)
Theorem X6_mark_then_splice_back view st :
  (0 <= sel_from view < sel_to view)%Z ->
  (sel_to view <= Z.of_nat (String.length (doc view)))%Z ->
  exists m,
    marked (markForReplacement (handleQuerySelection view st)) = Some m
    /\ from m = sel_from view
    /\ to m = sel_to view
    /\ text m = sliceString (doc view) (sel_from view) (sel_to view)
    /\ Z.of_nat (String.length (text m)) = (sel_to view - sel_from view)%Z
    /\ replaceTextInQuery (doc view) m (text m) = doc view.
Proof.
  intros Hsel Hto.
  pose proof (sliceString_chars (doc view) (sel_from view) (sel_to view)
                ltac:(lia) Hto) as Hchars.
  set (t := sliceString (doc view) (sel_from view) (sel_to view)) in *.
  assert (Hlen : length (chars t) = Z.to_nat (sel_to view) - Z.to_nat (sel_from view)).
  { rewrite Hchars, length_take, length_drop, chars_length. lia. }
  assert (Hne : String.eqb t "" = false).
  { apply String.eqb_neq. intros E. rewrite E in Hlen. simpl in Hlen. lia. }
  unfold handleQuerySelection, markForReplacement. fold t. rewrite Hne. simpl.
  rewrite Hne. simpl. eexists. split; [reflexivity|]. simpl.
  split_and!; try done.
  - rewrite <- chars_length, Hlen. lia.
  - apply string_eq_chars. rewrite replaceTextInQuery_chars. simpl.
    rewrite !clamp_index_in_range by (rewrite chars_length; lia).
    rewrite Hchars, app_assoc, take_take_drop.
    replace (Z.to_nat (sel_from view) + (Z.to_nat (sel_to view) - Z.to_nat (sel_from view)))
      with (Z.to_nat (sel_to view)) by lia.
    apply take_drop.
Qed.

Lemma X6_mark_then_splice_back_witness :
  exists m,
    marked (markForReplacement
              (handleQuerySelection {| doc := "{ users { id } }"; sel_from := 2; sel_to := 7 |}
                                    (clearMarker {| selectedText := "";
                                                    selectionRange := None;
                                                    marked := None |})))
    = Some m
    /\ text m = "users"
    /\ replaceTextInQuery "{ users { id } }" m (text m) = "{ users { id } }".
Proof.
  destruct (X6_mark_then_splice_back
              {| doc := "{ users { id } }"; sel_from := 2; sel_to := 7 |}
              (clearMarker {| selectedText := ""; selectionRange := None; marked := None |}))
    as (m & Hm & _ & _ & Ht & _ & Hback).
  - simpl. lia.
  - simpl. lia.
  - exists m. split; [exact Hm|]. split; [exact Ht | exact Hback].
Defined.

(** X7. Without a selected text there is nothing to mark: an empty
    selection clears the pending selection and leaves the marker as it
    was, and after [clearMarker] marking sets no marker. *)
Theorem X7_mark_needs_selection view st :
  (sel_from view = sel_to view ->
   handleQuerySelection view st
   = {| selectedText := ""; selectionRange := None; marked := marked st |}
   /\ markForReplacement (handleQuerySelection view st) = handleQuerySelection view st)
  /\ marked (markForReplacement (clearMarker st)) = None.
Proof.
  split; [|done]. intros Heq.
  assert (Hempty : sliceString (doc view) (sel_from view) (sel_to view) = "").
  { unfold sliceString, slice. rewrite Heq, Nat.sub_diag. done. }
  unfold handleQuerySelection. rewrite Hempty. done.
Qed.

Lemma X7_mark_needs_selection_witness :
  marked (markForReplacement
            (handleQuerySelection {| doc := "{ a }"; sel_from := 3; sel_to := 3 |}
                                  {| selectedText := "a"; selectionRange := Some (2, 3)%Z;
                                     marked := Some users_marker |}))
  = Some users_marker.
Proof.
  destruct (X7_mark_needs_selection {| doc := "{ a }"; sel_from := 3; sel_to := 3 |}
              {| selectedText := "a"; selectionRange := Some (2, 3)%Z;
                 marked := Some users_marker |}) as [H _].
  destruct (H eq_refl) as [H1 H2]. rewrite H2, H1. reflexivity.
Defined.

(** X8. Expanding and collapsing a row: a toggle flips the row and no
    other one, and two toggles of a row leave the set as it was. *)
Theorem X8_toggleRowExpansion_flips (n : nat) (rows : gset nat) :
  (n ∈ toggleRowExpansion n rows <-> n ∉ rows)
  /\ (forall k, k <> n -> (k ∈ toggleRowExpansion n rows <-> k ∈ rows))
  /\ toggleRowExpansion n (toggleRowExpansion n rows) = rows.
Proof.
  unfold toggleRowExpansion. split_and!.
  - case_decide; set_solver.
  - intros k Hk. case_decide; set_solver.
  - destruct (decide (n ∈ rows)) as [Hin|Hnin].
    + rewrite decide_False by set_solver. apply set_eq. intros k.
      destruct (decide (k = n)); set_solver.
    + rewrite decide_True by set_solver. set_solver.
Qed.

End MarkerProperties.

(** ** One request *)

Section RowProperties.
Import JsString Headers Json Net Fuzzer Spec Samples.
Variable JSON_parse : string -> string + JSON.
Variable JSON_stringify : JSON -> string.

#[local] Abbreviation send1 := (sendSingleRequest JSON_parse JSON_stringify).

(** X9. Every row that a request returns carries the number and the
    word it was called with and the time measured for it, its content
    length is the decimal length of its response body, and its request
    body is empty or the serialized body that was built for the word. *)
Theorem X9_sendSingleRequest_row s w n word r :
  send1 s w n word = Fulfilled r ->
  requestNum r = n
  /\ wordlistItem r = word
  /\ timeMs r = elapsed w n
  /\ contentLength r = length_toString (responseBody r)
  /\ (requestBody r = ""
      \/ exists obj, requestBodyObj JSON_parse s word = inr obj
                     /\ requestBody r = JSON_stringify obj).
Proof.
  unfold sendSingleRequest, trySend.
  destruct (requestBodyObj JSON_parse s word) as [e|obj] eqn:Hobj.
  { case_match; [done|]. intros [= <-]. simpl. split_and!; auto. }
  destruct (fetched w n) as [e|resp].
  { case_match; [done|]. intros [= <-]. simpl. split_and!; auto. }
  destruct (useProxy s).
  - destruct (resp_json resp) as [e|summary].
    { case_match; [done|]. intros [= <-]. simpl. split_and!; auto. }
    destruct (error summary) as [[|c e]|]; intros [= <-]; simpl; split_and!; eauto.
  - destruct (resp_text resp) as [e|t].
    { case_match; [done|]. intros [= <-]. simpl. split_and!; auto. }
    intros [= <-]. simpl. split_and!; eauto.
Qed.

End RowProperties.

Section RowExamples.
Import JsString Headers Json Net Fuzzer Spec Samples.

Lemma X9_sendSingleRequest_row_witness :
  exists r,
    sendSingleRequest reference_parse reference_stringify
                      (mkInputs "" true 1 five_words) calm_world 1 "adminUsers"
    = Fulfilled r
    /\ contentLength r = "2" /\ responseBody r = "{}".
Proof.
  destruct (sendSingleRequest reference_parse reference_stringify
              (mkInputs "" true 1 five_words) calm_world 1 "adminUsers")
    as [r|e] eqn:E; [|vm_compute in E; discriminate E].
  exists r. split; [reflexivity|].
  destruct (X9_sendSingleRequest_row reference_parse reference_stringify _ _ _ _ _ E)
    as (_ & _ & _ & Hlen & _).
  assert (Hbody : responseBody r = "{}").
  { vm_compute in E. by injection E as <-. }
  split; [|exact Hbody]. rewrite Hlen, Hbody. reflexivity.
Defined.

End RowExamples.

(** ** Settling a batch *)

Section SettleProperties.
Import Net Fuzzer.

Lemma allSettled_slots promises order j :
  foldl (settleSlot promises) (replicate (length promises) None) order !! j
  = if decide (j ∈ order) then Some <$> promises !! j
    else if decide (j < length promises) then Some None else None.
Proof.
  rewrite settle_fold_lookup by apply length_replicate.
  case_decide; [done|].
  case_decide.
  - by apply lookup_replicate_2.
  - apply lookup_ge_None. rewrite length_replicate. lia.
Qed.

Lemma allSettled_Some promises order res :
  allSettled promises order = Some res -> res = promises.
Proof.
  unfold allSettled. intros H. apply mapM_Some in H.
  pose proof (Forall2_length _ _ _ H) as Hlen.
  rewrite settle_fold_length, length_replicate in Hlen.
  apply list_eq. intros j.
  destruct (res !! j) as [x|] eqn:Hx.
  - destruct (Forall2_lookup_r _ _ _ _ _ H Hx) as (slot & Hslot & Hid).
    simpl in Hid. subst slot.
    rewrite allSettled_slots in Hslot.
    case_decide.
    + destruct (promises !! j); by simplify_eq/=.
    + case_decide; simplify_eq.
  - symmetry. apply lookup_ge_None. apply lookup_ge_None in Hx. lia.
Qed.

(** X10. [Promise.allSettled] delivers exactly when every promise of
    the batch settles, and what it delivers is the outcomes in the order
    of the promises, whatever the order in which they settled. *)
Theorem X10_allSettled_delivers promises order res :
  allSettled promises order = Some res
  <-> res = promises /\ (forall j, j < length promises -> j ∈ order).
Proof.
  split.
  - intros H. pose proof (allSettled_Some _ _ _ H) as ->. split; [done|].
    intros j Hj. unfold allSettled in H. apply mapM_Some in H.
    destruct (lookup_lt_is_Some_2 promises j Hj) as [p Hp].
    destruct (Forall2_lookup_r _ _ _ _ _ H Hp) as (slot & Hslot & Hid).
    simpl in Hid. subst slot. rewrite allSettled_slots in Hslot.
    case_decide; [done|]. case_decide; simplify_eq.
  - intros [-> Hall]. unfold allSettled. apply mapM_Some.
    apply Forall2_same_length_lookup. split.
    + by rewrite settle_fold_length, length_replicate.
    + intros j slot p Hslot Hp. rewrite allSettled_slots in Hslot.
      rewrite decide_True in Hslot by (apply Hall; by eapply lookup_lt_Some).
      rewrite Hp in Hslot. by simplify_eq/=.
Qed.

End SettleProperties.

(** ** The sequential mode *)

Section SequentialProperties.
Import JsString Headers Json Net Fuzzer Spec Samples Observed.
Variable JSON_parse : string -> string + JSON.
Variable JSON_stringify : JSON -> string.

#[local] Abbreviation send2 := (sendSingleRequest JSON_parse JSON_stringify).
#[local] Abbreviation row2 := (resultOf JSON_parse JSON_stringify).
#[local] Abbreviation runSeq := (runSequential JSON_parse JSON_stringify).

Lemma iteration_events requests rows cond ms (t : list Event) :
  displays (Dispatch requests :: Display rows :: sleepIf cond ms ++ t) = rows :: displays t
  /\ dispatches (Dispatch requests :: Display rows :: sleepIf cond ms ++ t)
     = requests :: dispatches t
  /\ sleeps (Dispatch requests :: Display rows :: sleepIf cond ms ++ t)
     = ((if cond then [ms] else []) ++ sleeps t)%list.
Proof. unfold sleepIf. by destruct cond. Qed.




End SequentialProperties.

Section SequentialExamples.
Import JsString Headers Json Net Fuzzer Spec Samples Observed.


End SequentialExamples.

(** ** The concurrent mode *)

Section ConcurrentProperties.
Import JsString Headers Json Net Fuzzer Spec Samples Observed.
Variable JSON_parse : string -> string + JSON.
Variable JSON_stringify : JSON -> string.

#[local] Abbreviation send3 := (sendSingleRequest JSON_parse JSON_stringify).
#[local] Abbreviation runConc := (runConcurrent JSON_parse JSON_stringify).

Lemma orderedResults_sorted (m : gmap nat FuzzResult) :
  (forall j row, m !! j = Some row -> requestNum row = j) ->
  forall n a,
    StronglySorted lt (map requestNum (omap (fun j => m !! j) (seq a n)))
    /\ Forall (fun x => a <= x) (map requestNum (omap (fun j => m !! j) (seq a n))).
Proof.
  intros Hm. induction n as [|n IH]; intros a; simpl.
  { split; constructor. }
  destruct (IH (S a)) as [Hs Hf].
  destruct (m !! a) as [row|] eqn:Hrow; simpl.
  - rewrite (Hm _ _ Hrow). split.
    + constructor; [done|]. eapply Forall_impl; [exact Hf|]. simpl. lia.
    + constructor; [lia|]. eapply Forall_impl; [exact Hf|]. simpl. lia.
  - split; [done|]. eapply Forall_impl; [exact Hf|]. simpl. lia.
Qed.

Lemma harvested_well_numbered s w ws i m pc :
  harvested JSON_parse JSON_stringify s w ws i m ->
  well_numbered JSON_parse JSON_stringify s w ws (orderedResults m pc).
Proof.
  intros Hm. split.
  - apply orderedResults_sorted. intros j row H. by destruct (Hm j row H) as (_ & ? & _).
  - apply Forall_forall. intros row Hrow.
    apply orderedResults_elem in Hrow as (j & _ & Hj).
    by destruct (Hm j row Hj) as (_ & _ & ?).
Qed.

Lemma omap_length_le {A B} (f : A -> option B) (l : list A) :
  length (omap f l) <= length l.
Proof.
  induction l as [|x l IH]; [done|].
  change (omap f (x :: l)) with (match f x with Some y => y :: omap f l | None => omap f l end).
  destruct (f x); simpl; lia.
Qed.

Lemma orderedResults_length (m : gmap nat FuzzResult) pc :
  length (orderedResults m pc) <= pc.
Proof.
  unfold orderedResults. etrans; [apply omap_length_le|]. by rewrite length_seq.
Qed.

Lemma harvested_batch s w ws nthreads i m pc :
  i < length ws ->
  pc <= i ->
  harvested JSON_parse JSON_stringify s w ws i m ->
  let requests := batchRequests i (take nthreads (drop i ws)) in
  let st := foldl recordSettled (m, pc)
                  (map (fun q => send3 s w (fst q) (snd q)) requests) in
  pc <= snd st
  /\ snd st <= i + nthreads
  /\ snd st <= length ws
  /\ harvested JSON_parse JSON_stringify s w ws (i + nthreads) (fst st)
  /\ orderedResults m pc `prefix_of` orderedResults (fst st) (snd st).
Proof.
  intros Hi Hpc Hm requests st.
  destruct (record_batch JSON_parse JSON_stringify s w i requests m pc
              (batchRequests_numbers i _)) as (Hcount & Hframe & Hbatch).
  fold st in Hcount, Hframe, Hbatch.
  assert (Hlen : length requests <= nthreads /\ i + length requests <= length ws).
  { unfold requests, batchRequests. rewrite length_imap, length_take, length_drop. lia. }
  split_and!; try lia.
  - intros j row Hj.
    destruct (decide (j <= i \/ i + length requests < j)) as [Hout|Hin].
    + rewrite Hframe in Hj by done.
      destruct (Hm j row Hj) as (? & ? & ?). split_and!; auto; lia.
    + assert (Hk : j - i - 1 < length requests) by lia.
      destruct (lookup_lt_is_Some_2 requests _ Hk) as [q Hq].
      pose proof (batchRequests_numbers _ _ _ _ Hq) as Hnum.
      assert (Hqj : fst q = j) by lia.
      pose proof (Hbatch _ _ Hq) as Hst. rewrite Hqj in Hst.
      destruct (send3 s w j (snd q)) as [r|e] eqn:Hsend.
      * rewrite Hst in Hj. injection Hj as <-.
        pose proof (sendSingleRequest_fulfilled _ _ _ _ _ _ _ Hsend) as [Hn _].
        split_and!; [lia|done|].
        exists (i + (j - i - 1)), (snd q). split_and!.
        -- rewrite Hn. lia.
        -- unfold requests, batchRequests in Hq.
           rewrite list_lookup_imap in Hq.
           destruct (take nthreads (drop i ws) !! (j - i - 1)) as [word|] eqn:Hword;
             [|done].
           simpl in Hq. injection Hq as <-. simpl.
           apply lookup_take_Some in Hword as [Hword _].
           by rewrite lookup_drop in Hword.
        -- by replace (S (i + (j - i - 1))) with j by lia.
      * rewrite Hst in Hj. destruct (Hm j row Hj) as (? & _). lia.
  - apply orderedResults_prefix; [lia|]. intros j Hj. apply Hframe. lia.
Qed.

(** The concurrent loop from a state that earlier batches left. *)
Lemma runConcurrent_invariants s w ws nthreads fuel :
  forall i m pc v r,
    runConc fuel s w ws nthreads i m pc v = Some r ->
    pc <= i ->
    pc <= length ws ->
    harvested JSON_parse JSON_stringify s w ws i m ->
    results v = orderedResults m pc ->
    progressCount v = pc ->
    growing (results v) (displays (trace r))
    /\ Forall (well_numbered JSON_parse JSON_stringify s w ws) (displays (trace r))
    /\ results (final r) = default (results v) (last (displays (trace r)))
    /\ length (displays (trace r)) = length (dispatches (trace r))
    /\ pc <= progressCount (final r) <= length ws
    /\ length (results (final r)) <= progressCount (final r)
    /\ isRunning (final r) = isRunning v
    /\ activeTab (final r) = activeTab v.
Proof.
  induction fuel as [|fuel IH]; intros i m pc v r Hrun Hpc Hpcl Hm Hres Hprog; [done|].
  cbn [runConcurrent] in Hrun.
  assert (Hstop : r = stop v ->
                  growing (results v) (displays (trace r))
                  /\ Forall (well_numbered JSON_parse JSON_stringify s w ws)
                            (displays (trace r))
                  /\ results (final r) = default (results v) (last (displays (trace r)))
                  /\ length (displays (trace r)) = length (dispatches (trace r))
                  /\ pc <= progressCount (final r) <= length ws
                  /\ length (results (final r)) <= progressCount (final r)
                  /\ isRunning (final r) = isRunning v
                  /\ activeTab (final r) = activeTab v).
  { intros ->. simpl. rewrite Hprog, Hres.
    split_and!; auto using orderedResults_length with lia. }
  destruct (Nat.leb_spec (length ws) i) as [|Hi]; [apply Hstop; by simplify_eq|].
  destruct (aborted_at w i); [apply Hstop; by simplify_eq|]. clear Hstop.
  destruct (allSettled _ _) as [batchResults|] eqn:Hsettled; [|done].
  apply allSettled_Some in Hsettled as ->.
  destruct (harvested_batch s w ws nthreads i m pc Hi Hpc Hm)
    as (Hge & Hle & Hlel & Hm' & Hprefix).
  set (requests := batchRequests i (take nthreads (drop i ws))) in *.
  set (st := foldl recordSettled (m, pc)
                   (map (fun q => send3 s w (fst q) (snd q)) requests)) in *.
  set (rows := orderedResults (fst st) (snd st)) in *.
  set (v' := setProgressCount (snd st) (setResults rows v)) in *.
  destruct (runConc fuel s w ws nthreads (i + nthreads) (fst st) (snd st) v')
    as [r'|] eqn:Hrec; [|done].
  injection Hrun as <-.
  destruct (IH _ _ _ _ _ Hrec Hle Hlel Hm' eq_refl eq_refl)
    as (Hgrow & Hall & Hfinal & Hcount & Hbound & Hshown & Hrunning & Htab).
  cbn [emit final trace app].
  destruct (iteration_events requests rows
              ((0 <? delayMs s)%Z && (i + nthreads <? length ws)%nat) (delayMs s)
              (trace r')) as (-> & -> & _).
  split_and!; auto.
  - split; [by rewrite Hres | exact Hgrow].
  - constructor; [|exact Hall]. by eapply harvested_well_numbered.
  - rewrite Hfinal, last_cons. simpl. by destruct (last (displays (trace r'))).
  - simpl. lia.
  - lia.
  - lia.
Qed.

(** X12. With several threads, whatever the network does and whenever
    Stop is pressed: every list of rows that is shown extends the one
    shown before, its rows are in ascending order of their numbers and
    each is the answer to the request of its own number, the last list
    shown is the final result, and the progress count is at least the
    number of rows and at most the length of the wordlist. *)
Theorem X12_concurrent_mode s w v r :
  let ws := parseWordlist (wordlistText s) in
  startFuzzing JSON_parse JSON_stringify s w v = Some r ->
  threads s <> 1%Z ->
  ws <> [] ->
  is_Some (replacementMarker s) ->
  growing [] (displays (trace r))
  /\ Forall (well_numbered JSON_parse JSON_stringify s w ws) (displays (trace r))
  /\ results (final r) = default [] (last (displays (trace r)))
  /\ length (displays (trace r)) = length (dispatches (trace r))
  /\ length (results (final r)) <= progressCount (final r) <= length ws
  /\ isRunning (final r) = false
  /\ activeTab (final r) = TabResults.
Proof.
  intros ws Hrun Hthreads Hws [marker Hmarker]. unfold startFuzzing in Hrun. fold ws in Hrun.
  destruct (Nat.eqb_spec (length ws) 0) as [H0|_].
  { destruct ws; [done|discriminate H0]. }
  rewrite Hmarker in Hrun.
  destruct (Z.eqb_spec (threads s) 1) as [|_]; [done|].
  set (v0 := setActiveTab TabResults
               (setProgressCount 0 (setResults [] (setIsRunning true v)))) in *.
  destruct (runConc (S (length ws)) s w ws (Z.to_nat (threads s)) 0 ∅ 0 v0)
    as [r0|] eqn:Hloop; [|done].
  injection Hrun as <-. cbn [final trace].
  assert (Hempty : harvested JSON_parse JSON_stringify s w ws 0 ∅).
  { intros j row Hj. by rewrite lookup_empty in Hj. }
  destruct (runConcurrent_invariants s w ws _ _ _ _ _ _ _ Hloop
              (Nat.le_refl 0) (Nat.le_0_l _) Hempty eq_refl eq_refl)
    as (Hgrow & Hall & Hfinal & Hcount & Hbound & Hshown & Hrunning & Htab).
  change (results (setIsRunning false (final r0))) with (results (final r0)).
  change (progressCount (setIsRunning false (final r0))) with (progressCount (final r0)).
  split_and!; auto; lia.
Qed.

End ConcurrentProperties.

Section ConcurrentExamples.
Import JsString Headers Json Net Fuzzer Spec Samples Observed.

Lemma X12_concurrent_mode_witness :
  exists r,
    startFuzzing reference_parse reference_stringify
                 (mkInputs "" true 2 five_words) stopped_world idle_view = Some r
    /\ growing [] (displays (trace r))
    /\ length (results (final r)) <= progressCount (final r).
Proof.
  destruct (startFuzzing reference_parse reference_stringify
              (mkInputs "" true 2 five_words) stopped_world idle_view)
    as [r|] eqn:E; [|vm_compute in E; discriminate E].
  exists r. split; [reflexivity|].
  destruct (X12_concurrent_mode reference_parse reference_stringify _ _ _ _ E)
    as (Hgrow & _ & _ & _ & [Hlen _] & _).
  - discriminate.
  - intros H. vm_compute in H. discriminate H.
  - by eexists.
  - split; [exact Hgrow | exact Hlen].
Defined.

End ConcurrentExamples.

(** ** The delay *)

Section DelayProperties.
Import JsString Headers Json Net Fuzzer Spec Samples Observed.
Variable JSON_parse : string -> string + JSON.
Variable JSON_stringify : JSON -> string.

#[local] Abbreviation send4 := (sendSingleRequest JSON_parse JSON_stringify).
#[local] Abbreviation runSeq4 := (runSequential JSON_parse JSON_stringify).
#[local] Abbreviation runConc4 := (runConcurrent JSON_parse JSON_stringify).

(** A pause is the configured delay, and there is none without one. *)
Lemma iteration_pause s requests rows (more : bool) (t : list Event) :
  Forall (fun ms => ms = delayMs s /\ (0 < ms)%Z) (sleeps t) ->
  length (sleeps t) <= length (dispatches t) ->
  let t' := (Dispatch requests :: Display rows
               :: sleepIf ((0 <? delayMs s)%Z && more) (delayMs s) ++ t)%list in
  Forall (fun ms => ms = delayMs s /\ (0 < ms)%Z) (sleeps t')
  /\ length (sleeps t') <= length (dispatches t').
Proof.
  intros Hall Hlen t'. unfold t'.
  destruct (iteration_events requests rows ((0 <? delayMs s)%Z && more) (delayMs s) t)
    as (_ & -> & ->).
  destruct (Z.ltb_spec 0 (delayMs s)); simpl; [destruct more; simpl|].
  - split; [constructor; [split; [done|lia]|done] | lia].
  - split; [done|lia].
  - split; [done|lia].
Qed.

Lemma runSequential_pauses s w total words :
  forall c v,
    Forall (fun ms => ms = delayMs s /\ (0 < ms)%Z)
           (sleeps (trace (runSeq4 s w total words c v)))
    /\ length (sleeps (trace (runSeq4 s w total words c v)))
       <= length (dispatches (trace (runSeq4 s w total words c v))).
Proof.
  induction words as [|word rest IH]; intros c v.
  { simpl. split; [constructor|lia]. }
  cbn [runSequential].
  destruct (aborted_at w c). { simpl. split; [constructor|lia]. }
  destruct (send4 s w (S c) word) as [result|e].
  - cbn [emit trace app]. apply iteration_pause; apply IH.
  - simpl. split; [constructor|lia].
Qed.

Lemma runConcurrent_pauses s w ws nthreads fuel :
  forall i m pc v r,
    runConc4 fuel s w ws nthreads i m pc v = Some r ->
    Forall (fun ms => ms = delayMs s /\ (0 < ms)%Z) (sleeps (trace r))
    /\ length (sleeps (trace r)) <= length (dispatches (trace r)).
Proof.
  induction fuel as [|fuel IH]; intros i m pc v r Hrun; [done|].
  cbn [runConcurrent] in Hrun.
  destruct (length ws <=? i)%nat.
  { injection Hrun as <-. simpl. split; [constructor|lia]. }
  destruct (aborted_at w i).
  { injection Hrun as <-. simpl. split; [constructor|lia]. }
  destruct (allSettled _ _) as [batchResults|]; [|done].
  destruct (runConc4 fuel _ _ _ _ _ _ _ _) as [r'|] eqn:Hrec; [|done].
  injection Hrun as <-. cbn [emit trace app].
  apply iteration_pause; by eapply IH.
Qed.

(** Without cancellation the sequential loop pauses between two
    requests and not after the last. *)
Lemma runSequential_calm_pauses s w words :
  no_cancellation w ->
  (0 < delayMs s)%Z ->
  forall c v,
    words <> [] ->
    S (length (sleeps (trace (runSeq4 s w (c + length words) words c v))))
    = length (dispatches (trace (runSeq4 s w (c + length words) words c v))).
Proof.
  intros [Hlive Hcalm] Hdelay.
  induction words as [|word rest IH]; intros c v Hne; [done|].
  cbn [runSequential]. rewrite Hlive.
  destruct (send4 s w (S c) word) as [result|e] eqn:Hsend.
  2:{ apply sendSingleRequest_rejected in Hsend as [_ H]. by rewrite Hcalm in H. }
  cbn [emit trace app].
  set (v' := setProgressCount (S (progressCount v))
               (setResults (results v ++ [result]) v)).
  replace (c + length (word :: rest)) with (S c + length rest) by (simpl; lia).
  pose proof (IH (S c) v') as IH'.
  set (t := trace (runSeq4 s w (S c + length rest) rest (S c) v')) in *.
  destruct (iteration_events [(S c, word)] (results v')
              ((0 <? delayMs s)%Z && (S c <? S c + length rest)%nat)
              (delayMs s) t) as (_ & -> & ->).
  destruct (Z.ltb_spec 0 (delayMs s)); [|lia].
  destruct rest as [|word' rest'].
  - subst t. simpl. destruct (Nat.ltb_spec (S c) (S (c + 0))); [lia|]. reflexivity.
  - destruct (Nat.ltb_spec (S c) (S c + length (word' :: rest'))); [|simpl in *; lia].
    simpl. f_equal. by apply IH'.
Qed.

Lemma runConcurrent_calm_pauses s w ws nthreads fuel :
  no_cancellation w ->
  (0 < delayMs s)%Z ->
  forall i m pc v r,
    runConc4 fuel s w ws nthreads i m pc v = Some r ->
    i < length ws ->
    S (length (sleeps (trace r))) = length (dispatches (trace r)).
Proof.
  intros [Hlive Hcalm] Hdelay.
  induction fuel as [|fuel IH]; intros i m pc v r Hrun Hi; [done|].
  cbn [runConcurrent] in Hrun.
  destruct (Nat.leb_spec (length ws) i); [lia|].
  rewrite Hlive in Hrun.
  destruct (allSettled _ _) as [batchResults|]; [|done].
  destruct (runConc4 fuel _ _ _ _ _ _ _ _) as [r'|] eqn:Hrec; [|done].
  injection Hrun as <-. cbn [emit trace app].
  match goal with
  | |- context [Dispatch ?q :: Display ?rows :: sleepIf ?c ?ms ++ ?t] =>
      destruct (iteration_events q rows c ms t) as (_ & -> & ->)
  end.
  destruct (Z.ltb_spec 0 (delayMs s)); [|lia].
  destruct (Nat.ltb_spec (i + nthreads) (length ws)) as [Hmore|Hlast].
  - simpl. f_equal. by eapply IH.
  - simpl.
    destruct fuel as [|fuel']; [done|].
    cbn [runConcurrent] in Hrec.
    destruct (Nat.leb_spec (length ws) (i + nthreads)); [|lia].
    by injection Hrec as <-.
Qed.

(** X13. The delay of a run: every pause lasts the configured delay,
    which is then positive, so a run without delay never pauses; there
    are never more pauses than dispatches; and a run that nobody cancels
    pauses between two dispatches only, not after the last. *)
Theorem X13_delay_between_dispatches s w v r :
  startFuzzing JSON_parse JSON_stringify s w v = Some r ->
  Forall (fun ms => ms = delayMs s /\ (0 < ms)%Z) (sleeps (trace r))
  /\ length (sleeps (trace r)) <= length (dispatches (trace r))
  /\ (no_cancellation w ->
      (0 < delayMs s)%Z ->
      dispatches (trace r) <> [] ->
      S (length (sleeps (trace r))) = length (dispatches (trace r))).
Proof.
  unfold startFuzzing. set (ws := parseWordlist (wordlistText s)).
  destruct (Nat.eqb_spec (length ws) 0) as [H0|Hlen].
  { intros [= <-]. simpl. split_and!; [constructor|lia|done]. }
  destruct (replacementMarker s) as [marker|].
  2:{ intros [= <-]. simpl. split_and!; [constructor|lia|done]. }
  set (v0 := setActiveTab TabResults
               (setProgressCount 0 (setResults [] (setIsRunning true v)))).
  destruct (Z.eqb_spec (threads s) 1) as [Hone|Hmany].
  - intros [= <-]. cbn [trace].
    destruct (runSequential_pauses s w (length ws) ws 0 v0) as [Hall Hle].
    split_and!; [done..|].
    intros Hcalm Hdelay _.
    apply (runSequential_calm_pauses s w ws Hcalm Hdelay 0 v0).
    by destruct ws.
  - destruct (runConc4 _ _ _ _ _ _ _ _ _) as [r0|] eqn:Hloop; [|done].
    intros [= <-]. cbn [trace].
    destruct (runConcurrent_pauses _ _ _ _ _ _ _ _ _ _ Hloop) as [Hall Hle].
    split_and!; [done..|].
    intros Hcalm Hdelay _.
    apply (runConcurrent_calm_pauses _ _ _ _ _ Hcalm Hdelay _ _ _ _ _ Hloop). lia.
Qed.

End DelayProperties.

Section DelayExamples.
Import JsString Headers Json Net Fuzzer Spec Samples Observed Scenarios.

Lemma X13_delay_between_dispatches_witness :
  exists r,
    startFuzzing reference_parse reference_stringify paced_inputs calm_world idle_view
    = Some r
    /\ length (dispatches (trace r)) = 3
    /\ S (length (sleeps (trace r))) = length (dispatches (trace r)).
Proof.
  destruct (startFuzzing reference_parse reference_stringify paced_inputs calm_world
              idle_view) as [r|] eqn:E; [|vm_compute in E; discriminate E].
  exists r. split; [reflexivity|].
  assert (Hthree : length (dispatches (trace r)) = 3).
  { vm_compute in E. by injection E as <-. }
  split; [exact Hthree|].
  destruct (X13_delay_between_dispatches reference_parse reference_stringify _ _ _ _ E)
    as (_ & _ & Hcalm).
  apply Hcalm.
  - apply calm_world_no_cancellation.
  - reflexivity.
  - intros Hnil. rewrite Hnil in Hthree. discriminate Hthree.
Defined.

End DelayExamples.

(** ** Tokens and words *)

Section TokenProperties.
Import JsString Tokenizer Shape.

Lemma alnum_facts (c : ascii) :
  is_alnum c = true ->
  word_break c = false
  /\ non_alnum c = false
  /\ (is_lower (lower_char c) || is_digit (lower_char c)) = true
  /\ c <> " "%char.
Proof.
  destruct c as [[] [] [] [] [] [] [] []]; vm_compute; intros H;
    try discriminate H; split_and!; congruence.
Qed.

Lemma non_alnum_false (c : ascii) : non_alnum c = false <-> is_alnum c = true.
Proof. unfold non_alnum. by destruct (is_alnum c). Qed.

(** The pieces of a split hold no separator, and together they are the
    text without its separators. *)
Lemma split_runs_chars_spec (sep : ascii -> bool) (l : list ascii) :
  forall in_sep cur,
    Forall (fun c => sep c = false) cur ->
    Forall (fun piece => Forall (fun c => sep c = false) (chars piece))
           (split_runs_chars sep in_sep cur l)
    /\ concat (map chars (split_runs_chars sep in_sep cur l))
       = (rev cur ++ filter (fun c => sep c = false) l)%list.
Proof.
  induction l as [|c l IH]; intros in_sep cur Hcur; cbn [split_runs_chars].
  - simpl. rewrite chars_str, !app_nil_r. split; [|done].
    constructor; [|done]. rewrite chars_str. by apply Forall_rev.
  - destruct (sep c) eqn:Hc.
    + rewrite filter_cons_False by (rewrite Hc; done).
      destruct in_sep.
      * by apply IH.
      * destruct (IH true [] (Forall_nil_2 _)) as [Hall Hcat]. split.
        -- constructor; [|done]. rewrite chars_str. by apply Forall_rev.
        -- simpl. by rewrite chars_str, Hcat.
    + rewrite filter_cons_True by done.
      destruct (IH false (c :: cur)) as [Hall Hcat]; [by constructor|].
      split; [done|]. rewrite Hcat. simpl. by rewrite <- app_assoc.
Qed.

Lemma concat_chars_nonempty (l : list string) :
  concat (map chars (filter (fun p => nonempty p = true) l)) = concat (map chars l).
Proof.
  induction l as [|p l IH]; [done|].
  destruct p as [|c p].
  - rewrite filter_cons_False by (simpl; done). simpl. exact IH.
  - rewrite filter_cons_True by done. simpl. by rewrite IH.
Qed.

Lemma camel_spaced_chars_pair a b l :
  camel_spaced_chars (a :: b :: l)
  = if (is_lower a || is_digit a) && is_upper b
    then a :: " "%char :: b :: camel_spaced_chars l
    else a :: camel_spaced_chars (b :: l).
Proof. reflexivity. Qed.

Lemma camel_spaced_chars_filter (n : nat) :
  forall l, length l <= n -> Forall (fun c => is_alnum c = true) l ->
            filter (fun c => word_break c = false) (camel_spaced_chars l) = l.
Proof.
  induction n as [|n IH]; intros l Hlen Hl.
  { destruct l; [done|simpl in Hlen; lia]. }
  destruct l as [|a [|b l]]; [done| |].
  - simpl. apply Forall_cons in Hl as [Ha _].
    destruct (alnum_facts a Ha) as (Hw & _).
    rewrite filter_cons_True by done. done.
  - apply Forall_cons in Hl as [Ha Hl]. pose proof Hl as Hbl.
    apply Forall_cons in Hl as [Hb Hl].
    destruct (alnum_facts a Ha) as (Hwa & _).
    destruct (alnum_facts b Hb) as (Hwb & _).
    rewrite camel_spaced_chars_pair.
    destruct ((is_lower a || is_digit a) && is_upper b).
    + rewrite filter_cons_True by done.
      rewrite filter_cons_False by (vm_compute; done).
      rewrite filter_cons_True by done.
      rewrite IH; [done| simpl in Hlen; lia | done].
    + rewrite filter_cons_True by done.
      rewrite IH; [done| simpl in Hlen |- *; lia | done].
Qed.

Lemma toLowerCase_chars s : chars (toLowerCase s) = map lower_char (chars s).
Proof. unfold toLowerCase. by rewrite chars_str. Qed.

Lemma concat_map_lower (l : list string) :
  concat (map chars (map toLowerCase l)) = map lower_char (concat (map chars l)).
Proof.
  induction l as [|p l IH]; [done|].
  simpl. by rewrite toLowerCase_chars, IH, map_app.
Qed.

(** The tokens of one piece of letters and digits. *)
Lemma piece_tokens piece :
  Forall (fun c => is_alnum c = true) (chars piece) ->
  let tokens := map toLowerCase
                    (filter (fun sub => nonempty sub = true)
                            (split_runs word_break (camel_spaced piece))) in
  Forall (fun t => t <> "" /\ Forall (fun c => (is_lower c || is_digit c) = true) (chars t))
         tokens
  /\ concat (map chars tokens) = map lower_char (chars piece).
Proof.
  intros Hpiece tokens. unfold tokens, split_runs, camel_spaced.
  rewrite chars_str.
  destruct (split_runs_chars_spec word_break (camel_spaced_chars (chars piece))
              false [] (Forall_nil_2 _)) as [Hall Hcat].
  simpl in Hcat. rewrite (camel_spaced_chars_filter _ _ (Nat.le_refl _) Hpiece) in Hcat.
  split.
  - apply Forall_forall. intros t Ht.
    apply list_elem_of_In, in_map_iff in Ht as (sub & <- & Hsub).
    apply list_elem_of_In, list_elem_of_filter in Hsub as [Hne Hsub].
    split.
    + intros Hempty. destruct sub; [done|]. discriminate Hempty.
    + rewrite toLowerCase_chars. apply Forall_forall. intros c Hc.
      apply list_elem_of_In, in_map_iff in Hc as (c0 & <- & Hc0).
      assert (Hin : c0 ∈ chars piece).
      { rewrite <- Hcat. apply list_elem_of_In, in_concat.
        exists (chars sub). split; [|done].
        apply in_map. by apply list_elem_of_In. }
      rewrite Forall_forall in Hpiece.
      by destruct (alnum_facts c0 (Hpiece _ Hin)) as (_ & _ & ? & _).
  - by rewrite concat_map_lower, concat_chars_nonempty, Hcat.
Qed.

Lemma splitWordsTokenize_spec token :
  Forall (fun t => t <> "" /\ Forall (fun c => (is_lower c || is_digit c) = true) (chars t))
         (splitWordsTokenize token)
  /\ concat (map chars (splitWordsTokenize token))
     = map lower_char (filter (fun c => is_alnum c = true) (chars token)).
Proof.
  unfold splitWordsTokenize. destruct (String.eqb_spec token "") as [->|_]; [done|].
  change (split_runs non_alnum token)
    with (split_runs_chars non_alnum false [] (chars token)).
  destruct (split_runs_chars_spec non_alnum (chars token) false [] (Forall_nil_2 _))
    as [Hall Hcat].
  simpl in Hcat.
  assert (Hfilter : filter (fun c => non_alnum c = false) (chars token)
                    = filter (fun c => is_alnum c = true) (chars token)).
  { apply list_filter_iff. intros c. apply non_alnum_false. }
  rewrite Hfilter in Hcat. rewrite <- Hcat.
  rewrite <- (concat_chars_nonempty (split_runs_chars non_alnum false [] (chars token))).
  assert (Hpieces : Forall (fun piece => Forall (fun c => is_alnum c = true) (chars piece))
                           (filter (fun piece => nonempty piece = true)
                                   (split_runs_chars non_alnum false [] (chars token)))).
  { apply Forall_forall. intros piece Hp. apply list_elem_of_filter in Hp as [_ Hp].
    rewrite Forall_forall in Hall. eapply Forall_impl; [by apply Hall|].
    intros c. apply non_alnum_false. }
  set (pieces := filter (fun piece => nonempty piece = true)
                        (split_runs_chars non_alnum false [] (chars token))) in *.
  clearbody pieces. clear Hall Hcat Hfilter.
  induction Hpieces as [|piece pieces Hpiece _ IH]; [done|].
  destruct (piece_tokens piece Hpiece) as [Htok Hcat'].
  destruct IH as [IH1 IH2].
  cbn [flat_map map concat]. split.
  - apply Forall_app. split; [exact Htok | exact IH1].
  - rewrite map_app, concat_app, Hcat', IH2, map_app. done.
Qed.

(** X14. The tokens of a word are never empty and hold only lower-case
    letters and digits; put together in order they are the letters and
    digits of the word in lower case, so that only separators are
    dropped. *)
Theorem X14_splitWordsTokenize_tokens token :
  Forall (fun t => t <> "" /\ Forall (fun c => (is_lower c || is_digit c) = true) (chars t))
         (splitWordsTokenize token)
  /\ concat (map chars (splitWordsTokenize token))
     = map lower_char (filter (fun c => is_alnum c = true) (chars token)).
Proof. exact (splitWordsTokenize_spec token). Qed.

Lemma addWord_union (set : gset string) w : addWord set w = addWord ∅ w ∪ set.
Proof.
  destruct (decide (w = "")) as [->|Hw]; [set_solver|].
  apply set_eq. intros x. rewrite elem_of_union, !addWord_elem by done. set_solver.
Qed.

(** X15. Adding a word only adds; what it adds does not depend on the
    words already there, so adding a word twice is adding it once and
    the order in which two words are added does not matter; the empty
    word adds nothing. *)
Theorem X15_addWord_algebra (set : gset string) (a b : string) :
  set ⊆ addWord set a
  /\ addWord set a = addWord ∅ a ∪ set
  /\ addWord (addWord set a) a = addWord set a
  /\ addWord (addWord set a) b = addWord (addWord set b) a
  /\ addWord set "" = set.
Proof.
  split_and!.
  - rewrite addWord_union. set_solver.
  - apply addWord_union.
  - rewrite (addWord_union (addWord set a)). rewrite (addWord_union set). set_solver.
  - rewrite (addWord_union (addWord set a)), (addWord_union (addWord set b)),
      (addWord_union set a), (addWord_union set b). set_solver.
  - done.
Qed.

End TokenProperties.

(** ** Harvesting words *)

Section HarvestProperties.
Import JsString Json Tokenizer Harvest Shape.

Lemma JSON_nested_ind (P : JSON -> Prop) :
  P JNull ->
  (forall b, P (JBool b)) ->
  (forall m e, P (JNum m e)) ->
  (forall s, P (JStr s)) ->
  (forall items, Forall P items -> P (JArr items)) ->
  (forall members, Forall (fun kv => P (snd kv)) members -> P (JObj members)) ->
  forall v, P v.
Proof.
  intros HN HB HNum HS HA HO. fix IH 1. intros [| b | m e | s | items | members].
  - exact HN.
  - apply HB.
  - apply HNum.
  - apply HS.
  - apply HA. revert items. fix IHl 1. intros [|v items].
    + constructor.
    + constructor; [apply IH | apply IHl].
  - apply HO. revert members. fix IHl 1. intros [|kv members].
    + constructor.
    + constructor; [apply IH | apply IHl].
Qed.

Lemma extract_items_cons v rest (set : gset string) :
  extractWordsFromJson (JArr (v :: rest)) set
  = extractWordsFromJson (JArr rest) (extractWordsFromJson v set).
Proof. reflexivity. Qed.

Lemma extract_members_cons kv rest (set : gset string) :
  extractWordsFromJson (JObj (kv :: rest)) set
  = if shadowed (fst kv) rest then extractWordsFromJson (JObj rest) set
    else extractWordsFromJson (JObj rest)
           (extractWordsFromJson (snd kv) (addWord set (fst kv))).
Proof. reflexivity. Qed.

Lemma extract_union value :
  forall set : gset string,
    extractWordsFromJson value set = extractWordsFromJson value ∅ ∪ set.
Proof.
  induction value as [| b | m e | s | items IH | members IH] using JSON_nested_ind;
    intros set.
  - set_solver.
  - set_solver.
  - set_solver.
  - apply addWord_union.
  - revert set. induction IH as [|v rest Hv _ IHrest]; intros set.
    + set_solver.
    + rewrite !extract_items_cons, IHrest, Hv, (IHrest (extractWordsFromJson v ∅)).
      set_solver.
  - revert set. induction IH as [|kv rest Hv _ IHrest]; intros set.
    + set_solver.
    + rewrite !extract_members_cons. destruct (shadowed (fst kv) rest); [apply IHrest|].
      rewrite IHrest, Hv, addWord_union.
      rewrite (IHrest (extractWordsFromJson (snd kv) (addWord ∅ (fst kv)))).
      rewrite (Hv (addWord ∅ (fst kv))). set_solver.
Qed.

(** X16. Harvesting a JSON value only adds words, and the words it
    adds do not depend on the words already there: harvesting a value
    twice is harvesting it once, and the order in which two values are
    harvested does not matter. *)
Theorem X16_extractWordsFromJson_adds (value value' : JSON) (set : gset string) :
  set ⊆ extractWordsFromJson value set
  /\ extractWordsFromJson value set = extractWordsFromJson value ∅ ∪ set
  /\ extractWordsFromJson value (extractWordsFromJson value set)
     = extractWordsFromJson value set
  /\ extractWordsFromJson value (extractWordsFromJson value' set)
     = extractWordsFromJson value' (extractWordsFromJson value set).
Proof.
  split_and!.
  - rewrite extract_union. set_solver.
  - apply extract_union.
  - rewrite (extract_union value (extractWordsFromJson value set)),
      (extract_union value set). set_solver.
  - rewrite (extract_union value (extractWordsFromJson value' set)),
      (extract_union value' (extractWordsFromJson value set)),
      (extract_union value set), (extract_union value' set). set_solver.
Qed.

Lemma find_snoc {A} (p : A -> bool) (l : list A) (x : A) :
  List.find p (l ++ [x])
  = match List.find p l with
    | Some y => Some y
    | None => if p x then Some x else None
    end.
Proof. induction l as [|y l IH]; simpl; [done|]. by destruct (p y). Qed.

Lemma field_cons k kv (rest : list (string * JSON)) :
  field k (kv :: rest)
  = match field k rest with
    | Some v => Some v
    | None => if String.eqb (fst kv) k then Some (snd kv) else None
    end.
Proof.
  unfold field. simpl rev. rewrite find_snoc.
  destruct (List.find _ (rev rest)); [done|]. by destruct (String.eqb (fst kv) k).
Qed.

Lemma shadowed_field k (rest : list (string * JSON)) :
  shadowed k rest = false <-> field k rest = None.
Proof.
  induction rest as [|kv rest IH]; [done|].
  rewrite field_cons. unfold shadowed in *. simpl.
  destruct (String.eqb (fst kv) k); simpl.
  - split; [done|]. by destruct (field k rest).
  - rewrite IH. by destruct (field k rest).
Qed.

Lemma occurs_items_cons t v (rest : list JSON) :
  occurs t (JArr (v :: rest)) <-> occurs t v \/ occurs t (JArr rest).
Proof.
  split.
  - inversion 1 as [|items v' Hin Hv| |]; subst.
    apply elem_of_cons in Hin as [->|Hin]; [by left|right].
    by eapply occurs_item.
  - intros [Hv|Hrest].
    + eapply occurs_item; [|exact Hv]. by left.
    + inversion Hrest as [|items v' Hin Hv| |]; subst.
      eapply occurs_item; [|exact Hv]. by right.
Qed.

Lemma occurs_members_cons t kv (rest : list (string * JSON)) :
  occurs t (JObj (kv :: rest))
  <-> occurs t (JObj rest)
      \/ (shadowed (fst kv) rest = false /\ (t = fst kv \/ occurs t (snd kv))).
Proof.
  split.
  - inversion 1 as [| |members v Hf|members k v Hf Hv]; subst.
    + rewrite field_cons in Hf. destruct (field t rest) as [v'|] eqn:Hrest.
      * left. by eapply occurs_name.
      * destruct (String.eqb_spec (fst kv) t) as [<-|]; [|done].
        right. split; [by apply shadowed_field | by left].
    + rewrite field_cons in Hf. destruct (field k rest) as [v'|] eqn:Hrest.
      * left. simplify_eq. by eapply occurs_member.
      * destruct (String.eqb_spec (fst kv) k) as [<-|]; [|done]. simplify_eq.
        right. split; [by apply shadowed_field | by right].
  - intros [Hrest|[Hlive Hhere]].
    + inversion Hrest as [| |members v Hf|members k v Hf Hv]; subst.
      * apply (occurs_name _ _ v). by rewrite field_cons, Hf.
      * apply (occurs_member _ _ k v); [|done]. by rewrite field_cons, Hf.
    + apply shadowed_field in Hlive.
      assert (Hf : field (fst kv) (kv :: rest) = Some (snd kv)).
      { by rewrite field_cons, Hlive, String.eqb_refl. }
      destruct Hhere as [->|Hv].
      * by eapply occurs_name.
      * by eapply occurs_member.
Qed.

(** What a value adds to the empty set. *)
Lemma extract_elem value :
  forall x, x ∈ extractWordsFromJson value ∅
            <-> exists t, occurs t value /\ x ∈ addWord ∅ t.
Proof.
  induction value as [| b | m e | s | items IH | members IH] using JSON_nested_ind;
    intros x.
  - split; [set_solver|]. intros (t & Ht & _). inversion Ht.
  - split; [set_solver|]. intros (t & Ht & _). inversion Ht.
  - split; [set_solver|]. intros (t & Ht & _). inversion Ht.
  - simpl. split.
    + intros Hx. exists s. split; [constructor|done].
    + intros (t & Ht & Hx). by inversion Ht; subst.
  - induction IH as [|v rest Hv _ IHrest].
    + split; [set_solver|]. intros (t & Ht & _).
      inversion Ht as [|items v Hin _| |]; subst. by apply elem_of_nil in Hin.
    + rewrite extract_items_cons, extract_union, elem_of_union, IHrest, Hv.
      setoid_rewrite occurs_items_cons. naive_solver.
  - induction IH as [|kv rest Hv _ IHrest].
    + split; [set_solver|]. intros (t & Ht & _).
      inversion Ht as [| |ms v Hf|ms k v Hf _]; subst; discriminate Hf.
    + rewrite extract_members_cons. setoid_rewrite occurs_members_cons.
      destruct (shadowed (fst kv) rest).
      * rewrite IHrest. naive_solver.
      * rewrite extract_union, elem_of_union, IHrest.
        rewrite extract_union, elem_of_union, Hv. naive_solver.
Qed.

(** X17. What harvesting a JSON value adds: for every string of the
    value and every name of a member, at any depth, its lower case and
    its tokens, and nothing else.  Numbers, booleans and [null] add
    nothing, and so does the empty string. *)
Theorem X17_extractWordsFromJson_words (value : JSON) (set : gset string) (x : string) :
  x ∈ extractWordsFromJson value set
  <-> x ∈ set
      \/ exists t, occurs t value /\ t <> ""
                   /\ (x = toLowerCase t \/ x ∈ splitWordsTokenize t).
Proof.
  rewrite extract_union, elem_of_union, extract_elem. split.
  - intros [(t & Ht & Hx)|Hx]; [right|by left].
    destruct (decide (t = "")) as [->|Hne]; [set_solver|].
    exists t. split_and!; [done..|]. apply addWord_elem in Hx; [|done]. set_solver.
  - intros [Hx|(t & Ht & Hne & Hx)]; [by right|left].
    exists t. split; [done|]. apply addWord_elem; [done|]. tauto.
Qed.

Lemma lower_char_facts (c : ascii) :
  lower_char (lower_char c) = lower_char c
  /\ ((is_lower c || is_digit c) = true -> lower_char c = c).
Proof. destruct c as [[] [] [] [] [] [] [] []]; vm_compute; split; congruence. Qed.

Lemma toLowerCase_idempotent s : toLowerCase (toLowerCase s) = toLowerCase s.
Proof.
  apply string_eq_chars. rewrite !toLowerCase_chars, map_map.
  apply map_ext. intros c. by destruct (lower_char_facts c).
Qed.

Lemma toLowerCase_nonempty s : s <> "" -> toLowerCase s <> "".
Proof.
  intros Hs Hlow. apply Hs. apply string_eq_chars.
  apply (f_equal chars) in Hlow. rewrite toLowerCase_chars in Hlow.
  by destruct (chars s).
Qed.

Lemma addWord_clean w : clean (addWord ∅ w).
Proof.
  intros x Hx. destruct (decide (w = "")) as [->|Hw]; [set_solver|].
  apply addWord_elem in Hx; [|done].
  destruct Hx as [->|[Hx|Hx]]; [| |set_solver].
  - split; [by apply toLowerCase_nonempty | apply toLowerCase_idempotent].
  - destruct (splitWordsTokenize_spec w) as [Hall _].
    rewrite Forall_forall in Hall. destruct (Hall x Hx) as [Hne Hchars].
    split; [done|]. apply string_eq_chars. rewrite toLowerCase_chars.
    rewrite <- (map_id (chars x)) at 2. apply map_ext_Forall.
    eapply Forall_impl; [exact Hchars|]. intros c. by destruct (lower_char_facts c).
Qed.

Lemma clean_union (s1 s2 : gset string) : clean s1 -> clean s2 -> clean (s1 ∪ s2).
Proof. intros H1 H2 x [Hx|Hx]%elem_of_union; auto. Qed.

Lemma foldl_addWord_union (ws : list string) :
  forall set : gset string, foldl addWord set ws = foldl addWord ∅ ws ∪ set.
Proof.
  induction ws as [|w ws IH]; intros set; [set_solver|].
  simpl. rewrite IH, (IH (addWord ∅ w)), (addWord_union set). set_solver.
Qed.

Lemma foldl_addWord_elem (ws : list string) (set : gset string) x :
  x ∈ foldl addWord set ws <-> x ∈ set \/ exists w, w ∈ ws /\ x ∈ addWord ∅ w.
Proof.
  revert set. induction ws as [|w ws IH]; intros set; simpl.
  - split; [by left|]. intros [?|(w & Hw & _)]; [done|]. by apply elem_of_nil in Hw.
  - rewrite IH, (addWord_union set), elem_of_union. split.
    + intros [[Hx|Hx]|(w' & Hw' & Hx)]; [right|by left|right].
      * exists w. split; [by left|done].
      * exists w'. split; [by right|done].
    + intros [Hx|(w' & Hw' & Hx)]; [by left; right|].
      apply elem_of_cons in Hw' as [->|Hw']; [by left; left|].
      right. by exists w'.
Qed.

(** X18. A word list without the empty word in which every word is its
    own lower case stays such a list when a word is added, when a JSON
    value is harvested and when a file is imported. *)
Theorem X18_wordlist_stays_clean (set : gset string) (w : string) (value : JSON)
        (text : string) :
  clean set ->
  clean (addWord set w)
  /\ clean (extractWordsFromJson value set)
  /\ clean (onImportWordlist set text).
Proof.
  intros Hset. split_and!.
  - rewrite addWord_union. apply clean_union; [apply addWord_clean | done].
  - intros x Hx. rewrite extract_union, elem_of_union, extract_elem in Hx.
    destruct Hx as [(t & _ & Hx)|Hx]; [by eapply addWord_clean | by apply Hset].
  - intros x Hx. unfold onImportWordlist in Hx. apply foldl_addWord_elem in Hx.
    destruct Hx as [Hx|(t & _ & Hx)]; [by apply Hset | by eapply addWord_clean].
Qed.

Lemma X18_wordlist_stays_clean_witness :
  clean (addWord ∅ "getUserData")
  /\ clean (extractWordsFromJson (JObj [("userName", JStr "Ada Lovelace")]) ∅).
Proof.
  destruct (X18_wordlist_stays_clean ∅ "getUserData"
              (JObj [("userName", JStr "Ada Lovelace")]) "") as (H1 & H2 & _).
  - intros x Hx. by apply elem_of_empty in Hx.
  - split; [exact H1 | exact H2].
Defined.

(** X19. Importing a file only adds words: for every line that is not
    blank the lower case of the trimmed line is in the list afterwards;
    a file of blank lines changes nothing; importing the same file a
    second time changes nothing. *)
Theorem X19_onImportWordlist_lines (set : gset string) (text : string) :
  set ⊆ onImportWordlist set text
  /\ (forall line, line ∈ split_lines text -> trim line <> "" ->
                   toLowerCase (trim line) ∈ onImportWordlist set text)
  /\ (Forall (fun line => trim line = "") (split_lines text) ->
      onImportWordlist set text = set)
  /\ onImportWordlist (onImportWordlist set text) text = onImportWordlist set text.
Proof.
  unfold onImportWordlist. split_and!.
  - rewrite foldl_addWord_union. set_solver.
  - intros line Hline Hne. apply foldl_addWord_elem. right.
    exists (trim line). split.
    + apply list_elem_of_filter. split.
      * unfold nonempty. by destruct (String.eqb_spec (trim line) "").
      * apply list_elem_of_In, in_map. by apply list_elem_of_In.
    + apply addWord_elem; [done|]. by left.
  - intros Hblank.
    assert (Hnone : filter (fun w => nonempty w = true) (map trim (split_lines text)) = []).
    { induction Hblank as [|line lines Hline _ IH]; [done|].
      simpl. rewrite filter_cons_False; [done|]. by rewrite Hline. }
    by rewrite Hnone.
  - rewrite (foldl_addWord_union _ (foldl _ _ _)), (foldl_addWord_union _ set).
    set_solver.
Qed.

End HarvestProperties.

(** ** The forwarding proxy *)

Section ProxyReplies.
Import JsString Headers Json Net Proxy Replies Samples.
Variable JSON_parse : string -> string + JSON.
Variable JSON_stringify : JSON -> string.

#[local] Abbreviation plain := (handler JSON_parse JSON_stringify).
#[local] Abbreviation traced := (traced_handler JSON_parse JSON_stringify).

Lemma guards_dec req :
  is_forward req
  \/ (~ is_forward req
      /\ ((String.eqb (in_method req) "OPTIONS" = true)
          \/ (String.eqb (in_method req) "OPTIONS" = false
              /\ String.eqb (in_method req) "POST" = false)
          \/ (String.eqb (in_method req) "OPTIONS" = false
              /\ String.eqb (in_method req) "POST" = true
              /\ String.eqb (in_url req) "/forward" = false))).
Proof.
  unfold is_forward.
  destruct (String.eqb_spec (in_method req) "OPTIONS") as [Ho|Ho].
  { right. rewrite Ho. split; [|by left]. by intros [? _]. }
  destruct (String.eqb_spec (in_method req) "POST") as [Hp|Hp].
  - destruct (String.eqb_spec (in_url req) "/forward") as [Hu|Hu].
    + by left.
    + right. split; [by intros [_ ?]|]. right. right. done.
  - right. split; [by intros [? _]|]. right. left. done.
Qed.

(** X20. A request that is not a POST to /forward is answered without
    its body being read and without a call to the target: the reply
    depends on the method and the path only, OPTIONS gets 204, another
    method 405, another path 404, and both versions of the proxy answer
    alike. *)
Theorem X20_proxy_guards upstream upstream' req req' :
  ~ is_forward req ->
  in_method req' = in_method req ->
  in_url req' = in_url req ->
  plain upstream' req' = plain upstream req
  /\ traced upstream req = plain upstream req
  /\ plain upstream req
     = Some (if String.eqb (in_method req) "OPTIONS"
             then {| reply_status := 204; reply_contentType := None;
                     reply_payload := None |}
             else if String.eqb (in_method req) "POST"
                  then jsonReply 404 (JObj [("error", JStr "Not Found")])
                  else jsonReply 405 (JObj [("error", JStr "Method Not Allowed")])).
Proof.
  intros Hnot Hm Hu. unfold handler, traced_handler. rewrite Hm, Hu.
  destruct (guards_dec req) as [?|[_ [Ho|[[Ho Hp]|(Ho & Hp & Hpath)]]]]; [done|..].
  - by rewrite Ho.
  - by rewrite Ho, Hp.
  - by rewrite Ho, Hp, Hpath.
Qed.

Lemma well_replied_error code msg :
  code ∈ [404; 405; 500]%Z ->
  well_replied (jsonReply code (JObj [("error", JStr msg)])).
Proof.
  intros Hcode. right. exists code, [("error", JStr msg)].
  split_and!; [done|set_solver|].
  split; [|by eexists]. intros _ ->. set_solver.
Qed.

(** X21. The replies of the proxy.  The traced proxy always replies;
    the plain one fails to reply exactly when the target stays silent.
    Every reply of either is 204 without content or a JSON object with
    status 200, 404, 405 or 500 that has a member [error] exactly when
    the status is not 200. *)
Theorem X21_proxy_replies upstream req :
  is_Some (traced upstream req)
  /\ (plain upstream req = None
      <-> is_forward req
          /\ exists args, forwardArgs JSON_parse JSON_stringify req = inr args
                          /\ upstream args = UpstreamSilent)
  /\ (forall reply,
         plain upstream req = Some reply \/ traced upstream req = Some reply ->
         well_replied reply).
Proof.
  destruct (guards_dec req) as [Hfwd|[Hnot Hguard]].
  - destruct (is_forward_guards req Hfwd) as (Ho & Hp & Hu).
    unfold handler, traced_handler. rewrite Ho, Hp, Hu. simpl negb. cbn iota.
    split_and!.
    + destruct (traced_forwardArgs _ _ req) as [e|args]; [by eexists|].
      destruct (upstream args); by eexists.
    + split.
      * intros Hnone. split; [done|].
        destruct (forwardArgs _ _ req) as [e|args]; [done|].
        exists args. split; [done|]. by destruct (upstream args).
      * intros (_ & args & -> & ->). done.
    + intros reply [Hreply|Hreply].
      * destruct (forwardArgs _ _ req) as [e|args].
        { injection Hreply as <-. apply well_replied_error. set_solver. }
        destruct (upstream args) as [e|r|]; [| |done]; injection Hreply as <-.
        { apply well_replied_error. set_solver. }
        right. eexists 200%Z, _. split_and!; [reflexivity|set_solver|].
        split; [|done]. vm_compute. by intros [? [=]].
      * assert (Herr : forall e, well_replied (traced_errorReply e)).
        { intros e. right. eexists 500%Z, _. split_and!; [reflexivity|set_solver|].
          split; [done|]. intros _. by eexists. }
        destruct (traced_forwardArgs _ _ req) as [e|args].
        { injection Hreply as <-. apply Herr. }
        destruct (upstream args) as [e|r|]; injection Hreply as <-; [apply Herr| |apply Herr].
        right. eexists 200%Z, _. split_and!; [reflexivity|set_solver|].
        split; [|done]. vm_compute. by intros [? [=]].
  - assert (Hsame : traced upstream req = plain upstream req
                    /\ exists reply, plain upstream req = Some reply /\ well_replied reply).
    { unfold handler, traced_handler.
      destruct Hguard as [Ho|[[Ho Hp]|(Ho & Hp & Hpath)]].
      - rewrite Ho. split; [done|]. eexists. split; [done|]. by left.
      - rewrite Ho, Hp. split; [done|]. eexists. split; [done|].
        apply well_replied_error. set_solver.
      - rewrite Ho, Hp, Hpath. split; [done|]. eexists. split; [done|].
        apply well_replied_error. set_solver. }
    destruct Hsame as (Hsame & reply & Hreply & Hwell). rewrite Hsame, Hreply.
    split_and!.
    + by eexists.
    + split; [done|]. by intros [? _].
    + intros reply' [[= <-]|[= <-]]; done.
Qed.

(** X22. A POST to /forward whose payload has no truthy [url] or
    [targetUrl] is answered with status 500 and the error
    [Missing url], whatever the target would do: it is never called. *)
Theorem X22_proxy_missing_url upstream req raw members :
  is_forward req ->
  in_body req = inr raw ->
  JSON_parse (if String.eqb raw "" then "{}" else raw) = inr (JObj members) ->
  is_falsy (or_else (field "url" members) (field "targetUrl" members)) = true ->
  plain upstream req = Some (jsonReply 500 (JObj [("error", JStr "Missing url")]))
  /\ traced upstream req
     = Some (traced_errorReply {| name := "Error"; message := "Missing url" |})
  /\ forwardArgs JSON_parse JSON_stringify req = throw "Error" "Missing url".
Proof.
  intros Hfwd Hbody Hparse Hmissing.
  destruct (is_forward_guards req Hfwd) as (Ho & Hp & Hu).
  assert (Hread : readPayload JSON_parse req = throw "Error" "Missing url").
  { unfold readPayload. rewrite Hbody. cbn [bind]. rewrite Hparse. cbn [bind prop].
    by rewrite Hmissing. }
  unfold handler, traced_handler, forwardArgs, traced_forwardArgs.
  rewrite Ho, Hp, Hu, Hread. done.
Qed.

(** What a request that is forwarded carries. *)
Lemma readPayload_inv req payload target m headers :
  readPayload JSON_parse req = inr (payload, target, m, headers) ->
  exists raw members,
    in_body req = inr raw
    /\ JSON_parse (if String.eqb raw "" then "{}" else raw) = inr (JObj members)
    /\ payload = JObj members
    /\ Some target = or_else (field "url" members) (field "targetUrl" members)
    /\ truthy target = true
    /\ Some m = or_else (field "method" members) (Some (JStr "POST"))
    /\ truthy m = true
    /\ Some headers = or_else (field "headers" members) (Some (JObj []))
    /\ truthy headers = true.
Proof.
  unfold readPayload. destruct (in_body req) as [e|raw]; [done|]. cbn [bind].
  destruct (JSON_parse _) as [msg|p] eqn:Hparse; [done|]. cbn [bind].
  assert (Hobj : forall (a : option JSON) (b : JSON),
             exists v, or_else a (Some b) = Some v
                       /\ (truthy b = true -> truthy v = true)).
  { intros [a|] b; simpl; [|by eauto]. destruct (truthy a) eqn:Ha; eauto. }
  destruct p as [| b | n e | s | items | members]; [done|..]; cbn [bind prop throw].
  1-4: by cbn.
  destruct (or_else (field "url" members) (field "targetUrl" members))
    as [t|] eqn:Htarget; [|done].
  cbn [is_falsy]. destruct (truthy t) eqn:Ht; [|done]. cbn [negb].
  destruct (Hobj (field "method" members) (JStr "POST")) as (m0 & Hm0 & Hm0t).
  destruct (Hobj (field "headers" members) (JObj [])) as (h0 & Hh0 & Hh0t).
  rewrite Hm0, Hh0. cbn [default]. intros [= <- <- <- <-].
  exists raw, members. split_and!; auto.
Qed.

Lemma prepareBody_inv members headers h out :
  prepareBody JSON_stringify (JObj members) headers = inr (h, out) ->
  match field "body" members with
  | Some (JStr b) => h = headers /\ out = Some b
  | Some v => out = Some (JSON_stringify v)
  | None => h = headers /\ out = None
  end.
Proof.
  unfold prepareBody, bind, prop. intros H.
  repeat (case_match; simplify_eq/=); done.
Qed.

(** X23. Whatever is forwarded comes from a payload that parsed to an
    object.  It has a truthy target, taken from [url] and else from
    [targetUrl], and a truthy method, POST unless the payload names
    one.  A string body is forwarded as it is with the
    headers as given, and no body when the payload has none. *)
Theorem X23_proxy_forwarded req args :
  forwardArgs JSON_parse JSON_stringify req = inr args ->
  exists raw members,
    in_body req = inr raw
    /\ JSON_parse (if String.eqb raw "" then "{}" else raw) = inr (JObj members)
    /\ Some (targetUrl args) = or_else (field "url" members) (field "targetUrl" members)
    /\ truthy (targetUrl args) = true
    /\ Some (method args) = or_else (field "method" members) (Some (JStr "POST"))
    /\ truthy (method args) = true
    /\ (forall b, field "body" members = Some (JStr b) ->
                  fwd_body args = Some b
                  /\ Some (fwd_headers args)
                     = or_else (field "headers" members) (Some (JObj [])))
    /\ (field "body" members = None ->
        fwd_body args = None
        /\ Some (fwd_headers args) = or_else (field "headers" members) (Some (JObj [])))
    /\ (forall v, field "body" members = Some v -> not_string v ->
                  fwd_body args = Some (JSON_stringify v)).
Proof.
  unfold forwardArgs.
  destruct (readPayload JSON_parse req) as [e|[[[payload target] m] headers]] eqn:Hread;
    [done|].
  cbn [bind].
  destruct (readPayload_inv _ _ _ _ _ Hread)
    as (raw & members & Hraw & Hparse & -> & Htarget & Htt & Hm & Hmt & Hh & _).
  destruct (prepareBody _ (JObj members) headers) as [e|[h out]] eqn:Hprep; [done|].
  cbn [bind fst snd]. intros [= <-]. cbn [targetUrl method fwd_body fwd_headers].
  apply prepareBody_inv in Hprep.
  exists raw, members. split_and!; auto.
  - intros b Hb. rewrite Hb in Hprep. destruct Hprep as [-> ->]. done.
  - intros Hb. rewrite Hb in Hprep. destruct Hprep as [-> ->]. done.
  - intros v Hb Hv. rewrite Hb in Hprep. by destruct v.
Qed.

Lemma find_rev_filter {A} (p : A -> bool) (Q : A -> Prop) `{!forall x, Decision (Q x)}
      (l : list A) :
  (forall x, p x = true -> Q x) ->
  List.find p (rev (filter Q l)) = List.find p (rev l).
Proof.
  intros HpQ. induction l as [|x l IH]; [done|].
  simpl rev. rewrite find_snoc, <- IH.
  destruct (decide (Q x)) as [Hx|Hx].
  - rewrite filter_cons_True by done. simpl rev. by rewrite find_snoc.
  - rewrite filter_cons_False by done.
    destruct (p x) eqn:Hpx; [by apply HpQ in Hpx|].
    by destruct (List.find p (rev (filter Q l))).
Qed.

(** Reading a header after [headers[k'] = v]. *)
Lemma field_header_set k k' v (ms : list (string * JSON)) :
  field k (filter (fun kv => fst kv <> k') ms ++ [(k', v)])
  = if decide (k = k') then Some v else field k ms.
Proof.
  unfold field. rewrite rev_unit. simpl List.find.
  destruct (String.eqb_spec k' k) as [->|Hne].
  - by rewrite decide_True.
  - rewrite decide_False by done. f_equal. apply find_rev_filter.
    intros [k0 v0]. simpl. intros Heq%String.eqb_eq. by subst.
Qed.

(** X24. A body that is not a string is forwarded as its JSON text.
    On the way the proxy adds a Content-Length with the byte length of
    that text and a JSON Content-Type when the caller gave neither
    spelling of them; it never replaces a header the caller gave and
    touches no other header. *)
Theorem X24_proxy_object_body members hs v :
  field "body" members = Some v ->
  not_string v ->
  exists hs',
    prepareBody JSON_stringify (JObj members) (JObj hs)
    = inr (JObj hs', Some (JSON_stringify v))
    /\ (forall k x, field k hs = Some x -> truthy x = true -> field k hs' = Some x)
    /\ (forall k, k <> "Content-Length" -> k <> "Content-Type" ->
                  field k hs' = field k hs)
    /\ (is_falsy (field "content-length" hs) = true ->
        is_falsy (field "Content-Length" hs) = true ->
        field "Content-Length" hs' = Some (JNum (byteLength (JSON_stringify v)) 0))
    /\ (is_falsy (field "content-type" hs) = true ->
        is_falsy (field "Content-Type" hs) = true ->
        field "Content-Type" hs' = Some (JStr "application/json")).
Proof.
  intros Hbody Hv.
  set (out := JSON_stringify v).
  set (c1 := is_falsy (field "content-length" hs) && is_falsy (field "Content-Length" hs)).
  set (hs1 := if c1
              then (filter (fun kv => fst kv <> "Content-Length") hs
                      ++ [("Content-Length", JNum (byteLength out) 0)])%list
              else hs).
  set (c2 := is_falsy (field "content-type" hs1) && is_falsy (field "Content-Type" hs1)).
  set (hs2 := if c2
              then (filter (fun kv => fst kv <> "Content-Type") hs1
                      ++ [("Content-Type", JStr "application/json")])%list
              else hs1).
  assert (Hprep : prepareBody JSON_stringify (JObj members) (JObj hs)
                  = inr (JObj hs2, Some out)).
  { unfold prepareBody. cbn [prop bind]. rewrite Hbody.
    destruct v; [| | |done| |]; cbn [header_prop]; fold out; fold c1;
      unfold hs2, c2, hs1; destruct c1; cbn [header_set bind header_prop];
      match goal with |- context [is_falsy ?a && is_falsy ?b] =>
        destruct (is_falsy a && is_falsy b) end; reflexivity. }
  assert (H1 : forall k, field k hs1
                         = if c1 && bool_decide (k = "Content-Length")
                           then Some (JNum (byteLength out) 0) else field k hs).
  { intros k. unfold hs1. destruct c1; [|done]. rewrite field_header_set.
    simpl. by case_bool_decide; [rewrite decide_True|rewrite decide_False]. }
  assert (H2 : forall k, field k hs2
                         = if c2 && bool_decide (k = "Content-Type")
                           then Some (JStr "application/json") else field k hs1).
  { intros k. unfold hs2. destruct c2; [|done]. rewrite field_header_set.
    simpl. by case_bool_decide; [rewrite decide_True|rewrite decide_False]. }
  assert (Hc2 : c2 = is_falsy (field "content-type" hs)
                     && is_falsy (field "Content-Type" hs)).
  { unfold c2. rewrite !H1. rewrite !bool_decide_eq_false_2 by done.
    by rewrite !andb_false_r. }
  exists hs2. split; [exact Hprep|]. split_and!.
  - intros k x Hk Hx. rewrite H2, H1.
    destruct (bool_decide_reflect (k = "Content-Type")) as [->|_].
    + rewrite Hc2, Hk. simpl. rewrite Hx. simpl. rewrite andb_false_r.
      by rewrite andb_false_r.
    + rewrite andb_false_r.
      destruct (bool_decide_reflect (k = "Content-Length")) as [->|_].
      * unfold c1. rewrite Hk. simpl. rewrite Hx. simpl. by rewrite andb_false_r.
      * by rewrite andb_false_r.
  - intros k Hl Ht. rewrite H2, H1.
    by rewrite !bool_decide_eq_false_2, !andb_false_r by done.
  - intros Ha Hb. rewrite H2, H1.
    rewrite (bool_decide_eq_false_2 ("Content-Length" = "Content-Type")) by done.
    rewrite andb_false_r. unfold c1. by rewrite Ha, Hb.
  - intros Ha Hb. rewrite H2, Hc2, Ha, Hb. done.
Qed.

End ProxyReplies.

Section ProxyReplyExamples.
Import JsString Headers Json Net Proxy Replies Samples.

Lemma X20_proxy_guards_witness :
  handler reference_parse reference_stringify target_refuses
          {| in_method := "GET"; in_url := "/forward"; in_body := inr "" |}
  = Some (jsonReply 405 (JObj [("error", JStr "Method Not Allowed")])).
Proof.
  destruct (X20_proxy_guards reference_parse reference_stringify
              target_refuses target_refuses
              {| in_method := "GET"; in_url := "/forward"; in_body := inr "" |}
              {| in_method := "GET"; in_url := "/forward"; in_body := inr "" |})
    as (_ & _ & H).
  - intros [H _]. discriminate H.
  - reflexivity.
  - reflexivity.
  - exact H.
Defined.

Lemma X22_proxy_missing_url_witness :
  handler reference_parse reference_stringify target_answers_404
          {| in_method := "POST"; in_url := "/forward"; in_body := inr "" |}
  = Some (jsonReply 500 (JObj [("error", JStr "Missing url")])).
Proof.
  destruct (X22_proxy_missing_url reference_parse reference_stringify target_answers_404
              {| in_method := "POST"; in_url := "/forward"; in_body := inr "" |}
              "" []) as (H & _).
  - by split.
  - reflexivity.
  - reflexivity.
  - reflexivity.
  - exact H.
Defined.

Lemma X23_proxy_forwarded_witness :
  exists args,
    forwardArgs reference_parse reference_stringify forward_request = inr args
    /\ truthy (targetUrl args) = true
    /\ truthy (method args) = true.
Proof.
  destruct (forwardArgs reference_parse reference_stringify forward_request)
    as [e|args] eqn:E; [vm_compute in E; discriminate E|].
  exists args. split; [reflexivity|].
  destruct (X23_proxy_forwarded reference_parse reference_stringify _ _ E)
    as (raw & members & _ & _ & _ & Ht & _ & Hm & _).
  split; [exact Ht | exact Hm].
Defined.

Lemma X24_proxy_object_body_witness :
  exists hs',
    prepareBody reference_stringify
                (JObj [("url", JStr "http://target.tld/graphql");
                       ("body", JObj [("query", JStr "{ me }")])])
                (JObj [("content-type", JStr "application/graphql+json")])
    = inr (JObj hs', Some (reference_stringify (JObj [("query", JStr "{ me }")])))
    /\ field "content-type" hs' = Some (JStr "application/graphql+json")
    /\ field "Content-Type" hs' = None.
Proof.
  destruct (X24_proxy_object_body reference_stringify
              [("url", JStr "http://target.tld/graphql");
               ("body", JObj [("query", JStr "{ me }")])]
              [("content-type", JStr "application/graphql+json")]
              (JObj [("query", JStr "{ me }")]))
    as (hs' & Hprep & Hkeep & Hframe & _).
  - reflexivity.
  - exact I.
  - exists hs'. split; [exact Hprep|]. split.
    + apply Hkeep; reflexivity.
    + vm_compute in Hprep. by injection Hprep as <-.
Defined.

End ProxyReplyExamples.

Section FlattenProperties.
Import JsString Headers Json Net Proxy Replies Samples.

Lemma flattenHeaders_step (out : HeaderMap) (kv : string * HeaderValue) :
  match snd kv with
  | HvMany vs => assign (fst kv) (join ", " vs) out
  | HvOne v => assign (fst kv) v out
  | HvUndefined => out
  end
  = match flattened (snd kv) with
    | Some s => assign (fst kv) s out
    | None => out
    end.
Proof. by destruct (snd kv). Qed.

Lemma flatten_fold (hs : list (string * HeaderValue)) k v :
  NoDup (map fst hs) ->
  forall acc : HeaderMap,
    foldl (fun out kv =>
             match snd kv with
             | HvMany vs => assign (fst kv) (join ", " vs) out
             | HvOne v => assign (fst kv) v out
             | HvUndefined => out
             end) acc hs !! k = Some v
    <-> (k <> "__proto__" /\ exists hv, (k, hv) ∈ hs /\ flattened hv = Some v)
        \/ (acc !! k = Some v
            /\ (k = "__proto__" \/ forall hv, (k, hv) ∈ hs -> flattened hv = None)).
Proof.
  induction hs as [|[k' hv'] hs IH]; intros Hnd acc.
  { simpl. split.
    - intros H. right. split; [done|]. right. intros hv Hin. by apply elem_of_nil in Hin.
    - intros [(_ & hv & Hin & _)|[H _]]; [by apply elem_of_nil in Hin | done]. }
  apply NoDup_cons in Hnd as [Hfresh Hnd].
  assert (Hother : forall hv, (k', hv) ∈ hs -> False).
  { intros hv Hin. simpl in Hfresh. apply Hfresh. apply list_elem_of_In.
    apply in_map_iff. exists (k', hv). split; [done|]. by apply list_elem_of_In. }
  cbn [foldl]. rewrite flattenHeaders_step. cbn [fst snd].
  rewrite (IH Hnd). unfold assign.
  setoid_rewrite elem_of_cons.
  destruct (flattened hv') as [s|] eqn:Hflat.
  - destruct (decide (k' = "__proto__")) as [->|Hproto].
    + split.
      * intros [(Hk & hv & Hin & Hv)|(Hacc & Hrest)]; [left; naive_solver|].
        right. split; [done|]. destruct Hrest as [->|Hrest]; [by left|].
        destruct (decide (k = "__proto__")) as [->|Hk]; [by left|].
        right. intros hv [[= -> ->]|Hin]; [done|by apply Hrest].
      * intros [(Hk & hv & [[= -> ->]|Hin] & Hv)|(Hacc & Hrest)]; [done|left; naive_solver|].
        right. split; [done|]. destruct Hrest as [->|Hrest]; [by left|].
        right. intros hv Hin. apply Hrest. by right.
    + destruct (decide (k = k')) as [->|Hk].
      * rewrite lookup_insert_eq. split.
        -- intros [(_ & hv & Hin & _)|([= <-] & _)]; [by apply Hother in Hin|].
           left. split; [done|]. exists hv'. split; [by left|done].
        -- intros [(_ & hv & [[= <-]|Hin] & Hv)|(_ & [->|Hrest])].
           ++ right. split; [congruence|]. right. intros hv0 Hin. by apply Hother in Hin.
           ++ by apply Hother in Hin.
           ++ done.
           ++ rewrite (Hrest hv') in Hflat by (by left). done.
      * rewrite lookup_insert_ne by done. split.
        -- intros [(Hp & hv & Hin & Hv)|(Hacc & Hrest)]; [left; naive_solver|].
           right. split; [done|]. destruct Hrest as [->|Hrest]; [by left|].
           right. intros hv [[= -> ->]|Hin]; [done|by apply Hrest].
        -- intros [(Hp & hv & [[= -> ->]|Hin] & Hv)|(Hacc & Hrest)];
             [done|left; naive_solver|].
           right. split; [done|]. destruct Hrest as [->|Hrest]; [by left|].
           right. intros hv Hin. apply Hrest. by right.
  - split.
    + intros [(Hp & hv & Hin & Hv)|(Hacc & Hrest)]; [left; naive_solver|].
      right. split; [done|]. destruct Hrest as [->|Hrest]; [by left|].
      right. intros hv [[= -> ->]|Hin]; [done|by apply Hrest].
    + intros [(Hp & hv & [[= -> ->]|Hin] & Hv)|(Hacc & Hrest)];
        [congruence|left; naive_solver|].
      right. split; [done|]. destruct Hrest as [->|Hrest]; [by left|].
      right. intros hv Hin. apply Hrest. by right.
Qed.

(** X25. The headers of the envelope.  For the headers of a response,
    whose names are distinct, the envelope has a header exactly for the
    names that have a value: a single value as it is, a list of values
    joined by a comma and a space; a name without a value is left out. *)
Theorem X25_flattenHeaders_lookup (hs : list (string * HeaderValue)) k v :
  NoDup (map fst hs) ->
  flattenHeaders hs !! k = Some v
  <-> k <> "__proto__" /\ exists hv, (k, hv) ∈ hs /\ flattened hv = Some v.
Proof.
  intros Hnd. unfold flattenHeaders. rewrite (flatten_fold hs k v Hnd ∅).
  rewrite lookup_empty. naive_solver.
Qed.

End FlattenProperties.

Section FlattenExamples.
Import JsString Headers Json Net Proxy Replies Samples.

Lemma X25_flattenHeaders_lookup_witness :
  flattenHeaders (up_headers not_found) !! "set-cookie" = Some "a=1, b=2".
Proof.
  apply (X25_flattenHeaders_lookup (up_headers not_found) "set-cookie" "a=1, b=2").
  - simpl. repeat constructor; set_solver.
  - split; [done|]. exists (HvMany ["a=1"; "b=2"]). split; [|reflexivity].
    simpl. set_solver.
Defined.

End FlattenExamples.

(** ** The two number inputs *)

Section InputProperties.
Import JsString Json Fuzzer.

Lemma digit_char_facts (c : ascii) :
  is_digit c = true ->
  is_space c = false
  /\ Ascii.eqb c "-" = false
  /\ Ascii.eqb c "+" = false
  /\ Ascii.eqb c "x" = false
  /\ Ascii.eqb c "X" = false
  /\ digit_of 10 c = Some (code c - 48).
Proof.
  destruct c as [[] [] [] [] [] [] [] []]; vm_compute; intros H;
    try discriminate H; split_and!; reflexivity.
Qed.

Lemma pretty_N_char_digit (d : N) :
  (d < 10)%N ->
  is_digit (pretty_N_char d) = true
  /\ code (pretty_N_char d) - 48 = N.to_nat d.
Proof.
  intros Hd.
  assert (d = 0 \/ d = 1 \/ d = 2 \/ d = 3 \/ d = 4 \/ d = 5 \/ d = 6 \/ d = 7
          \/ d = 8 \/ d = 9)%N as Hcases by lia.
  repeat (destruct Hcases as [->|Hcases]; [by vm_compute|]). subst. by vm_compute.
Qed.

Lemma pretty_N_go_chars (x : N) :
  forall s, chars (pretty_N_go x s) = (chars (pretty_N_go x "") ++ chars s)%list.
Proof.
  induction (N.lt_wf_0 x) as [x _ IH]; intros s.
  destruct (decide (x = 0)%N) as [->|Hx].
  { by rewrite !pretty_N_go_0. }
  rewrite !(pretty_N_go_step x) by lia.
  rewrite IH by (apply N.div_lt; lia).
  rewrite (IH (x `div` 10)%N ltac:(apply N.div_lt; lia) (String _ "")).
  by rewrite <- app_assoc.
Qed.

Lemma parse_digits_snoc (l : list ascii) (c : ascii) (acc : option Z) :
  Forall (fun c => is_digit c = true) l ->
  is_digit c = true ->
  parse_digits 10 acc (l ++ [c])
  = Some (10 * default 0%Z (parse_digits 10 acc l) + Z.of_nat (code c - 48))%Z.
Proof.
  intros Hl Hc. revert acc. induction Hl as [|a l Ha _ IH]; intros acc.
  - simpl. destruct (digit_char_facts c Hc) as (_ & _ & _ & _ & _ & ->). done.
  - simpl. destruct (digit_char_facts a Ha) as (_ & _ & _ & _ & _ & ->). apply IH.
Qed.

(** The digits of a positive number read back as the number. *)
Lemma pretty_N_go_digits (x : N) :
  (0 < x)%N ->
  chars (pretty_N_go x "") <> []
  /\ Forall (fun c => is_digit c = true) (chars (pretty_N_go x ""))
  /\ parse_digits 10 None (chars (pretty_N_go x "")) = Some (Z.of_N x).
Proof.
  induction (N.lt_wf_0 x) as [x _ IH]. intros Hx.
  rewrite pretty_N_go_step, pretty_N_go_chars by done.
  destruct (pretty_N_char_digit (x `mod` 10)) as [Hd Hv]; [by apply N.mod_lt|].
  change (chars (String (pretty_N_char (x `mod` 10)) ""))
    with [pretty_N_char (x `mod` 10)].
  assert (Hprefix : Forall (fun c => is_digit c = true) (chars (pretty_N_go (x `div` 10) ""))
                    /\ default 0%Z (parse_digits 10 None (chars (pretty_N_go (x `div` 10) "")))
                       = Z.of_N (x `div` 10)).
  { destruct (decide (x `div` 10 = 0)%N) as [->|Hq].
    - rewrite pretty_N_go_0. by split.
    - destruct (IH (x `div` 10)%N) as (_ & Hall & Hval);
        [apply N.div_lt; lia | by apply N.neq_0_lt_0 |].
      split; [done|]. by rewrite Hval. }
  destruct Hprefix as [Hall Hval]. split_and!.
  - by destruct (chars (pretty_N_go (x `div` 10) "")).
  - apply Forall_app. split; [done|]. by constructor.
  - rewrite parse_digits_snoc by done. rewrite Hval, Hv. f_equal.
    rewrite N_nat_Z. pose proof (N.div_mod x 10). lia.
Qed.

(** [parseInt] on a run of decimal digits. *)
Lemma parseInt_digits (l : list ascii) (negative : bool) :
  l <> [] ->
  Forall (fun c => is_digit c = true) l ->
  parseInt (str ((if negative then ["-"%char] else []) ++ l))
  = option_map (fun n => if negative then (- n)%Z else n) (parse_digits 10 None l).
Proof.
  intros Hne Hl. unfold parseInt. rewrite chars_str.
  destruct l as [|z l]; [done|]. apply Forall_cons in Hl as [Hz Hl].
  destruct (digit_char_facts z Hz) as (Hsp & Hminus & Hplus & _).
  assert (Hradix : (match z :: l with
                    | z0 :: x :: l' =>
                        if Ascii.eqb z0 "0" && (Ascii.eqb x "x" || Ascii.eqb x "X")
                        then (16, l') else (10, z :: l)
                    | _ => (10, z :: l)
                    end) = (10, z :: l)).
  { destruct l as [|x l']; [done|]. apply Forall_cons in Hl as [Hx _].
    destruct (digit_char_facts x Hx) as (_ & _ & _ & -> & -> & _).
    by rewrite andb_false_r. }
  destruct negative; simpl app.
  - cbn [trimStart_chars]. change (is_space "-") with false. cbn iota.
    change (Ascii.eqb "-" "-") with true. cbn iota. by rewrite Hradix.
  - cbn [trimStart_chars]. rewrite Hsp, Hminus, Hplus. by rewrite Hradix.
Qed.

Lemma parseInt_pretty (n : Z) : parseInt (pretty n) = Some n.
Proof.
  destruct n as [|p|p].
  - reflexivity.
  - change (pretty (Z.pos p)) with (pretty_N_go (N.pos p) "").
    destruct (pretty_N_go_digits (N.pos p)) as (Hne & Hall & Hval); [lia|].
    pose proof (parseInt_digits _ false Hne Hall) as Hparse.
    cbn [app] in Hparse. rewrite str_chars in Hparse. rewrite Hparse, Hval. done.
  - change (pretty (Z.neg p)) with ("-" +:+ pretty_N_go (N.pos p) "").
    destruct (pretty_N_go_digits (N.pos p)) as (Hne & Hall & Hval); [lia|].
    pose proof (parseInt_digits _ true Hne Hall) as Hparse.
    cbn [app] in Hparse. change (str ("-"%char :: ?l)) with (String "-" (str l)) in Hparse.
    rewrite str_chars in Hparse. change (String "-" ?s) with ("-" +:+ s) in Hparse.
    rewrite Hparse, Hval. done.
Qed.

(** X26. Typing a whole number into the two inputs: the threads become
    the number clamped to 1..50 and the delay the number or 0 when it
    is negative, and the other setting is left alone; so typing the
    value on display back changes nothing. *)
Theorem X26_typed_numbers (p : Performance) (n : Z) :
  (- 2 ^ 53 < n < 2 ^ 53)%Z ->
  onChange p (ThreadsChanged (number_toString n))
  = {| perf_threads := Z.max 1 (Z.min 50 n); perf_delayMs := perf_delayMs p |}
  /\ onChange p (DelayChanged (number_toString n))
     = {| perf_threads := perf_threads p; perf_delayMs := Z.max 0 n |}
  /\ ((1 <= perf_threads p <= 50)%Z ->
      onChange p (ThreadsChanged (number_toString (perf_threads p))) = p)
  /\ ((0 <= perf_delayMs p)%Z ->
      onChange p (DelayChanged (number_toString (perf_delayMs p))) = p).
Proof.
  intros _. unfold onChange, number_toString. rewrite !parseInt_pretty.
  unfold number_or. split_and!.
  - f_equal. destruct (Z.eqb_spec n 0); lia.
  - f_equal. destruct (Z.eqb_spec n 0); lia.
  - intros Hp. destruct p as [t d]. simpl in *. f_equal.
    destruct (Z.eqb_spec t 0); lia.
  - intros Hp. destruct p as [t d]. simpl in *. f_equal.
    destruct (Z.eqb_spec d 0); lia.
Qed.

Lemma X26_typed_numbers_witness :
  onChange initialPerformance (ThreadsChanged "75")
  = {| perf_threads := 50; perf_delayMs := 0 |}.
Proof.
  destruct (X26_typed_numbers initialPerformance 75) as (H & _).
  - lia.
  - exact H.
Defined.

End InputProperties.

(** ** The fuzzer and the proxy together *)

Section ThroughTheProxy.
Import JsString Headers Json Net Fuzzer Proxy Replies Samples.
Variable JSON_parse : string -> string + JSON.
Variable JSON_stringify : JSON -> string.

(** X27. The fuzzer and the proxy together.  With the proxy switched
    on the fuzzer posts one JSON document to the proxy address; when the
    proxy reads that document back as it was written, it forwards the
    request the fuzzer built: the target address, the method POST, the
    headers of the header box with the default content type, and the
    request body, character for character.  Without a target address
    the proxy answers [Missing url] and calls nothing. *)
Theorem X27_fuzzer_through_proxy s word obj req upstream :
  let headers := mergeDefaultJsonContentType (parseRawHeaders (headersRaw s)) in
  let call := fetchCall JSON_stringify s (JSON_stringify obj) in
  useProxy s = true ->
  requestBodyObj JSON_parse s word = inr obj ->
  is_forward req ->
  in_body req = inr (call_body call) ->
  call_body call <> "" ->
  JSON_parse (call_body call)
  = inr (JObj [("url", JStr (url s)); ("method", JStr "POST");
               ("headers", object_of_map headers);
               ("body", JStr (JSON_stringify obj))]) ->
  requestOnWire JSON_parse JSON_stringify s word = Some call
  /\ call_url call = proxyUrl s
  /\ call_method call = "POST"
  /\ call_headers call = {[ "Content-Type" := "application/json" ]}
  /\ (url s <> "" ->
      forwardArgs JSON_parse JSON_stringify req
      = inr {| targetUrl := JStr (url s);
               method := JStr "POST";
               fwd_headers := object_of_map headers;
               fwd_body := Some (JSON_stringify obj) |})
  /\ (url s = "" ->
      handler JSON_parse JSON_stringify upstream req
      = Some (jsonReply 500 (JObj [("error", JStr "Missing url")]))).
Proof.
  intros headers call Hproxy Hobj Hfwd Hbody Hne Hparse.
  assert (Hraw : String.eqb (call_body call) "" = false) by by apply String.eqb_neq.
  split_and!.
  - unfold requestOnWire. by rewrite Hobj.
  - unfold call, fetchCall. by rewrite Hproxy.
  - unfold call, fetchCall. by rewrite Hproxy.
  - unfold call, fetchCall. by rewrite Hproxy.
  - intros Hurl.
    assert (Htruthy : String.eqb (url s) "" = false) by by apply String.eqb_neq.
    unfold forwardArgs, readPayload. rewrite Hbody. cbn [bind]. rewrite Hraw, Hparse.
    cbn [bind prop]. unfold field. simpl. repeat (rewrite Htruthy; simpl). done.
  - intros Hurl.
    destruct (is_forward_guards req Hfwd) as (Ho & Hp & Hu).
    unfold handler, forwardArgs, readPayload. rewrite Ho, Hp, Hu, Hbody. cbn [bind].
    rewrite Hraw, Hparse. cbn [bind prop]. unfold field. simpl.
    repeat (rewrite Hurl; simpl). done.
Qed.

End ThroughTheProxy.

Section ThroughTheProxyExamples.
Import JsString Headers Json Net Fuzzer Proxy Replies Samples.

Lemma X27_fuzzer_through_proxy_witness :
  exists obj call args,
    requestOnWire reference_parse reference_stringify
                  (mkInputs "" true 1 five_words) "adminUsers" = Some call
    /\ forwardArgs reference_parse reference_stringify
                  {| in_method := "POST"; in_url := "/forward";
                     in_body := inr (call_body call) |} = inr args
    /\ targetUrl args = JStr "https://target.tld/graphql"
    /\ fwd_body args = Some (reference_stringify obj)
    /\ obj = JObj [("query", JStr "{ adminUsers { id } }"); ("variables", JObj [])].
Proof.
  destruct (requestBodyObj reference_parse (mkInputs "" true 1 five_words) "adminUsers")
    as [e|obj] eqn:Hobj; [vm_compute in Hobj; discriminate Hobj|].
  pose (call := fetchCall reference_stringify (mkInputs "" true 1 five_words)
                          (reference_stringify obj)).
  destruct (X27_fuzzer_through_proxy reference_parse reference_stringify
              (mkInputs "" true 1 five_words) "adminUsers" obj
              {| in_method := "POST"; in_url := "/forward";
                 in_body := inr (call_body call) |}
              target_refuses)
    as (Hwire & _ & _ & _ & Hargs & _).
  - reflexivity.
  - exact Hobj.
  - by split.
  - reflexivity.
  - vm_compute in Hobj. injection Hobj as <-. vm_compute. discriminate.
  - vm_compute in Hobj. injection Hobj as <-. vm_compute. reflexivity.
  - eexists obj, call, _. split; [exact Hwire|]. split; [apply Hargs; discriminate|].
    split; [reflexivity|]. split; [reflexivity|].
    vm_compute in Hobj. by injection Hobj as <-.
Defined.

End ThroughTheProxyExamples.

(** ** The workbench *)

Section SenderProperties.
Import JsString Headers Json Net Tokenizer Harvest Fuzzer Shape Sender.
Variable JSON_parse : string -> string + JSON.
Variable JSON_stringify : JSON -> string.
Variable JSON_stringify_indented : JSON -> string.
Variable visitNames : string -> option (list string).

#[local] Abbreviation send5 :=
  (onSend JSON_parse JSON_stringify_indented visitNames).
#[local] Abbreviation harvest5 := (harvest JSON_parse visitNames).

Lemma extract_clean value (set : gset string) :
  clean set -> clean (extractWordsFromJson value set).
Proof.
  intros Hset x Hx. rewrite extract_union, elem_of_union, extract_elem in Hx.
  destruct Hx as [(t & _ & Hx)|Hx]; [by eapply addWord_clean | by apply Hset].
Qed.

Lemma foldl_addWord_clean (ws : list string) (set : gset string) :
  clean set -> clean (foldl addWord set ws).
Proof.
  intros Hset x Hx. apply foldl_addWord_elem in Hx.
  destruct Hx as [Hx|(t & _ & Hx)]; [by apply Hset | by eapply addWord_clean].
Qed.

Lemma harvest_grows s asJson (words : gset string) :
  words ⊆ harvest5 s asJson words
  /\ (clean words -> clean (harvest5 s asJson words)).
Proof.
  unfold harvest, extractWordsFromGraphQL.
  set (vars := default (JObj []) (Workbench.safeJsonParse JSON_parse (variables s))).
  assert (Hq : words ⊆ match visitNames (query s) with
                       | Some names => foldl addWord words names
                       | None => words
                       end
               /\ (clean words -> clean (match visitNames (query s) with
                                         | Some names => foldl addWord words names
                                         | None => words
                                         end))).
  { destruct (visitNames (query s)) as [names|]; [|done].
    split; [|apply foldl_addWord_clean]. rewrite foldl_addWord_union. set_solver. }
  destruct Hq as [Hsub Hclean].
  set (next := match visitNames (query s) with
               | Some names => foldl addWord words names
               | None => words
               end) in *.
  destruct asJson as [v|].
  - split.
    + rewrite (extract_union v), (extract_union vars). set_solver.
    + intros Hw. by apply extract_clean, extract_clean, Hclean.
  - split.
    + rewrite (extract_union vars). set_solver.
    + intros Hw. by apply extract_clean, Hclean.
Qed.

(** X28. Sending a request from the workbench.  When it is over the
    page is no longer sending and no word has left the word list, which
    stays clean if it was.  A request that fails leaves the word list as
    it was and shows [Request failed] with the message of the error; an
    error reported by the proxy leaves it as it was too and shows the
    error without headers or body. *)
Theorem X28_onSend_word_list s net res_statusText st :
  let st' := send5 s net res_statusText st in
  sending st' = false
  /\ wordSet st ⊆ wordSet st'
  /\ (clean (wordSet st) -> clean (wordSet st'))
  /\ (forall err, net = FetchThrows err ->
                  st' = {| sending := false; respStatus := "Request failed";
                           respHeaders := []; respBody := Proxy.errorText err;
                           wordSet := wordSet st |})
  /\ (forall resp err,
         net = FetchResponds resp ->
         (if useProxy s then resp_json resp = inl err else resp_text resp = inl err) ->
         respStatus st' = "Request failed"
         /\ respBody st' = Proxy.errorText err
         /\ wordSet st' = wordSet st)
  /\ (forall resp summary e,
         net = FetchResponds resp -> useProxy s = true ->
         resp_json resp = inr summary -> error summary = Some e -> e <> "" ->
         st' = {| sending := false; respStatus := "Proxy Error: " ++ e;
                  respHeaders := []; respBody := ""; wordSet := wordSet st |}).
Proof.
  intros st'. unfold st', onSend. split_and!.
  - done.
  - destruct net as [err|resp]; [done|]. simpl.
    destruct (useProxy s).
    + destruct (resp_json resp) as [err|summary]; [done|].
      destruct (error summary) as [[|c e]|]; simpl; try done; apply harvest_grows.
    + destruct (resp_text resp) as [err|text]; [done|]. simpl. apply harvest_grows.
  - intros Hclean. destruct net as [err|resp]; [done|]. simpl.
    destruct (useProxy s).
    + destruct (resp_json resp) as [err|summary]; [done|].
      destruct (error summary) as [[|c e]|]; simpl; try done; by apply harvest_grows.
    + destruct (resp_text resp) as [err|text]; [done|]. simpl. by apply harvest_grows.
  - by intros err ->.
  - intros resp err -> Herr. destruct (useProxy s); by rewrite Herr.
  - intros resp summary e -> -> -> -> He. by destruct e.
Qed.

Lemma replace_own_text q (m : ReplacementMarker) :
  (0 <= from m <= to m)%Z ->
  (to m <= Z.of_nat (String.length q))%Z ->
  replaceTextInQuery q m (Marker.sliceString q (from m) (to m)) = q.
Proof.
  intros Hft Hto. apply string_eq_chars.
  rewrite replaceTextInQuery_chars, sliceString_chars by done.
  rewrite !clamp_index_in_range by (rewrite chars_length; lia).
  rewrite app_assoc, take_take_drop.
  replace (Z.to_nat (from m) + (Z.to_nat (to m) - Z.to_nat (from m)))
    with (Z.to_nat (to m)) by lia.
  apply take_drop.
Qed.

(** X29. The fuzzer and the workbench agree.  When the marker was
    taken from the query and the variables are JSON, the request the
    fuzzer builds for the marked text itself is the request the
    workbench sends: the same address, method and headers, and without
    the proxy the same body.  With the proxy the two documents differ
    in one member: the fuzzer gives the body as its text, the workbench
    as the object. *)
Theorem X29_fuzzer_agrees_with_workbench s m vars :
  replacementMarker s = Some m ->
  (0 <= from m <= to m)%Z ->
  (to m <= Z.of_nat (String.length (query s)))%Z ->
  text m = Marker.sliceString (query s) (from m) (to m) ->
  variables s <> "" ->
  JSON_parse (variables s) = inr vars ->
  let body := JObj [("query", JStr (query s)); ("variables", vars)] in
  let headers := mergeDefaultJsonContentType (parseRawHeaders (headersRaw s)) in
  let document (b : JSON) :=
    JSON_stringify (JObj [("url", JStr (url s)); ("method", JStr "POST");
                          ("headers", object_of_map headers); ("body", b)]) in
  exists call,
    requestOnWire JSON_parse JSON_stringify s (text m) = Some call
    /\ call_url call = call_url (sendCall JSON_parse JSON_stringify s)
    /\ call_method call = call_method (sendCall JSON_parse JSON_stringify s)
    /\ call_headers call = call_headers (sendCall JSON_parse JSON_stringify s)
    /\ (useProxy s = false ->
        call = sendCall JSON_parse JSON_stringify s
        /\ call_body call = JSON_stringify body)
    /\ (useProxy s = true ->
        call_body call = document (JStr (JSON_stringify body))
        /\ call_body (sendCall JSON_parse JSON_stringify s) = document body).
Proof.
  intros Hm Hft Hto Htext Hne Hvars body headers document.
  assert (Hquery : currentQuery s (text m) = query s).
  { unfold currentQuery. rewrite Hm, Htext. by apply replace_own_text. }
  assert (Hobj : requestBodyObj JSON_parse s (text m) = inr body).
  { unfold requestBodyObj, variablesText.
    rewrite (proj2 (String.eqb_neq _ _) Hne), Hvars, Hquery. done. }
  assert (Hbody : Workbench.sendBody JSON_parse (query s) (variables s) = body).
  { unfold Workbench.sendBody, Workbench.safeJsonParse. by rewrite Hvars. }
  eexists. split.
  { unfold requestOnWire. rewrite Hobj. reflexivity. }
  unfold fetchCall, sendCall. rewrite Hbody. fold headers.
  destruct (useProxy s); simpl; split_and!; try done.
Qed.

End SenderProperties.

Section SenderExamples.
Import JsString Headers Json Net Tokenizer Harvest Fuzzer Shape Sender Samples.

Lemma X29_fuzzer_agrees_with_workbench_witness :
  requestOnWire reference_parse reference_stringify
                (mkInputs "{}" false 1 five_words) "users"
  = Some (sendCall reference_parse reference_stringify
                   (mkInputs "{}" false 1 five_words)).
Proof.
  destruct (X29_fuzzer_agrees_with_workbench reference_parse reference_stringify
              (mkInputs "{}" false 1 five_words) users_marker (JObj []))
    as (call & Hwire & _ & _ & _ & Hdirect & _).
  - reflexivity.
  - simpl. lia.
  - simpl. lia.
  - reflexivity.
  - discriminate.
  - reflexivity.
  - destruct (Hdirect eq_refl) as [<- _]. exact Hwire.
Defined.

End SenderExamples.
